(** * The DAG metric's nodes

    A shallow embedding of [deepeval/metrics/dag/nodes.py]: the four node
    classes, their construction-time validation, the join counter, the
    verdict gate, the sequential traversal [_execute] and the asyncio
    traversal [_a_execute].

    Python objects live in a heap (a list indexed by object identity); a
    reference to a node is its index.  Attribute writes are heap updates, so
    a node shared by several parents is one heap cell seen by all of them. *)

From Stdlib Require Import ZArith QArith Lia Ascii String.
From stdpp Require Import base list strings gmap pretty.

(** ** Values *)

Abbreviation node_id := nat.

(** [Union[str, bool]]: the label carried by a verdict node and by a
    resolved judgement. *)
Inductive py_verdict :=
| VBool (b : bool)
| VStr (s : string).

Global Instance py_verdict_eq_dec : EqDecision py_verdict.
Proof. solve_decision. Defined.

(** [str(v)] as used by f-strings. *)
Definition str_verdict (v : py_verdict) : string :=
  match v with
  | VBool true => "True"
  | VBool false => "False"
  | VStr s => s
  end.

Definition str_option (o : option string) : string :=
  match o with
  | Some s => s
  | None => "None"
  end.

(** ['c' * n] *)
Fixpoint str_mul (c : string) (n : nat) : string :=
  match n with
  | O => ""
  | S n' => c +:+ str_mul c n'
  end.

Inductive exn :=
| ValueError (msg : string)
| TypeError (msg : string)
| AttributeError (msg : string)
| Exception (msg : string).

(** The structural constraints handed to the judge: the two fixed pydantic
    models of [dag/schema.py] and the model synthesised by
    [NonBinaryJudgementNode.__post_init__] from its label list. *)
Inductive schema :=
| Reason
| BinaryJudgementVerdict
| NonBinaryJudgementVerdict (options : list string).

(** An instance of one of those models: verdict models have the attributes
    [verdict] and [reason], [Reason] only has [reason]. *)
Inductive schema_instance :=
| MkVerdict (verdict : py_verdict) (reason : string)
| MkReason (reason : string).

Definition attr_verdict (r : schema_instance) : option py_verdict :=
  match r with
  | MkVerdict v _ => Some v
  | MkReason _ => None
  end.

Definition attr_reason (r : schema_instance) : string :=
  match r with
  | MkVerdict _ s => s
  | MkReason s => s
  end.

(** One invocation of [metric.model.generate] (or [a_generate]): the prompt
    and the schema, if one was passed. *)
Record JudgeCall := {
  jc_prompt : string;
  jc_schema : option schema;
}.

(** What an invocation does: return a result, with the cost a native model
    reports next to it, or raise. *)
Inductive response (A : Type) :=
| Returns (res : A) (cost : Q)
| Raises (e : exn).
Arguments Returns {A} res cost.
Arguments Raises {A} e.

(** ** External collaborators

    Prompt templates, the test case, the JSON helper and the tool-call type
    are imported by [nodes.py] from other modules; the engine only uses them
    through the operations below. *)
Class Collaborators := {
  LLMTestCaseParams : Type;
  ToolCall : Type;
  PyObject : Type;
  json : Type;
  (** [G_EVAL_PARAMS[param]] *)
  G_EVAL_PARAMS : LLMTestCaseParams → string;
  (** [repr(value)] for a [ToolCall], [str(value)] for anything else *)
  ToolCall_repr : ToolCall → string;
  PyObject_str : PyObject → string;
  (** [trimAndLoadJson(res, self)]: the loaded data, or what it raises *)
  trimAndLoadJson : string → exn + json;
  (** the schema's constructor applied to the loaded data: the instance, or
      what validation raises *)
  schema_init : schema → json → exn + schema_instance;
  TaskNodeTemplate_generate_task_output : string → string → string;
  BinaryJudgementTemplate_generate_binary_verdict : string → string → string;
  NonBinaryJudgementTemplate_generate_non_binary_verdict :
    string → string → list string → string;
  VerdictNodeTemplate_generate_reason :
    list string → option Q → string → string;
}.

Section Nodes.
Context `{Collaborators}.

(** The value of a test-case attribute. *)
Inductive py_value :=
| PyStr (s : string)
| PyToolCall (t : ToolCall)
| PyOther (o : PyObject).

(** [getattr(test_case, param.value)] *)
Definition LLMTestCase := LLMTestCaseParams → py_value.

(** The nested evaluator's specification, as read by [VerdictNode._execute]. *)
Record GEval := {
  ge_name : string;
  ge_evaluation_params : list LLMTestCaseParams;
  ge_criteria : option string;
  ge_evaluation_steps : option (list string);
}.

(** ** Node classes *)

Record VerdictNode := {
  vn_verdict : py_verdict;
  vn_score : option Z;
  vn_g_eval : option GEval;
  vn_parent : option node_id;
}.

Record TaskNode := {
  tn_instructions : string;
  tn_output_label : string;
  tn_children : list node_id;
  tn_evaluation_params : option (list LLMTestCaseParams);
  tn_output : option string;
  tn_parents : option (list node_id);
}.

Record BinaryJudgementNode := {
  bj_criteria : string;
  bj_children : list node_id;
  bj_evaluation_params : option (list LLMTestCaseParams);
  bj_verdict : option schema_instance;
  bj_parents : option (list node_id);
}.

Record NonBinaryJudgementNode := {
  nb_criteria : string;
  nb_children : list node_id;
  nb_evaluation_params : option (list LLMTestCaseParams);
  nb_verdict : option schema_instance;
  nb_parents : option (list node_id);
  (** [_verdict_options]; [_verdict_schema] is
      [NonBinaryJudgementVerdict _verdict_options] *)
  nb_verdict_options : list string;
}.

Inductive node_class :=
| Verdict (v : VerdictNode)
| Task (t : TaskNode)
| Binary (b : BinaryJudgementNode)
| NonBinary (n : NonBinaryJudgementNode).

(** [BaseNode]: the join counter plus the concrete class's fields. *)
Record Node := {
  _indegree : option Z;
  body : node_class;
}.

Abbreviation heap := (list Node).

Definition children_of (n : Node) : list node_id :=
  match body n with
  | Verdict _ => []
  | Task t => tn_children t
  | Binary b => bj_children b
  | NonBinary nb => nb_children nb
  end.

(** ** Builder: parent links and join counters *)

Definition append_parent (ps : option (list node_id)) (parent : node_id)
  : option (list node_id) :=
  match ps with
  | None => Some [parent]
  | Some l => Some (l ++ [parent])
  end.

(** [BaseNode.set_parent]: a [_parent] slot is overwritten, a [_parents]
    list is created on first use and appended to. *)
Definition set_parent (parent : node_id) (self : Node) : Node :=
  {| _indegree := _indegree self;
     body :=
       match body self with
       | Verdict v =>
           Verdict {| vn_verdict := vn_verdict v; vn_score := vn_score v;
                      vn_g_eval := vn_g_eval v; vn_parent := Some parent |}
       | Task t =>
           Task {| tn_instructions := tn_instructions t;
                   tn_output_label := tn_output_label t;
                   tn_children := tn_children t;
                   tn_evaluation_params := tn_evaluation_params t;
                   tn_output := tn_output t;
                   tn_parents := append_parent (tn_parents t) parent |}
       | Binary b =>
           Binary {| bj_criteria := bj_criteria b;
                     bj_children := bj_children b;
                     bj_evaluation_params := bj_evaluation_params b;
                     bj_verdict := bj_verdict b;
                     bj_parents := append_parent (bj_parents b) parent |}
       | NonBinary nb =>
           NonBinary {| nb_criteria := nb_criteria nb;
                        nb_children := nb_children nb;
                        nb_evaluation_params := nb_evaluation_params nb;
                        nb_verdict := nb_verdict nb;
                        nb_parents := append_parent (nb_parents nb) parent;
                        nb_verdict_options := nb_verdict_options nb |}
       end |}.

Definition increment_indegree (node : Node) : Node :=
  {| _indegree :=
       match _indegree node with
       | None => Some 1%Z
       | Some k => Some (k + 1)%Z
       end;
     body := body node |}.

Definition decrement_indegree (node : Node) : Node :=
  {| _indegree :=
       match _indegree node with
       | None => Some 0%Z
       | Some k => Some (k - 1)%Z
       end;
     body := body node |}.

(** [for child in self.children: child.set_parent(self);
    increment_indegree(child)] *)
Fixpoint register_children (self : node_id) (children : list node_id)
    (h : heap) : heap :=
  match children with
  | [] => h
  | child :: rest =>
      register_children self rest
        (alter (λ n, increment_indegree (set_parent self n)) child h)
  end.

(** ** Construction

    A dataclass constructor stores the fields and runs [__post_init__]; when
    that raises no object is returned and the heap is as before. *)

Definition construction := (exn + heap * node_id)%type.

Definition is_VerdictNode (h : heap) (i : node_id) : option VerdictNode :=
  match h !! i with
  | Some {| body := Verdict v |} => Some v
  | _ => None
  end.

Definition new_VerdictNode (h : heap) (verdict : py_verdict)
    (score : option Z) (g_eval : option GEval) : construction :=
  let self := {| _indegree := None;
                 body := Verdict {| vn_verdict := verdict; vn_score := score;
                                    vn_g_eval := g_eval;
                                    vn_parent := None |} |} in
  match score, g_eval with
  | Some _, Some _ =>
      inl (ValueError
        "A VerdictNode can have either a 'score' or a 'g_eval', but not both.")
  | None, None =>
      inl (ValueError "A VerdictNode must have either a 'score' or a 'g_eval'.")
  | Some s, None =>
      if negb ((0 <=? s)%Z && (s <=? 10)%Z)
      then inl (ValueError "The score must be between 0 and 10, inclusive.")
      else inr (h ++ [self], length h)
  | None, Some _ => inr (h ++ [self], length h)
  end.

Definition new_TaskNode (h : heap) (instructions output_label : string)
    (children : list node_id)
    (evaluation_params : option (list LLMTestCaseParams)) : construction :=
  let self := {| _indegree := None;
                 body := Task {| tn_instructions := instructions;
                                 tn_output_label := output_label;
                                 tn_children := children;
                                 tn_evaluation_params := evaluation_params;
                                 tn_output := None;
                                 tn_parents := None |} |} in
  if existsb (λ child, bool_decide (is_Some (is_VerdictNode h child))) children
  then inl (ValueError
    "A TaskNode must not have a VerdictNode as one of their 'children'.")
  else inr (register_children (length h) children (h ++ [self]), length h).

(** The first loop of [BinaryJudgementNode.__post_init__]: the first
    offending child decides which exception is raised. *)
Fixpoint check_boolean_verdicts (h : heap) (children : list node_id)
  : exn + list bool :=
  match children with
  | [] => inr []
  | child :: rest =>
      match is_VerdictNode h child with
      | None => inl (TypeError "All children must be of type VerdictNode.")
      | Some v =>
          match vn_verdict v with
          | VBool b =>
              match check_boolean_verdicts h rest with
              | inl e => inl e
              | inr bs => inr (b :: bs)
              end
          | VStr _ =>
              inl (ValueError
                "All children BinaryJudgementNode must have a boolean vedict.")
          end
      end
  end.

(** [verdicts.count(x)] *)
Definition count (x : bool) (verdicts : list bool) : nat :=
  length (filter (λ b, b = x) verdicts).

Definition new_BinaryJudgementNode (h : heap) (criteria : string)
    (children : list node_id)
    (evaluation_params : option (list LLMTestCaseParams)) : construction :=
  let self := {| _indegree := None;
                 body := Binary {| bj_criteria := criteria;
                                   bj_children := children;
                                   bj_evaluation_params := evaluation_params;
                                   bj_verdict := None;
                                   bj_parents := None |} |} in
  if negb (length children =? 2)%nat
  then inl (ValueError "BinaryJudgementNode must have exactly 2 children.")
  else
    match check_boolean_verdicts h children with
    | inl e => inl e
    | inr verdicts =>
        if negb (count true verdicts =? 1)%nat
           || negb (count false verdicts =? 1)%nat
        then inl (ValueError
          "BinaryJudgementNode must have one True and one False VerdictNode child.")
        else inr (register_children (length h) children (h ++ [self]),
                  length h)
    end.

(** The loop of [NonBinaryJudgementNode.__post_init__], threading
    [verdicts_set]. *)
Fixpoint check_string_verdicts (h : heap) (children : list node_id)
    (verdicts_set : gset string) : exn + gset string :=
  match children with
  | [] => inr verdicts_set
  | child :: rest =>
      match is_VerdictNode h child with
      | None => inl (TypeError "All children must be of type VerdictNode.")
      | Some v =>
          match vn_verdict v with
          | VStr s =>
              if bool_decide (s ∈ verdicts_set)
              then inl (ValueError
                ("Duplicate verdict found: " +:+ s +:+
                 " in children of NonBinaryJudgementNode."))
              else check_string_verdicts h rest (verdicts_set ∪ {[s]})
          | VBool _ =>
              inl (ValueError
                "The verdict attribute of all children must be a string.")
          end
      end
  end.

Definition new_NonBinaryJudgementNode (h : heap) (criteria : string)
    (children : list node_id)
    (evaluation_params : option (list LLMTestCaseParams)) : construction :=
  match children with
  | [] => inl (ValueError "NonBinaryJudgementNode must have at least one child.")
  | _ =>
      match check_string_verdicts h children ∅ with
      | inl e => inl e
      | inr verdicts_set =>
          let self :=
            {| _indegree := None;
               body := NonBinary
                 {| nb_criteria := criteria;
                    nb_children := children;
                    nb_evaluation_params := evaluation_params;
                    nb_verdict := None;
                    nb_parents := None;
                    nb_verdict_options := elements verdicts_set |} |} in
          inr (register_children (length h) children (h ++ [self]), length h)
      end
  end.

(** ** The judge and the evaluation context *)

(** [metric.model].  The judge may answer differently each time it is
    asked: its answer is a function of the invocations made before. *)
Record Judge := {
  generate : list JudgeCall → string → response string;
  generate_schema :
    list JudgeCall → string → schema → response schema_instance;
}.

(** The keyword arguments of the [GEval] copy built by a verdict node;
    [criteria] is passed when truthy, [evaluation_steps] otherwise. *)
Record GEval_args := {
  ga_name : string;
  ga_evaluation_params : list LLMTestCaseParams;
  ga_verbose_mode : bool;
  ga_rubric : string + option (list string);
}.

(** Building the copy from those arguments, running its [measure] on the
    test case and reading the copy's [score] and [reason]. *)
Definition GEval_measure :=
  GEval_args → LLMTestCase → response (option Q * option string).

Record Metric := {
  _verbose_steps : list string;
  score : option Q;
  reason : option string;
  evaluation_cost : Q;
  include_reason : bool;
  using_native_model : bool;
  verbose_mode : bool;
  metric_name : string;
}.

(** The mutable world of one evaluation pass.  [calls] and [entered] are
    bookkeeping of the model, not attributes of the program: the judge
    invocations made so far, and the visits that went past the join check
    (node and depth), both in order. *)
Record State := {
  nodes : heap;
  metric : Metric;
  calls : list JudgeCall;
  entered : list (node_id * Z);
}.

Inductive result :=
| Done (st : State)
| Raised (e : exn) (st : State)
| Stuck.

Definition with_nodes (f : heap → heap) (st : State) : State :=
  {| nodes := f (nodes st); metric := metric st;
     calls := calls st; entered := entered st |}.

Definition with_metric (f : Metric → Metric) (st : State) : State :=
  {| nodes := nodes st; metric := f (metric st);
     calls := calls st; entered := entered st |}.

Definition record_call (c : JudgeCall) (st : State) : State :=
  {| nodes := nodes st; metric := metric st;
     calls := calls st ++ [c]; entered := entered st |}.

Definition record_entry (self : node_id) (depth : Z) (st : State) : State :=
  {| nodes := nodes st; metric := metric st;
     calls := calls st; entered := entered st ++ [(self, depth)] |}.

(** [metric._verbose_steps.append(s)] *)
Definition log_append (s : string) (m : Metric) : Metric :=
  {| _verbose_steps := _verbose_steps m ++ [s];
     score := score m; reason := reason m;
     evaluation_cost := evaluation_cost m;
     include_reason := include_reason m;
     using_native_model := using_native_model m;
     verbose_mode := verbose_mode m; metric_name := metric_name m |}.

(** [metric.evaluation_cost += cost] *)
Definition add_cost (cost : Q) (m : Metric) : Metric :=
  {| _verbose_steps := _verbose_steps m;
     score := score m; reason := reason m;
     evaluation_cost := (evaluation_cost m + cost)%Q;
     include_reason := include_reason m;
     using_native_model := using_native_model m;
     verbose_mode := verbose_mode m; metric_name := metric_name m |}.

(** [metric.score = s] *)
Definition set_score (s : option Q) (m : Metric) : Metric :=
  {| _verbose_steps := _verbose_steps m;
     score := s; reason := reason m;
     evaluation_cost := evaluation_cost m;
     include_reason := include_reason m;
     using_native_model := using_native_model m;
     verbose_mode := verbose_mode m; metric_name := metric_name m |}.

(** [metric.reason = r] *)
Definition set_reason (r : option string) (m : Metric) : Metric :=
  {| _verbose_steps := _verbose_steps m;
     score := score m; reason := r;
     evaluation_cost := evaluation_cost m;
     include_reason := include_reason m;
     using_native_model := using_native_model m;
     verbose_mode := verbose_mode m; metric_name := metric_name m |}.

(** [self._output = res] *)
Definition set_output (res : string) (n : Node) : Node :=
  {| _indegree := _indegree n;
     body :=
       match body n with
       | Task t =>
           Task {| tn_instructions := tn_instructions t;
                   tn_output_label := tn_output_label t;
                   tn_children := tn_children t;
                   tn_evaluation_params := tn_evaluation_params t;
                   tn_output := Some res;
                   tn_parents := tn_parents t |}
       | c => c
       end |}.

(** [self._verdict = res] *)
Definition set_verdict (res : schema_instance) (n : Node) : Node :=
  {| _indegree := _indegree n;
     body :=
       match body n with
       | Binary b =>
           Binary {| bj_criteria := bj_criteria b;
                     bj_children := bj_children b;
                     bj_evaluation_params := bj_evaluation_params b;
                     bj_verdict := Some res;
                     bj_parents := bj_parents b |}
       | NonBinary nb =>
           NonBinary {| nb_criteria := nb_criteria nb;
                        nb_children := nb_children nb;
                        nb_evaluation_params := nb_evaluation_params nb;
                        nb_verdict := Some res;
                        nb_parents := nb_parents nb;
                        nb_verdict_options := nb_verdict_options nb |}
       | c => c
       end |}.

(** ** The audit log *)

Definition nl : string := String "010"%char "".

(** The attribute reads [node._verdict.verdict] and [node._verdict.reason]
    fail on [None] and on an object without a [verdict]. *)
Definition resolved_verdict (v : option schema_instance)
  : exn + py_verdict * string :=
  match v with
  | None => inl (AttributeError "'NoneType' object has no attribute 'verdict'")
  | Some r =>
      match attr_verdict r with
      | None => inl (AttributeError "object has no attribute 'verdict'")
      | Some l => inr (l, attr_reason r)
      end
  end.

Definition judgement_log (is_binary_node : bool) (criteria : string)
    (v : py_verdict) (why : string) (depth : Z) : string :=
  let node_type :=
    if is_binary_node then "BinaryJudgementNode" else "NonBinaryJudgementNode" in
  let underscore_multiple := if is_binary_node then 34 else 37 in
  let star_multiple := if is_binary_node then 48 else 56 in
  str_mul "_" underscore_multiple +:+ nl +:+
  "| " +:+ node_type +:+ " | Level == " +:+ pretty depth +:+ " |" +:+ nl +:+
  str_mul "*" star_multiple +:+ nl +:+
  "Criteria:" +:+ nl +:+
  criteria +:+ nl +:+ nl +:+
  "Verdict: " +:+ str_verdict v +:+ nl +:+
  "Reason: " +:+ why +:+ nl.

Definition construct_node_verbose_log (node : Node) (depth : Z)
  : exn + string :=
  match body node with
  | Binary b =>
      match resolved_verdict (bj_verdict b) with
      | inl e => inl e
      | inr (v, why) => inr (judgement_log true (bj_criteria b) v why depth)
      end
  | NonBinary nb =>
      match resolved_verdict (nb_verdict nb) with
      | inl e => inl e
      | inr (v, why) => inr (judgement_log false (nb_criteria nb) v why depth)
      end
  | Task t =>
      inr ("______________________" +:+ nl +:+
           "| TaskNode | Level == " +:+ pretty depth +:+ " |" +:+ nl +:+
           "*******************************" +:+ nl +:+
           "Instructions:" +:+ nl +:+
           tn_instructions t +:+ nl +:+ nl +:+
           tn_output_label t +:+ ":" +:+ nl +:+
           str_option (tn_output t) +:+ nl)
  | Verdict v =>
      let type :=
        match vn_g_eval v with
        | Some _ => "GEval"
        | None => "Deterministic"
        end in
      inr ("________________________" +:+ nl +:+
           "| VerdictNode | Level == " +:+ pretty depth +:+ " |" +:+ nl +:+
           "**********************************" +:+ nl +:+
           "Verdict: " +:+ str_verdict (vn_verdict v) +:+ nl +:+
           "Type: " +:+ type)
  end.

(** ** Executing one node *)

Section Execution.
Variable model : Judge.
Variable measure : GEval_measure.
Variable test_case : LLMTestCase.

(** [metric.model.generate(prompt)] *)
Definition call_generate (prompt : string) (st : State)
  : response string * State :=
  (generate model (calls st) prompt,
   record_call {| jc_prompt := prompt; jc_schema := None |} st).

(** [metric.model.generate(prompt, schema=sc)] *)
Definition call_generate_schema (prompt : string) (sc : schema) (st : State)
  : response schema_instance * State :=
  (generate_schema model (calls st) prompt sc,
   record_call {| jc_prompt := prompt; jc_schema := Some sc |} st).

(** The schema-constrained invocation written out in both judgement nodes
    and in [_generate_reason]: a native model returns result and cost; any
    other model is tried with the schema and, on [TypeError], asked again
    without it, the text being loaded and validated by hand. *)
Definition generate_with_schema (prompt : string) (sc : schema) (st : State)
  : (exn + schema_instance) * State :=
  if using_native_model (metric st) then
    match call_generate_schema prompt sc st with
    | (Returns res cost, st1) => (inr res, with_metric (add_cost cost) st1)
    | (Raises e, st1) => (inl e, st1)
    end
  else
    match call_generate_schema prompt sc st with
    | (Returns res _, st1) => (inr res, st1)
    | (Raises (TypeError _), st1) =>
        match call_generate prompt st1 with
        | (Returns res _, st2) =>
            match trimAndLoadJson res with
            | inl e => (inl e, st2)
            | inr data => (schema_init sc data, st2)
            end
        | (Raises e, st2) => (inl e, st2)
        end
    | (Raises e, st1) => (inl e, st1)
    end.

(** [for parent in parents: if isinstance(parent, TaskNode): text += ...];
    [sep] is what follows each pair. *)
Fixpoint parents_text (sep : string) (h : heap) (parents : list node_id)
  : string :=
  match parents with
  | [] => ""
  | parent :: rest =>
      match h !! parent with
      | Some {| body := Task t |} =>
          tn_output_label t +:+ ":" +:+ nl +:+
          str_option (tn_output t) +:+ sep
      | _ => ""
      end +:+ parents_text sep h rest
  end.

(** The value as the f-string renders it, after [repr] of a tool call. *)
Definition render (value : py_value) : string :=
  match value with
  | PyToolCall t => ToolCall_repr t
  | PyStr s => s
  | PyOther o => PyObject_str o
  end.

(** [for param in evaluation_params: text += ...] *)
Fixpoint params_text (evaluation_params : list LLMTestCaseParams) : string :=
  match evaluation_params with
  | [] => ""
  | param :: rest =>
      G_EVAL_PARAMS param +:+ ":" +:+ nl +:+
      render (test_case param) +:+ nl +:+ params_text rest
  end.

Definition not_iterable : exn :=
  TypeError "'NoneType' object is not iterable".

(** The last step of a judging node: append its log block. *)
Definition append_own_log (self : node_id) (depth : Z) (st : State) : result :=
  match nodes st !! self with
  | None => Stuck
  | Some n =>
      match construct_node_verbose_log n depth with
      | inl e => Raised e st
      | inr s => Done (with_metric (log_append s) st)
      end
  end.

(** [TaskNode._execute] between the join check and the loop over the
    children. *)
Definition TaskNode_body (self : node_id) (t : TaskNode) (depth : Z)
    (st : State) : result :=
  let text :=
    match tn_parents t with
    | Some parents => parents_text (nl +:+ nl) (nodes st) parents
    | None => ""
    end in
  match tn_evaluation_params t with
  | None => Raised not_iterable st
  | Some evaluation_params =>
      let text := text +:+ params_text evaluation_params in
      let prompt :=
        TaskNodeTemplate_generate_task_output (tn_instructions t) text in
      match call_generate prompt st with
      | (Raises e, st1) => Raised e st1
      | (Returns res cost, st1) =>
          let st2 :=
            if using_native_model (metric st1)
            then with_metric (add_cost cost) st1 else st1 in
          append_own_log self depth
            (with_nodes (alter (set_output res) self) st2)
      end
  end.

(** The judging step shared by both judgement nodes once the prompt is
    built. *)
Definition judge_and_log (self : node_id) (depth : Z) (prompt : string)
    (sc : schema) (st : State) : result :=
  match generate_with_schema prompt sc st with
  | (inl e, st1) => Raised e st1
  | (inr res, st1) =>
      append_own_log self depth
        (with_nodes (alter (set_verdict res) self) st1)
  end.

(** [BinaryJudgementNode._execute] between the join check and the loop
    over the children. *)
Definition BinaryJudgementNode_body (self : node_id)
    (b : BinaryJudgementNode) (depth : Z) (st : State) : result :=
  match bj_parents b with
  | None => Raised not_iterable st
  | Some parents =>
      let text := parents_text (nl +:+ nl) (nodes st) parents in
      let text :=
        match bj_evaluation_params b with
        | Some evaluation_params => text +:+ params_text evaluation_params
        | None => text
        end in
      judge_and_log self depth
        (BinaryJudgementTemplate_generate_binary_verdict (bj_criteria b) text)
        BinaryJudgementVerdict st
  end.

(** [NonBinaryJudgementNode._execute] between the join check and the loop
    over the children. *)
Definition NonBinaryJudgementNode_body (self : node_id)
    (nb : NonBinaryJudgementNode) (depth : Z) (st : State) : result :=
  match nb_parents nb with
  | None => Raised not_iterable st
  | Some parents =>
      let text := parents_text nl (nodes st) parents in
      let text :=
        match nb_evaluation_params nb with
        | Some evaluation_params => text +:+ params_text evaluation_params
        | None => text
        end in
      judge_and_log self depth
        (NonBinaryJudgementTemplate_generate_non_binary_verdict
           (nb_criteria nb) text (nb_verdict_options nb))
        (NonBinaryJudgementVerdict (nb_verdict_options nb)) st
  end.

(** [VerdictNode._generate_reason] *)
Definition _generate_reason (st : State) : (exn + string) * State :=
  let prompt :=
    VerdictNodeTemplate_generate_reason
      (_verbose_steps (metric st)) (score (metric st))
      (metric_name (metric st)) in
  match generate_with_schema prompt Reason st with
  | (inl e, st1) => (inl e, st1)
  | (inr res, st1) => (inr (attr_reason res), st1)
  end.

(** The gate of a verdict node: [None] when the parent is not a judgement
    node, otherwise the parent's [_verdict]. *)
Definition judgement_parent (h : heap) (v : VerdictNode)
  : option (option schema_instance) :=
  match vn_parent v with
  | None => None
  | Some p =>
      match h !! p with
      | Some {| body := Binary b |} => Some (bj_verdict b)
      | Some {| body := NonBinary nb |} => Some (nb_verdict nb)
      | _ => None
      end
  end.

Definition copy_args (g : GEval) (m : Metric) : GEval_args :=
  {| ga_name := ge_name g;
     ga_evaluation_params := ge_evaluation_params g;
     ga_verbose_mode := verbose_mode m;
     ga_rubric :=
       match ge_criteria g with
       | Some c => if bool_decide (c = "") then inr (ge_evaluation_steps g)
                   else inl c
       | None => inr (ge_evaluation_steps g)
       end |}.

(** [VerdictNode._execute] after the gate. *)
Definition VerdictNode_resolve (self : node_id) (v : VerdictNode) (depth : Z)
    (st : State) : result :=
  match append_own_log self depth st with
  | Done st1 =>
      match vn_g_eval v with
      | Some g =>
          match measure (copy_args g (metric st1)) test_case with
          | Raises e => Raised e st1
          | Returns (s, r) _ =>
              let st2 := with_metric (set_score s) st1 in
              if include_reason (metric st2)
              then Done (with_metric (set_reason r) st2)
              else Done st2
          end
      | None =>
          match vn_score v with
          | None =>
              Raised (TypeError
                "unsupported operand type(s) for /: 'NoneType' and 'int'") st1
          | Some s =>
              let st2 := with_metric (set_score (Some (inject_Z s / 10)%Q)) st1 in
              if include_reason (metric st2) then
                match _generate_reason st2 with
                | (inl e, st3) => Raised e st3
                | (inr r, st3) => Done (with_metric (set_reason (Some r)) st3)
                end
              else Done st2
          end
      end
  | r => r
  end.

(** [VerdictNode._execute] after the join check: the gate, then the rest. *)
Definition VerdictNode_body (self : node_id) (v : VerdictNode) (depth : Z)
    (st : State) : result :=
  match judgement_parent (nodes st) v with
  | Some parent_verdict =>
      match resolved_verdict parent_verdict with
      | inl e => Raised e st
      | inr (l, _) =>
          if bool_decide (l ≠ vn_verdict v) then Done st
          else VerdictNode_resolve self v depth st
      end
  | None => VerdictNode_resolve self v depth st
  end.

(** What a node does on a visit once the join check let it through, up to
    the point where it turns to its children. *)
Definition node_body (self : node_id) (n : Node) (depth : Z) (st : State)
  : result :=
  match body n with
  | Verdict v => VerdictNode_body self v depth st
  | Task t => TaskNode_body self t depth st
  | Binary b => BinaryJudgementNode_body self b depth st
  | NonBinary nb => NonBinaryJudgementNode_body self nb depth st
  end.

(** The outcome of one visit, before any child is visited. *)
Inductive visit_result :=
| Returned (st : State)
| Proceeds (st : State) (children : list node_id)
| Fails (e : exn) (st : State)
| Dangling.

(** The head of every [_execute] and [_a_execute]:
    [decrement_indegree(self); if self._indegree != 0: return], then the
    node's own work. *)
Definition visit (self : node_id) (depth : Z) (st : State) : visit_result :=
  match nodes st !! self with
  | None => Dangling
  | Some n =>
      let n1 := decrement_indegree n in
      let st1 := with_nodes (alter decrement_indegree self) st in
      if bool_decide (_indegree n1 ≠ Some 0%Z) then Returned st1
      else
        match node_body self n1 depth (record_entry self depth st1) with
        | Done st2 => Proceeds st2 (children_of n1)
        | Raised e st2 => Fails e st2
        | Stuck => Dangling
        end
  end.

(** ** The sequential strategy *)

(** [for children in self.children: children._execute(...)] *)
Fixpoint for_each (f : node_id → State → result) (children : list node_id)
    (st : State) : result :=
  match children with
  | [] => Done st
  | child :: rest =>
      match f child st with
      | Done st1 => for_each f rest st1
      | r => r
      end
  end.

(** [node._execute(metric, test_case, depth)]; the recursion follows the
    call stack, [fuel] bounds its depth. *)
Fixpoint _execute (fuel : nat) (self : node_id) (depth : Z) (st : State)
  : result :=
  match fuel with
  | O => Stuck
  | S fuel' =>
      match visit self depth st with
      | Returned st1 => Done st1
      | Proceeds st1 children =>
          for_each (λ child, _execute fuel' child (depth + 1)) children st1
      | Fails e st1 => Raised e st1
      | Dangling => Stuck
      end
  end.

(** ** The asyncio strategy

    [await asyncio.gather(child._a_execute(...) for child in children)]
    turns every child coroutine into a task and appends the tasks, in
    order, to the event loop's queue of ready callbacks; the awaiting
    coroutine is resumed only after they are all done and has nothing left
    to do then.  The loop pops ready tasks first-in first-out and runs each
    to its next suspension.  With a judge whose [a_generate] returns
    without suspending, a task suspends only at its own [gather], so a pass
    is the queue discipline below; [fuel] bounds the number of tasks run.
    A failure ends the pass; what sibling tasks still do after it is not
    modelled. *)
Fixpoint event_loop (fuel : nat) (ready : list (node_id * Z)) (st : State)
  : result :=
  match ready with
  | [] => Done st
  | (self, depth) :: rest =>
      match fuel with
      | O => Stuck
      | S fuel' =>
          match visit self depth st with
          | Returned st1 => event_loop fuel' rest st1
          | Proceeds st1 children =>
              event_loop fuel'
                (rest ++ map (λ child, (child, (depth + 1)%Z)) children) st1
          | Fails e st1 => Raised e st1
          | Dangling => Stuck
          end
      end
  end.

(** [asyncio.run(node._a_execute(metric, test_case, depth))] *)
Definition _a_execute (fuel : nat) (self : node_id) (depth : Z) (st : State)
  : result :=
  event_loop fuel [(self, depth)] st.

End Execution.

End Nodes.

Abbreviation heap := (list Node).

(** ** Vocabulary of the statements *)

Definition succeeds `{Collaborators} (c : construction) : Prop :=
  ∃ h' self, c = inr (h', self).

Definition raises `{Collaborators} (c : construction) : Prop :=
  ∃ e, c = inl e.

(** The state a pass leaves behind, whether it returned or raised. *)
Definition last_state `{Collaborators} (r : result) : option State :=
  match r with
  | Done st => Some st
  | Raised _ st => Some st
  | Stuck => None
  end.

(** A fresh metric: empty log, no score, no reason, no cost. *)
Definition fresh_metric (include_reason using_native_model : bool) : Metric :=
  {| _verbose_steps := []; score := None; reason := None;
     evaluation_cost := 0; include_reason := include_reason;
     using_native_model := using_native_model;
     verbose_mode := false; metric_name := "DAG" |}.

Definition start `{Collaborators} (h : heap) (m : Metric) : State :=
  {| nodes := h; metric := m; calls := []; entered := [] |}.

(** [visit]'s result when the join check lets the node through. *)
Definition through `{Collaborators} (n : Node) (r : result) : visit_result :=
  match r with
  | Done st => Proceeds st (children_of n)
  | Raised e st => Fails e st
  | Stuck => Dangling
  end.

(** ** A stub environment for concrete runs *)

Inductive stub_param := INPUT | ACTUAL_OUTPUT | TOOLS_CALLED.

Definition stub_label (p : stub_param) : string :=
  match p with
  | INPUT => "Input"
  | ACTUAL_OUTPUT => "Actual Output"
  | TOOLS_CALLED => "Tools Called"
  end.

(** The stub's JSON loader accepts the two texts [true] and [false]. *)
Definition stub_load (s : string) : exn + bool :=
  if bool_decide (s = "true") then inr true
  else if bool_decide (s = "false") then inr false
  else inl (ValueError "Evaluation LLM outputted an invalid JSON.").

Definition stub_init (sc : schema) (data : bool) : exn + schema_instance :=
  match sc with
  | BinaryJudgementVerdict => inr (MkVerdict (VBool data) "extracted")
  | Reason => inr (MkReason "extracted")
  | NonBinaryJudgementVerdict _ => inl (ValueError "validation error")
  end.

Definition stub : Collaborators :=
  {| LLMTestCaseParams := stub_param;
     ToolCall := string;
     PyObject := unit;
     json := bool;
     G_EVAL_PARAMS := stub_label;
     ToolCall_repr := λ t, "ToolCall(name=" +:+ t +:+ ")";
     PyObject_str := λ _, "None";
     trimAndLoadJson := stub_load;
     schema_init := stub_init;
     TaskNodeTemplate_generate_task_output :=
       λ instructions text, instructions +:+ "|" +:+ text;
     BinaryJudgementTemplate_generate_binary_verdict :=
       λ criteria text, criteria +:+ "|" +:+ text;
     NonBinaryJudgementTemplate_generate_non_binary_verdict :=
       λ criteria text options,
         criteria +:+ "|" +:+ text +:+ "|" +:+ String.concat "," options;
     VerdictNodeTemplate_generate_reason :=
       λ verbose_steps _ name, name +:+ "|" +:+ String.concat "" verbose_steps |}.

(** A test case: [input="hello"], an actual output, one tool call. *)
Definition stub_case : @LLMTestCase stub :=
  λ p,
    match p with
    | INPUT => @PyStr stub "hello"
    | ACTUAL_OUTPUT => @PyStr stub "world"
    | TOOLS_CALLED => @PyToolCall stub "search"
    end.

(** A judge that answers every free-text prompt with [out] and every
    schema-constrained prompt with the verdict [true]. *)
Definition yes_judge : Judge :=
  {| generate := λ _ _, Returns "out" 0;
     generate_schema := λ _ _ sc,
       match sc with
       | Reason => Returns (MkReason "because") 0
       | _ => Returns (MkVerdict (VBool true) "ok") 0
       end |}.

(** A generic judge that rejects every schema with [TypeError] and answers
    free-text prompts with [text]. *)
Definition schemaless_judge (text : string) : Judge :=
  {| generate := λ _ _, Returns text 0;
     generate_schema := λ _ _ _, Raises (TypeError "unexpected keyword 'schema'") |}.

Definition no_measure : @GEval_measure stub :=
  λ _ _, Raises (Exception "no nested evaluator").

(** ** Concrete graphs *)

(** The heap a successful construction leaves (empty if it raised). *)
Definition built `{Collaborators} (c : construction) : heap :=
  match c with
  | inr (h, _) => h
  | inl _ => []
  end.

Section Examples.
#[local] Existing Instance stub.

(** One verdict node with [score=10], nobody's child. *)
Definition lone_verdict : list (@Node stub) :=
  built (new_VerdictNode [] (VBool true) (Some 10%Z) None).

(** The end-to-end graph: verdict nodes 0 ([true], score 10) and 1
    ([false], score 0) under the binary judgement 2, under the task 3. *)
Definition end_to_end : list (@Node stub) :=
  let h := built (new_VerdictNode [] (VBool true) (Some 10%Z) None) in
  let h := built (new_VerdictNode h (VBool false) (Some 0%Z) None) in
  let h := built (new_BinaryJudgementNode h "length" [0; 1] None) in
  built (new_TaskNode h "summarize" "Summary" [2] (Some [INPUT])).

(** The same judgement with its two verdict nodes, used as the root. *)
Definition judgement_only : list (@Node stub) :=
  let h := built (new_VerdictNode [] (VBool true) (Some 10%Z) None) in
  let h := built (new_VerdictNode h (VBool false) (Some 0%Z) None) in
  built (new_BinaryJudgementNode h "length" [0; 1] None).

End Examples.

(** [labelled h children labels]: every child is a verdict node of [h] and
    [labels] are their string labels, in order. *)
Definition labelled `{Collaborators} (h : heap) (children : list node_id)
    (labels : list string) : Prop :=
  Forall2 (λ child s, ∃ v, is_VerdictNode h child = Some v
                           ∧ vn_verdict v = VStr s) children labels.

(** The end-to-end graph once its judgement (node 2) has resolved to
    [True]: the state in which the two verdict nodes are visited. *)
Definition judged_true : @State stub :=
  start (alter (set_verdict (MkVerdict (VBool true) "ok")) 2 end_to_end)
        (fresh_metric true false).

(** The state a visit leaves behind. *)
Definition visited `{Collaborators} (r : visit_result) : option State :=
  match r with
  | Returned st => Some st
  | Proceeds st _ => Some st
  | Fails _ st => Some st
  | Dangling => None
  end.

(** All the strings of a list, one after the other. *)
Definition concat_all (l : list string) : string :=
  foldr String.app "" l.

(** What one parent contributes to a task node's context: for a task
    parent, its output label and its output. *)
Definition parent_pair `{Collaborators} (h : heap) (parent : node_id)
  : string :=
  match h !! parent with
  | Some {| body := Task p |} =>
      tn_output_label p +:+ ":" +:+ nl +:+
      str_option (tn_output p) +:+ nl +:+ nl
  | _ => ""
  end.

(** What one evaluation parameter contributes: its label and the value the
    test case holds for it, a tool call through [repr]. *)
Definition param_entry `{Collaborators} (test_case : LLMTestCase)
    (param : LLMTestCaseParams) : string :=
  G_EVAL_PARAMS param +:+ ":" +:+ nl +:+
  match test_case param with
  | PyToolCall t => ToolCall_repr t
  | PyStr s => s
  | PyOther o => PyObject_str o
  end +:+ nl.

(** ** What a pass never changes *)

(** A node class without its transient fields ([_output], [_verdict]). *)
Definition static_class `{Collaborators} (c : node_class) : node_class :=
  match c with
  | Verdict v => Verdict v
  | Task t =>
      Task {| tn_instructions := tn_instructions t;
              tn_output_label := tn_output_label t;
              tn_children := tn_children t;
              tn_evaluation_params := tn_evaluation_params t;
              tn_output := None;
              tn_parents := tn_parents t |}
  | Binary b =>
      Binary {| bj_criteria := bj_criteria b;
                bj_children := bj_children b;
                bj_evaluation_params := bj_evaluation_params b;
                bj_verdict := None;
                bj_parents := bj_parents b |}
  | NonBinary nb =>
      NonBinary {| nb_criteria := nb_criteria nb;
                   nb_children := nb_children nb;
                   nb_evaluation_params := nb_evaluation_params nb;
                   nb_verdict := None;
                   nb_parents := nb_parents nb;
                   nb_verdict_options := nb_verdict_options nb |}
  end.

Definition skeleton `{Collaborators} (n : Node) : node_class :=
  static_class (body n).

(** The join counters of all nodes. *)
Definition counters `{Collaborators} (st : State) : list (option Z) :=
  _indegree <$> nodes st.

(** The configuration of a metric: everything but log, score, reason and
    cost. *)
Definition settings (m : Metric) : bool * bool * bool * string :=
  (include_reason m, using_native_model m, verbose_mode m, metric_name m).

(** [same_frame st st']: between the two states no node was added, removed
    or rewired, no counter moved, no visit went past a join check and the
    metric's configuration is the same. *)
Definition same_frame `{Collaborators} (st st' : State) : Prop :=
  skeleton <$> nodes st' = skeleton <$> nodes st
  ∧ counters st' = counters st
  ∧ entered st' = entered st
  ∧ settings (metric st') = settings (metric st).

(** ** Counting executions *)

(** The counter of node [i] is at or below zero: the node has used up its
    one chance to get past the join check. *)
Definition spent `{Collaborators} (st : State) (i : node_id) : Prop :=
  ∃ k, counters st !! i = Some (Some k) ∧ (k ≤ 0)%Z.

(** How often node [i] occurs in a list of recorded entries. *)
Definition entries (i : node_id) (l : list (node_id * Z)) : nat :=
  length (filter (λ e, e.1 = i) l).

(** [once st st']: from [st] to [st'] every node went past its join check
    at most once, a node whose counter was spent not at all, and a node
    that did is spent afterwards. *)
Definition once `{Collaborators} (st st' : State) : Prop :=
  ∃ new,
    entered st' = entered st ++ new
    ∧ ∀ i, entries i new ≤ 1
           ∧ (spent st i → entries i new = 0)
           ∧ (entries i new = 1 → spent st' i)
           ∧ (spent st i → spent st' i).

(** ** The static graph *)

Definition class_children `{Collaborators} (c : node_class) : list node_id :=
  match c with
  | Verdict _ => []
  | Task t => tn_children t
  | Binary b => bj_children b
  | NonBinary nb => nb_children nb
  end.

(** The children of node [i] in a list of node skeletons. *)
Definition kids `{Collaborators} (sk : list node_class) (i : node_id)
  : list node_id :=
  match sk !! i with
  | Some c => class_children c
  | None => []
  end.

(** Children are older objects than their parents: what construction
    order gives, and what makes the graph acyclic. *)
Definition acyclic `{Collaborators} (sk : list node_class) : Prop :=
  ∀ i c, c ∈ kids sk i → c < i.

(** The number of visits a visit to [i] can set off: itself and, if it
    gets past the join check, those of its children.  [fuel] only has to
    exceed [i]. *)
Fixpoint paths `{Collaborators} (sk : list node_class) (fuel : nat)
    (i : node_id) : nat :=
  match fuel with
  | O => 1
  | S fuel' => S (sum_list (paths sk fuel' <$> kids sk i))
  end.

(** The skeleton of the graph is the same before and after a pass. *)
Definition same_graph `{Collaborators} (st st' : State) : Prop :=
  skeleton <$> nodes st' = skeleton <$> nodes st.

(** The fuel a list of ready tasks needs. *)
Definition ready_weight `{Collaborators} (sk : list node_class) (bound : nat)
    (ready : list (node_id * Z)) : nat :=
  sum_list ((λ task, paths sk bound task.1) <$> ready).

(** ** Schedules

    Both strategies take pending visits one at a time and differ only in
    which one they take next and where they put the visits of the
    children.  [step] is one such move of any schedule: a pending visit is
    taken, and if it gets through and returns normally the visits of its
    children, one level down, join the pending ones in some order. *)

Definition spawn (depth : Z) (children : list node_id)
  : list (node_id * Z) :=
  (λ child, (child, (depth + 1)%Z)) <$> children.

Inductive step `{Collaborators} (model : Judge) (measure : GEval_measure)
    (test_case : LLMTestCase)
  : State * list (node_id * Z) → State * list (node_id * Z) → Prop :=
| step_returned st st' self depth before after :
    visit model measure test_case self depth st = Returned st' →
    step model measure test_case
      (st, before ++ (self, depth) :: after) (st', before ++ after)
| step_proceeds st st' self depth before after children pending' :
    visit model measure test_case self depth st = Proceeds st' children →
    pending' ≡ₚ before ++ after ++ spawn depth children →
    step model measure test_case
      (st, before ++ (self, depth) :: after) (st', pending').

(** How often [i] occurs in a list of node references. *)
Definition occ (i : node_id) (l : list node_id) : nat :=
  length (filter (λ x, x = i) l).

(** How many visits of [i] the nodes of [E] set off when they ran. *)
Definition pushed `{Collaborators} (sk : list node_class) (E : list node_id)
    (i : node_id) : nat :=
  occ i (E ≫= kids sk).

(** [decrement_indegree] on the counter alone. *)
Definition dec_counter (c : option Z) : option Z :=
  match c with
  | None => Some 0%Z
  | Some k => Some (k - 1)%Z
  end.

(** The number of visits a counter still asks for: an unset counter
    behaves as a counter at 1. *)
Definition level (c : option Z) : Z :=
  match c with
  | None => 1%Z
  | Some k => k
  end.

(** After [v] visits a node whose counter started at [c0] has been let
    through the join check. *)
Definition let_through (c0 : option Z) (v : nat) : Prop :=
  (1 ≤ level c0 ≤ Z.of_nat v)%Z.

(** ** The accounting of a pass

    [accounted st0 root cfg]: the configuration [cfg] of a schedule that
    started in [st0] with one pending visit of [root] keeps the books: the
    graph is that of [st0]; no node was let through twice; only nodes of
    the graph up to [root] are involved; and every node [i] has had some
    number [v] of visits, which is what its counter shows, which together
    with its pending visits is what the nodes let through so far have set
    off (plus the first visit of the root), and which decides whether [i]
    was let through. *)
Record accounted `{Collaborators} (st0 : State) (root : node_id)
    (cfg : State * list (node_id * Z)) : Prop := {
  acc_graph : skeleton <$> nodes cfg.1 = skeleton <$> nodes st0;
  acc_nodup : NoDup (entered cfg.1).*1;
  acc_bound : ∀ i, i ∈ cfg.2.*1 ∨ i ∈ (entered cfg.1).*1 →
                   i ≤ root ∧ i < length (nodes st0);
  acc_count : ∀ i, i < length (nodes st0) →
    ∃ v : nat,
      counters cfg.1 !! i
      = Some (Nat.iter v dec_counter (default None (counters st0 !! i)))
      ∧ v + occ i cfg.2.*1
        = (if decide (i = root) then 1 else 0)
          + pushed (skeleton <$> nodes st0) (entered cfg.1).*1 i
      ∧ (i ∈ (entered cfg.1).*1
         ↔ let_through (default None (counters st0 !! i)) v);
}.

(** A task node built with the defaults: no children, no evaluation
    parameters. *)
Definition bare_task : list (@Node stub) :=
  @built stub (@new_TaskNode stub [] "summarize" "Summary" [] None).

(** The verdict nodes of [judgement_only] under a second binary judgement
    (node 3) as well: each has two parents. *)
Definition shared_verdicts : list (@Node stub) :=
  @built stub (@new_BinaryJudgementNode stub judgement_only "tone" [0; 1] None).

(** ** What a pass adds

    [tally c c' l st st']: from [st] to [st'] the metric's configuration
    is kept, at most [c] judge calls were appended to the calls made (at
    most [c'] with a native model), at most [l] blocks were appended to
    the log, the cost moved only with a native model and the reason only
    when reasons are asked for. *)
Definition tally `{Collaborators} (c c' l : nat) (st st' : State) : Prop :=
  settings (metric st') = settings (metric st)
  ∧ (∃ cs, calls st' = calls st ++ cs
           ∧ length cs ≤ c
           ∧ (using_native_model (metric st) = true → length cs ≤ c'))
  ∧ (∃ ls, _verbose_steps (metric st') = _verbose_steps (metric st) ++ ls
           ∧ length ls ≤ l)
  ∧ (using_native_model (metric st) = false →
     evaluation_cost (metric st') = evaluation_cost (metric st))
  ∧ (include_reason (metric st) = false →
     reason (metric st') = reason (metric st)).

(** [budget st st']: the nodes let through between [st] and [st'] account
    for what was added: two judge calls each at most (one with a native
    model) and one log block each at most. *)
Definition budget `{Collaborators} (st st' : State) : Prop :=
  length (nodes st') = length (nodes st)
  ∧ ∃ new, entered st' = entered st ++ new
           ∧ (∀ i, i ∈ new.*1 → i < length (nodes st))
           ∧ tally (2 * length new) (length new) (length new) st st'.

(** ** What a node writes

    [local self st st']: between the two states no node other than [self]
    was written to, and the score is the same. *)
Definition local `{Collaborators} (self : node_id) (st st' : State) : Prop :=
  (∀ i, i ≠ self → nodes st' !! i = nodes st !! i)
  ∧ score (metric st') = score (metric st).

(** [confined st st']: apart from their counters, only nodes let through
    between [st] and [st'] were written to, and what was written left the
    graph as it was. *)
Definition confined `{Collaborators} (st st' : State) : Prop :=
  skeleton <$> nodes st' = skeleton <$> nodes st
  ∧ ∃ new, entered st' = entered st ++ new
           ∧ ∀ i, i ∉ new.*1 →
                  body <$> nodes st' !! i = body <$> nodes st !! i.

(** The score a verdict node leaves when it resolves without a nested
    evaluator. *)
Definition tenth (s : Z) : Q := (inject_Z s / 10)%Q.

(** [scored st st']: the score is as it was, or it is the one of a verdict
    node let through between [st] and [st']: a tenth of its fixed score,
    or whatever its nested evaluator measured. *)
Definition scored `{Collaborators} (st st' : State) : Prop :=
  skeleton <$> nodes st' = skeleton <$> nodes st
  ∧ ∃ new, entered st' = entered st ++ new
           ∧ (score (metric st') = score (metric st)
              ∨ ∃ i v, i ∈ new.*1
                       ∧ (skeleton <$> nodes st) !! i = Some (Verdict v)
                       ∧ (is_Some (vn_g_eval v)
                          ∨ ∃ s, vn_score v = Some s
                                 ∧ score (metric st') = Some (tenth s))).

(** Checking [acyclic] on a concrete graph. *)
Definition acyclic_check `{Collaborators} (sk : list node_class) : bool :=
  forallb (λ ic : node_id * node_class,
             forallb (λ k, k <? ic.1) (class_children ic.2))
          (zip (seq 0 (length sk)) sk).

Section Branching.
#[local] Existing Instance stub.

(** Two branches of different depth under one task (node 7): the task 3
    over the judgement 2 with the verdict nodes 0 ([True], score 10) and 1
    ([False], score 0); and the judgement 6 with the verdict nodes 4
    ([True], score 0) and 5 ([False], score 10). *)
Definition two_branches : list (@Node stub) :=
  let h := built (new_VerdictNode [] (VBool true) (Some 10%Z) None) in
  let h := built (new_VerdictNode h (VBool false) (Some 0%Z) None) in
  let h := built (new_BinaryJudgementNode h "deep" [0; 1] None) in
  let h := built (new_TaskNode h "inner" "Inner" [2] (Some [INPUT])) in
  let h := built (new_VerdictNode h (VBool true) (Some 0%Z) None) in
  let h := built (new_VerdictNode h (VBool false) (Some 10%Z) None) in
  let h := built (new_BinaryJudgementNode h "shallow" [4; 5] None) in
  built (new_TaskNode h "outer" "Outer" [3; 6] (Some [INPUT])).

(** A judgement (node 2, over the verdict nodes 0 and 1) that is a child
    of the root task 4 directly and of the task 3 under it. *)
Definition diamond : list (@Node stub) :=
  let h := built (new_VerdictNode [] (VBool true) (Some 10%Z) None) in
  let h := built (new_VerdictNode h (VBool false) (Some 0%Z) None) in
  let h := built (new_BinaryJudgementNode h "shared" [0; 1] None) in
  let h := built (new_TaskNode h "inner" "Inner" [2] (Some [INPUT])) in
  built (new_TaskNode h "outer" "Outer" [3; 2] (Some [INPUT])).

End Branching.

(** ** Graphs as construction leaves them *)

(** The parents of [i] in the order they were constructed, each once for
    every time it lists [i] among its children. *)
Definition listings `{Collaborators} (sk : list node_class) (i : node_id)
  : list node_id :=
  seq 0 (length sk) ≫= λ j, replicate (occ i (kids sk j)) j.

(** The counter of a node that was registered [k] times. *)
Definition registered (k : nat) : option Z :=
  match k with
  | O => None
  | S _ => Some (Z.of_nat k)
  end.

(** The [_parents] list of a node that was registered by the parents [l]. *)
Definition collected (l : list node_id) : option (list node_id) :=
  match l with
  | [] => None
  | _ => Some l
  end.

(** The links a node keeps to the parents [l] that registered it: a
    verdict node remembers the last one, the others all of them. *)
Definition links_to `{Collaborators} (c : node_class) (l : list node_id)
  : Prop :=
  match c with
  | Verdict v => vn_parent v = last l
  | Task t => tn_parents t = collected l
  | Binary b => bj_parents b = collected l
  | NonBinary nb => nb_parents nb = collected l
  end.

(** A graph as the constructors leave it: children are older than their
    parents, and every node's counter and parent links say how it is
    listed. *)
Definition well_formed `{Collaborators} (h : heap) : Prop :=
  acyclic (skeleton <$> h)
  ∧ ∀ i n, h !! i = Some n →
      _indegree n = registered (length (listings (skeleton <$> h) i))
      ∧ links_to (body n) (listings (skeleton <$> h) i).

#[global] Instance links_to_dec `{Collaborators} (c : node_class)
    (l : list node_id) : Decision (links_to c l).
Proof. destruct c; simpl; apply _. Defined.

(** Checking [well_formed] on a concrete graph. *)
Definition well_formed_check `{Collaborators} (h : heap) : bool :=
  acyclic_check (skeleton <$> h)
  && forallb (λ p : node_id * Node,
                bool_decide
                  (_indegree p.2
                   = registered (length (listings (skeleton <$> h) p.1))
                   ∧ links_to (body p.2) (listings (skeleton <$> h) p.1)))
             (zip (seq 0 (length h)) h).

(** [parents_first sk E]: in the list [E] every node comes after all the
    nodes that list it as a child. *)
Definition parents_first `{Collaborators} (sk : list node_class)
    (E : list node_id) : Prop :=
  ∀ k i p, E !! k = Some i → i ∈ kids sk p →
           ∃ k', k' < k ∧ E !! k' = Some p.

(** * Properties *)

(** ** The join counter *)

Lemma decrement_indegree_None `{Collaborators} (n : Node) :
  _indegree n = None → _indegree (decrement_indegree n) = Some 0%Z.
Proof. intros Hn. unfold decrement_indegree. simpl. by rewrite Hn. Qed.

Lemma decrement_indegree_Some `{Collaborators} (n : Node) (k : Z) :
  _indegree n = Some k → _indegree (decrement_indegree n) = Some (k - 1)%Z.
Proof. intros Hn. unfold decrement_indegree. simpl. by rewrite Hn. Qed.

Lemma decrement_indegree_body `{Collaborators} (n : Node) :
  body (decrement_indegree n) = body n.
Proof. reflexivity. Qed.

(** A visit that finds the counter at [k] goes past the join check exactly
    when [k = 1]. *)
Lemma visit_counted `{Collaborators} model measure test_case
    (st : State) (self : node_id) (n : Node) (k : Z) (depth : Z) :
  nodes st !! self = Some n →
  _indegree n = Some k →
  visit model measure test_case self depth st =
    if bool_decide (k = 1%Z)
    then through (decrement_indegree n)
           (node_body model measure test_case self (decrement_indegree n) depth
              (record_entry self depth
                 (with_nodes (alter decrement_indegree self) st)))
    else Returned (with_nodes (alter decrement_indegree self) st).
Proof.
  intros Hself Hk. unfold visit. rewrite Hself.
  rewrite (decrement_indegree_Some n k Hk).
  destruct (decide (k = 1%Z)) as [->|Hne].
  - rewrite (bool_decide_eq_false_2 (_ ≠ _)) by (intros Hc; by apply Hc).
    rewrite (bool_decide_eq_true_2 (_ = _)) by done. reflexivity.
  - rewrite (bool_decide_eq_true_2 (_ ≠ _)) by (intros [= Heq]; lia).
    rewrite (bool_decide_eq_false_2 (_ = _)) by done. reflexivity.
Qed.

(** A visit that finds the counter unset goes past the join check. *)
Lemma visit_unset `{Collaborators} model measure test_case
    (st : State) (self : node_id) (n : Node) (depth : Z) :
  nodes st !! self = Some n →
  _indegree n = None →
  visit model measure test_case self depth st =
    through (decrement_indegree n)
      (node_body model measure test_case self (decrement_indegree n) depth
         (record_entry self depth
            (with_nodes (alter decrement_indegree self) st))).
Proof.
  intros Hself Hk. unfold visit. rewrite Hself.
  rewrite (decrement_indegree_None n Hk).
  rewrite bool_decide_eq_false_2 by (intros Hc; by apply Hc).
  reflexivity.
Qed.

(** C10. [decrement_indegree] turns an unset counter into 0 and otherwise
    subtracts one; so a node whose counter was never incremented goes past
    the join check on its first visit: the visit is recorded as entered and
    its outcome is that of the node's body, followed (under [_execute]) by
    the loop over the children. *)
Theorem unregistered_node_runs_on_first_visit `{Collaborators}
    model measure test_case (st : State) (self : node_id) (n : Node)
    (depth : Z) (fuel : nat) :
  nodes st !! self = Some n →
  _indegree n = None →
  let n1 := decrement_indegree n in
  let st1 := record_entry self depth
               (with_nodes (alter decrement_indegree self) st) in
  _indegree n1 = Some 0%Z
  ∧ (∀ (m : Node) (k : Z), _indegree m = Some k →
       _indegree (decrement_indegree m) = Some (k - 1)%Z)
  ∧ nodes st1 !! self = Some n1
  ∧ entered st1 = entered st ++ [(self, depth)]
  ∧ visit model measure test_case self depth st =
      through n1 (node_body model measure test_case self n1 depth st1)
  ∧ _execute model measure test_case (S fuel) self depth st =
      match node_body model measure test_case self n1 depth st1 with
      | Done st2 =>
          for_each (λ child, _execute model measure test_case fuel child
                               (depth + 1)) (children_of n1) st2
      | r => r
      end.
Proof.
  intros Hself Hnone n1 st1.
  split; [by apply decrement_indegree_None|].
  split; [intros m k; apply decrement_indegree_Some|].
  split.
  { subst st1 n1. simpl. rewrite list_lookup_alter_eq, Hself. done. }
  split; [done|].
  assert (Hv := visit_unset model measure test_case st self n depth Hself Hnone).
  split; [exact Hv|].
  simpl. rewrite Hv. fold n1 st1.
  destruct (node_body model measure test_case self n1 depth st1); done.
Qed.

Lemma unregistered_node_runs_on_first_visit_witness :
  ∃ st' : @State stub,
    _execute yes_judge no_measure stub_case 1 0 0
      (start lone_verdict (fresh_metric false false)) = Done st'
    ∧ entered st' = [(0, 0%Z)]
    ∧ length (_verbose_steps (metric st')) = 1.
Proof.
  pose proof (unregistered_node_runs_on_first_visit (H := stub)
    yes_judge no_measure stub_case
    (start lone_verdict (fresh_metric false false)) 0
    {| _indegree := None;
       body := Verdict {| vn_verdict := VBool true; vn_score := Some 10%Z;
                          vn_g_eval := None; vn_parent := None |} |}
    0%Z 0 eq_refl eq_refl) as (_ & _ & _ & _ & _ & Hrun).
  rewrite Hrun. vm_compute. eexists. split; [reflexivity|]. split; reflexivity.
Defined.

(** ** Verdict nodes: construction and scoring *)

Lemma new_VerdictNode_inv `{Collaborators} (h h' : heap) verdict score g_eval
    (self : node_id) :
  new_VerdictNode h verdict score g_eval = inr (h', self) →
  self = length h
  ∧ h' = h ++ [ {| _indegree := None;
                   body := Verdict {| vn_verdict := verdict;
                                      vn_score := score;
                                      vn_g_eval := g_eval;
                                      vn_parent := None |} |} ]
  ∧ (is_Some score ↔ g_eval = None)
  ∧ (∀ s, score = Some s → (0 ≤ s ≤ 10)%Z).
Proof.
  unfold new_VerdictNode. intros Hnew.
  destruct score as [s|], g_eval as [g|]; try discriminate.
  - destruct (0 <=? s)%Z eqn:H0; destruct (s <=? 10)%Z eqn:H10;
      simpl in Hnew; try discriminate.
    injection Hnew as <- <-. split_and!; try done.
    intros s' [= <-]. lia.
  - injection Hnew as <- <-. split_and!; try done.
Qed.

Lemma new_VerdictNode_succeeds `{Collaborators} (h : heap) verdict score g_eval :
  (is_Some score ↔ g_eval = None) →
  (∀ s, score = Some s → (0 ≤ s ≤ 10)%Z) →
  succeeds (new_VerdictNode h verdict score g_eval).
Proof.
  intros Hone Hrange. unfold succeeds, new_VerdictNode.
  destruct score as [s|], g_eval as [g|].
  - destruct Hone as [Hone _]. by specialize (Hone (ltac:(eauto))).
  - specialize (Hrange s eq_refl).
    replace (0 <=? s)%Z with true by (symmetry; apply Z.leb_le; lia).
    replace (s <=? 10)%Z with true by (symmetry; apply Z.leb_le; lia).
    simpl. eauto.
  - eauto.
  - destruct Hone as [_ Hone]. by destruct (Hone eq_refl).
Qed.

(** A schema-constrained invocation leaves score, reason and log alone. *)
Lemma generate_with_schema_metric `{Collaborators} model prompt sc
    (st st' : State) r :
  generate_with_schema model prompt sc st = (r, st') →
  nodes st' = nodes st
  ∧ score (metric st') = score (metric st)
  ∧ reason (metric st') = reason (metric st)
  ∧ _verbose_steps (metric st') = _verbose_steps (metric st)
  ∧ entered st' = entered st.
Proof.
  unfold generate_with_schema, call_generate_schema, call_generate.
  intros Hg.
  repeat (match type of Hg with
          | context [match ?x with _ => _ end] => destruct x
          | context [if ?x then _ else _] => destruct x
          end; simpl in Hg);
    injection Hg as <- <-; done.
Qed.

(** C6. [VerdictNode] raises at construction unless exactly one of [score]
    and [g_eval] is given and a given score lies in [0, 10]; [score=11]
    raises, [score=10] and [score=0] are accepted; and executing a node
    built with the fixed score [s] leaves [metric.score = s / 10], which is
    1 for 10 and 0 for 0. *)
Theorem VerdictNode_score_contract `{Collaborators} model measure test_case
    (h : heap) (verdict : py_verdict) (score_arg : option Z)
    (g_eval : option GEval) :
  let accepted :=
    (is_Some score_arg ↔ g_eval = None)
    ∧ (∀ s, score_arg = Some s → (0 ≤ s ≤ 10)%Z) in
  (raises (new_VerdictNode h verdict score_arg g_eval) ↔ ¬ accepted)
  ∧ (succeeds (new_VerdictNode h verdict score_arg g_eval) ↔ accepted)
  ∧ raises (new_VerdictNode h verdict (Some 11%Z) None)
  ∧ succeeds (new_VerdictNode h verdict (Some 10%Z) None)
  ∧ succeeds (new_VerdictNode h verdict (Some 0%Z) None)
  ∧ (∀ (s : Z) (h' : heap) (self : node_id) (m : Metric) (depth : Z)
       (fuel : nat),
       new_VerdictNode h verdict (Some s) None = inr (h', self) →
       ∃ st',
         last_state (_execute model measure test_case (S fuel) self depth
                       (start h' m)) = Some st'
         ∧ score (metric st') = Some (inject_Z s / 10)%Q)
  ∧ (inject_Z 10 / 10 == 1)%Q
  ∧ (inject_Z 0 / 10 == 0)%Q.
Proof.
  intros accepted.
  assert (Hsucc : succeeds (new_VerdictNode h verdict score_arg g_eval)
                  ↔ accepted).
  { split.
    - intros (h' & self & Hnew).
      apply new_VerdictNode_inv in Hnew as (_ & _ & ? & ?). by split.
    - intros [? ?]. by apply new_VerdictNode_succeeds. }
  split.
  { split.
    - intros [e He] Hacc. apply Hsucc in Hacc as (h' & self & Hnew).
      congruence.
    - intros Hnot.
      destruct (new_VerdictNode h verdict score_arg g_eval) as [e|[h' self]] eqn:E.
      + by exists e.
      + destruct Hnot. apply Hsucc. by exists h', self. }
  split; [exact Hsucc|].
  split; [by eexists|].
  split; [by eexists _, _|].
  split; [by eexists _, _|].
  split; [|split; reflexivity].
  intros s h' self m depth fuel Hnew.
  apply new_VerdictNode_inv in Hnew as (-> & -> & _ & _).
  set (n := {| _indegree := None; body := Verdict _ |}).
  assert (Hself : nodes (start (h ++ [n]) m) !! length h = Some n).
  { simpl. by apply list_lookup_middle. }
  destruct (unregistered_node_runs_on_first_visit model measure test_case
              _ _ _ depth fuel Hself eq_refl) as (_ & _ & Hn1 & _ & _ & ->).
  unfold node_body, VerdictNode_body, judgement_parent. simpl.
  unfold VerdictNode_resolve, append_own_log. rewrite Hn1. simpl.
  destruct (include_reason m) eqn:Hreason.
  - unfold _generate_reason.
    match goal with
    | |- context [generate_with_schema ?md ?p ?sc ?s] =>
        destruct (generate_with_schema md p sc s) as [[e|r] st3] eqn:Hcall
    end;
    apply generate_with_schema_metric in Hcall as (_ & Hscore & _);
    simpl; eexists; (split; [reflexivity|]); simpl; by rewrite Hscore.
  - simpl. eexists. split; [reflexivity|]. done.
Qed.

Lemma VerdictNode_score_contract_witness :
  ∃ st' : @State stub,
    last_state (_execute yes_judge no_measure stub_case 1 0 0
                  (start lone_verdict (fresh_metric true false))) = Some st'
    ∧ score (metric st') = Some (inject_Z 10 / 10)%Q.
Proof.
  pose proof (VerdictNode_score_contract (H := stub) yes_judge no_measure
    stub_case [] (VBool true) (Some 10%Z) None)
    as (_ & _ & _ & _ & _ & Hrun & _).
  exact (Hrun 10%Z lone_verdict 0 (fresh_metric true false) 0%Z 0 eq_refl).
Defined.

(** ** Registering children *)

Lemma register_children_length `{Collaborators} self children (h : heap) :
  length (register_children self children h) = length h.
Proof.
  revert h. induction children as [|c rest IH]; intros h; simpl; [done|].
  rewrite IH. apply length_alter.
Qed.

Lemma register_children_other `{Collaborators} self children (h : heap)
    (i : node_id) :
  i ∉ children → register_children self children h !! i = h !! i.
Proof.
  revert h. induction children as [|c rest IH]; intros h Hi; simpl; [done|].
  apply not_elem_of_cons in Hi as [Hne Hi].
  rewrite IH by done. by apply list_lookup_alter_ne.
Qed.

(** A child listed once is registered once. *)
Lemma register_children_once `{Collaborators} self children (h : heap)
    (child : node_id) (n : Node) :
  NoDup children → child ∈ children → h !! child = Some n →
  register_children self children h !! child
  = Some (increment_indegree (set_parent self n)).
Proof.
  revert h. induction children as [|c rest IH]; intros h Hnd Hin Hn; simpl.
  - by apply elem_of_nil in Hin.
  - apply NoDup_cons in Hnd as [Hc Hnd].
    apply elem_of_cons in Hin as [->|Hin].
    + rewrite register_children_other by done.
      by rewrite list_lookup_alter_eq, Hn.
    + apply IH; [done..|].
      rewrite list_lookup_alter_ne; [done|]. by intros ->.
Qed.

Lemma is_VerdictNode_Some `{Collaborators} (h : heap) (i : node_id) v :
  is_VerdictNode h i = Some v ↔
  ∃ n, h !! i = Some n ∧ body n = Verdict v.
Proof.
  unfold is_VerdictNode. split.
  - destruct (h !! i) as [[k []]|]; intros [= <-]; eauto.
  - intros (n & -> & Hb). destruct n as [k b]. simpl in Hb. by subst b.
Qed.

(** ** Binary judgement nodes: construction *)

Lemma new_BinaryJudgementNode_inv `{Collaborators} (h h' : heap) criteria
    children params (self : node_id) :
  new_BinaryJudgementNode h criteria children params = inr (h', self) ↔
  ∃ c1 c2 v1 v2 b,
    children = [c1; c2]
    ∧ is_VerdictNode h c1 = Some v1 ∧ is_VerdictNode h c2 = Some v2
    ∧ vn_verdict v1 = VBool b ∧ vn_verdict v2 = VBool (negb b)
    ∧ self = length h
    ∧ h' = register_children (length h) children
             (h ++ [ {| _indegree := None;
                        body := Binary {| bj_criteria := criteria;
                                          bj_children := children;
                                          bj_evaluation_params := params;
                                          bj_verdict := None;
                                          bj_parents := None |} |} ]).
Proof.
  unfold new_BinaryJudgementNode. split.
  - destruct children as [|c1 [|c2 [|c3 rest]]]; simpl; try discriminate.
    destruct (is_VerdictNode h c1) as [v1|] eqn:Hc1; [|discriminate].
    destruct (vn_verdict v1) as [b1|] eqn:Hv1; [|discriminate].
    destruct (is_VerdictNode h c2) as [v2|] eqn:Hc2; [|discriminate].
    destruct (vn_verdict v2) as [b2|] eqn:Hv2; [|discriminate].
    destruct b1, b2; vm_compute (count _ _ =? 1)%nat; simpl;
      try discriminate; intros [= <- <-];
      eexists c1, c2, v1, v2, _; split_and!; eauto.
  - intros (c1 & c2 & v1 & v2 & b & -> & Hc1 & Hc2 & Hv1 & Hv2 & -> & ->).
    simpl. rewrite Hc1, Hv1, Hc2, Hv2.
    destruct b; vm_compute (count _ _ =? 1)%nat; done.
Qed.

(** C4. [BinaryJudgementNode] raises at construction unless it has exactly
    two children, both verdict nodes with boolean labels, one [True] and
    one [False]: labels [True, True] raise, [True, False] are accepted.
    On success the node is the new object, and each child has the node as
    its [_parent] and its counter one higher than before. *)
Theorem BinaryJudgementNode_construction `{Collaborators} (h : heap)
    (criteria : string) (children : list node_id)
    (params : option (list LLMTestCaseParams)) :
  let new := new_BinaryJudgementNode h criteria children params in
  let well_formed :=
    ∃ c1 c2 v1 v2 b,
      children = [c1; c2]
      ∧ is_VerdictNode h c1 = Some v1 ∧ is_VerdictNode h c2 = Some v2
      ∧ vn_verdict v1 = VBool b ∧ vn_verdict v2 = VBool (negb b) in
  (raises new ↔ ¬ well_formed)
  ∧ (succeeds new ↔ well_formed)
  ∧ (∀ c1 c2 v1 v2,
       children = [c1; c2] →
       is_VerdictNode h c1 = Some v1 → is_VerdictNode h c2 = Some v2 →
       vn_verdict v1 = VBool true →
       (vn_verdict v2 = VBool true → raises new)
       ∧ (vn_verdict v2 = VBool false → succeeds new))
  ∧ (∀ h' self,
       new = inr (h', self) →
       self = length h
       ∧ (∃ b, h' !! self = Some {| _indegree := None; body := Binary b |}
               ∧ bj_children b = children)
       ∧ ∀ child, child ∈ children →
           ∃ n v n',
             h !! child = Some n ∧ body n = Verdict v
             ∧ h' !! child = Some n'
             ∧ _indegree n' = match _indegree n with
                              | None => Some 1%Z
                              | Some k => Some (k + 1)%Z
                              end
             ∧ body n' = Verdict {| vn_verdict := vn_verdict v;
                                    vn_score := vn_score v;
                                    vn_g_eval := vn_g_eval v;
                                    vn_parent := Some self |}).
Proof.
  intros new well_formed.
  assert (Hsucc : succeeds new ↔ well_formed).
  { split.
    - intros (h' & self & Hnew).
      apply new_BinaryJudgementNode_inv in Hnew
        as (c1 & c2 & v1 & v2 & b & ? & ? & ? & ? & ? & _).
      by exists c1, c2, v1, v2, b.
    - intros (c1 & c2 & v1 & v2 & b & ? & ? & ? & ? & ?).
      eexists _, _. apply new_BinaryJudgementNode_inv.
      exists c1, c2, v1, v2, b. split_and!; done. }
  assert (Hraise : raises new ↔ ¬ well_formed).
  { split.
    - intros [e He] Hwf. apply Hsucc in Hwf as (h' & self & Hnew). congruence.
    - intros Hnot. destruct new as [e|[h' self]] eqn:E; [by exists e|].
      destruct Hnot. apply Hsucc. by exists h', self. }
  split; [exact Hraise|]. split; [exact Hsucc|]. split.
  - intros c1 c2 v1 v2 -> Hc1 Hc2 Hv1. split; intros Hv2.
    + apply Hraise. intros (c1' & c2' & v1' & v2' & b & [= <- <-] & E1 & E2 & B1 & B2).
      rewrite Hc1 in E1. rewrite Hc2 in E2.
      injection E1 as <-. injection E2 as <-.
      rewrite Hv1 in B1. rewrite Hv2 in B2. by destruct b.
    + apply Hsucc. by exists c1, c2, v1, v2, true.
  - intros h' self Hnew.
    apply new_BinaryJudgementNode_inv in Hnew
      as (c1 & c2 & v1 & v2 & b & -> & Hc1 & Hc2 & Hv1 & Hv2 & -> & ->).
    apply is_VerdictNode_Some in Hc1 as (n1 & Hn1 & Hb1).
    apply is_VerdictNode_Some in Hc2 as (n2 & Hn2 & Hb2).
    assert (Hlt1 : c1 < length h) by (by eapply lookup_lt_Some).
    assert (Hlt2 : c2 < length h) by (by eapply lookup_lt_Some).
    assert (Hne : c1 ≠ c2).
    { intros ->. rewrite Hn1 in Hn2. injection Hn2 as ->.
      rewrite Hb1 in Hb2. injection Hb2 as ->.
      rewrite Hv1 in Hv2. by destruct b. }
    split; [done|]. split.
    + eexists. rewrite register_children_other.
      * split; [by apply list_lookup_middle|reflexivity].
      * intros Hin. apply elem_of_cons in Hin as [Heq|Hin]; [lia|].
        apply list_elem_of_singleton in Hin. lia.
    + intros child Hin.
      assert (Hnd : NoDup [c1; c2]).
      { apply NoDup_cons. split; [by intros ->%list_elem_of_singleton|].
        apply NoDup_singleton. }
      assert (∃ n v, h !! child = Some n ∧ body n = Verdict v) as (n & v & Hn & Hb).
      { apply elem_of_cons in Hin as [->|Hin]; [eauto|].
        apply list_elem_of_singleton in Hin as ->. eauto. }
      exists n, v. eexists. split; [done|]. split; [done|]. split.
      * apply register_children_once; [done..|].
        rewrite lookup_app_l; [done|]. by eapply lookup_lt_Some.
      * simpl. rewrite Hb. done.
Qed.

(** ** Non-binary judgement nodes: construction *)

Lemma check_string_verdicts_inr `{Collaborators} (h : heap) children
    (acc S : gset string) :
  check_string_verdicts h children acc = inr S ↔
  ∃ labels, labelled h children labels ∧ NoDup labels
            ∧ (∀ s, s ∈ labels → s ∉ acc)
            ∧ S = acc ∪ list_to_set labels.
Proof.
  unfold labelled. revert acc.
  induction children as [|c rest IH]; intros acc; simpl.
  - split.
    + intros [= <-]. exists []. split_and!; [constructor|constructor| |].
      * intros s Hs. by apply elem_of_nil in Hs.
      * set_solver.
    + intros (labels & Hl & _ & _ & ->). inversion Hl; subst.
      f_equal. set_solver.
  - split.
    + destruct (is_VerdictNode h c) as [v|] eqn:Hc; [|discriminate].
      destruct (vn_verdict v) as [b|s] eqn:Hv; [discriminate|].
      case_bool_decide as Hin; [discriminate|].
      intros (labels & Hl & Hnd & Hfresh & ->)%IH.
      exists (s :: labels). split_and!.
      * constructor; eauto.
      * apply NoDup_cons. split; [|done].
        intros Hs. apply (Hfresh s Hs). set_solver.
      * intros s' [-> | Hs']%elem_of_cons; [done|].
        specialize (Hfresh s' Hs'). set_solver.
      * set_solver.
    + intros (labels & Hl & Hnd & Hfresh & ->).
      inversion Hl as [|c' s rest' labels' (v & Hc & Hv) Hrest]; subst.
      rewrite Hc, Hv. apply NoDup_cons in Hnd as [Hs Hnd].
      rewrite bool_decide_eq_false_2 by (apply Hfresh; set_solver).
      apply IH. exists labels'. split_and!; [done..| |set_solver].
      intros s' Hs' Hacc.
      apply elem_of_union in Hacc as [Hacc | ->%elem_of_singleton]; [|done].
      apply (Hfresh s'); set_solver.
Qed.

Lemma labelled_functional `{Collaborators} (h : heap) children l1 l2 :
  labelled h children l1 → labelled h children l2 → l1 = l2.
Proof.
  unfold labelled. intros H1. revert l2.
  induction H1 as [|c s rest l1 (v & Hc & Hv) _ IH]; intros l2 H2;
    inversion H2 as [|? s' ? l2' (v' & Hc' & Hv') Hrest]; subst; [done|].
  rewrite Hc in Hc'. injection Hc' as <-.
  rewrite Hv in Hv'. injection Hv' as <-. f_equal. by apply IH.
Qed.

Lemma new_NonBinaryJudgementNode_inv `{Collaborators} (h h' : heap) criteria
    children params (self : node_id) :
  new_NonBinaryJudgementNode h criteria children params = inr (h', self) ↔
  children ≠ []
  ∧ ∃ labels, labelled h children labels ∧ NoDup labels
      ∧ self = length h
      ∧ h' = register_children (length h) children
               (h ++ [ {| _indegree := None;
                          body := NonBinary
                            {| nb_criteria := criteria;
                               nb_children := children;
                               nb_evaluation_params := params;
                               nb_verdict := None;
                               nb_parents := None;
                               nb_verdict_options :=
                                 elements (list_to_set labels : gset string)
                            |} |} ]).
Proof.
  unfold new_NonBinaryJudgementNode.
  destruct children as [|c rest] eqn:Hch.
  { split; [discriminate|]. by intros [? _]. }
  rewrite <- Hch.
  assert (Hne : children ≠ []) by (by rewrite Hch). clear Hch.
  destruct (check_string_verdicts h children ∅) as [e|S] eqn:Hcheck.
  - split; [discriminate|].
    intros (_ & labels & Hl & Hnd & _).
    assert (check_string_verdicts h children ∅ = inr (∅ ∪ list_to_set labels))
      as Hok; [|congruence].
    apply check_string_verdicts_inr. exists labels. split_and!; done.
  - apply check_string_verdicts_inr in Hcheck
      as (labels & Hl & Hnd & _ & ->).
    replace (∅ ∪ list_to_set labels) with (list_to_set labels : gset string)
      by set_solver.
    split.
    + intros [= <- <-]. split; [done|].
      exists labels. split_and!; done.
    + intros (_ & labels' & Hl' & _ & -> & ->).
      by rewrite (labelled_functional h children labels' labels).
Qed.

(** C5. [NonBinaryJudgementNode] raises at construction when it has no
    children, when a child is not a verdict node with a string label, and
    when two children carry the same label; otherwise it is built, and its
    cached [_verdict_options] hold exactly the children's labels, each
    once.  Labels [a, a] raise; labels [a, b, c] give the options a, b, c. *)
Theorem NonBinaryJudgementNode_construction `{Collaborators} (h : heap)
    (criteria : string) (children : list node_id)
    (params : option (list LLMTestCaseParams)) :
  let new := new_NonBinaryJudgementNode h criteria children params in
  (children = [] → raises new)
  ∧ ((∃ child, child ∈ children
        ∧ ∀ v s, ¬ (is_VerdictNode h child = Some v ∧ vn_verdict v = VStr s))
     → raises new)
  ∧ (∀ labels, labelled h children labels → ¬ NoDup labels → raises new)
  ∧ (succeeds new ↔
       children ≠ [] ∧ ∃ labels, labelled h children labels ∧ NoDup labels)
  ∧ (∀ h' self labels,
       new = inr (h', self) → labelled h children labels →
       ∃ nb, h' !! self = Some {| _indegree := None; body := NonBinary nb |}
             ∧ nb_children nb = children
             ∧ NoDup (nb_verdict_options nb)
             ∧ ∀ s, s ∈ nb_verdict_options nb ↔ s ∈ labels)
  ∧ (labelled h children ["a"; "a"] → raises new)
  ∧ (labelled h children ["a"; "b"; "c"] →
       ∃ h' self nb,
         new = inr (h', self)
         ∧ h' !! self = Some {| _indegree := None; body := NonBinary nb |}
         ∧ ∀ s, s ∈ nb_verdict_options nb ↔ s = "a" ∨ s = "b" ∨ s = "c").
Proof.
  intros new.
  assert (Hsucc : succeeds new ↔
            children ≠ [] ∧ ∃ labels, labelled h children labels ∧ NoDup labels).
  { split.
    - intros (h' & self & Hnew).
      apply new_NonBinaryJudgementNode_inv in Hnew
        as (? & labels & ? & ? & _). eauto.
    - intros (Hne & labels & Hl & Hnd). eexists _, _.
      apply new_NonBinaryJudgementNode_inv. split; [done|].
      exists labels. split_and!; done. }
  assert (Hraise : ¬ succeeds new → raises new).
  { intros Hnot. destruct new as [e|[h' self]] eqn:E; [by exists e|].
    destruct Hnot. by exists h', self. }
  assert (Hbuilt : ∀ h' self labels,
            new = inr (h', self) → labelled h children labels →
            ∃ nb, h' !! self = Some {| _indegree := None; body := NonBinary nb |}
                  ∧ nb_children nb = children
                  ∧ NoDup (nb_verdict_options nb)
                  ∧ ∀ s, s ∈ nb_verdict_options nb ↔ s ∈ labels).
  { intros h' self labels Hnew Hl.
    apply new_NonBinaryJudgementNode_inv in Hnew
      as (_ & labels' & Hl' & _ & -> & ->).
    rewrite (labelled_functional h children labels labels') by done.
    eexists. split.
    - rewrite register_children_other; [by apply list_lookup_middle|].
      intros Hin. unfold labelled in Hl'.
      apply list_elem_of_lookup in Hin as [i Hi].
      destruct (Forall2_lookup_l _ _ _ _ _ Hl' Hi)
        as (s & _ & v & (n & Hn & _)%is_VerdictNode_Some & _).
      apply lookup_lt_Some in Hn. lia.
    - simpl. split_and!; [done|apply NoDup_elements|].
      intros s. rewrite elem_of_elements. apply elem_of_list_to_set. }
  split_and!.
  - intros Hnil. apply Hraise. rewrite Hsucc. by intros [? _].
  - intros (child & Hin & Hbad). apply Hraise. rewrite Hsucc.
    intros (_ & labels & Hl & _). unfold labelled in Hl.
    apply list_elem_of_lookup in Hin as [i Hi].
    destruct (Forall2_lookup_l _ _ _ _ _ Hl Hi) as (s & _ & v & Hv).
    by apply (Hbad v s).
  - intros labels Hl Hdup. apply Hraise. rewrite Hsucc.
    intros (_ & labels' & Hl' & Hnd).
    by rewrite (labelled_functional h children labels labels') in Hdup.
  - exact Hsucc.
  - exact Hbuilt.
  - intros Hl. apply Hraise. rewrite Hsucc.
    intros (_ & labels' & Hl' & Hnd).
    rewrite <- (labelled_functional h children _ _ Hl Hl') in Hnd.
    apply NoDup_cons in Hnd as [Hnd _]. apply Hnd. by left.
  - intros Hl.
    assert (succeeds new) as (h' & self & Hnew).
    { apply Hsucc. split.
      - intros ->. inversion Hl.
      - exists ["a"; "b"; "c"]. split; [done|].
        apply (bool_decide_unpack _). by vm_compute. }
    destruct (Hbuilt h' self _ Hnew Hl) as (nb & Hnb & _ & _ & Hopt).
    exists h', self, nb. split_and!; [done..|].
    intros s. rewrite Hopt. set_solver.
Qed.

(** ** The verdict gate *)

Lemma judgement_parent_alter `{Collaborators} (f : Node → Node) (i : node_id)
    (h : heap) (v : VerdictNode) :
  (∀ n, body (f n) = body n) →
  judgement_parent (alter f i h) v = judgement_parent h v.
Proof.
  intros Hf. unfold judgement_parent. destruct (vn_parent v) as [p|]; [|done].
  rewrite list_lookup_alter. destruct (decide (i = p)) as [->|]; [|done].
  destruct (h !! p) as [n|]; simpl; [|done].
  specialize (Hf n). destruct (f n) as [k b], n as [k' b']. simpl in *.
  by subst b.
Qed.

(** Once through the gate a verdict node appends its own block, and
    nothing else, to the log, whatever happens afterwards. *)
Lemma VerdictNode_resolve_log `{Collaborators} model measure test_case
    (st : State) (self : node_id) (n : Node) (v : VerdictNode) (depth : Z) :
  nodes st !! self = Some n → body n = Verdict v →
  ∃ st' block,
    last_state (VerdictNode_resolve model measure test_case self v depth st)
      = Some st'
    ∧ construct_node_verbose_log n depth = inr block
    ∧ _verbose_steps (metric st') = _verbose_steps (metric st) ++ [block].
Proof.
  intros Hself Hbody. unfold VerdictNode_resolve, append_own_log.
  rewrite Hself. unfold construct_node_verbose_log. rewrite Hbody.
  destruct (vn_g_eval v) as [g|] eqn:Hg.
  - destruct (measure _ test_case) as [[s r] cost|e]; simpl.
    + destruct (include_reason _); eexists _, _; split_and!; try done.
    + eexists _, _; split_and!; done.
  - destruct (vn_score v) as [s|]; simpl.
    + destruct (include_reason (metric st)) eqn:Hreason.
      * unfold _generate_reason.
        match goal with
        | |- context [generate_with_schema ?md ?p ?sc ?s0] =>
            destruct (generate_with_schema md p sc s0) as [[e|r] st3] eqn:Hcall
        end;
        apply generate_with_schema_metric in Hcall as (_ & _ & _ & Hlog & _);
        eexists _, _; (split_and!; [reflexivity|reflexivity|]);
        simpl; by rewrite Hlog.
      * eexists _, _; split_and!; done.
    + eexists _, _; split_and!; done.
Qed.

(** C2. A verdict node under a judgement node whose resolved verdict
    differs from the node's label returns right after the join check: the
    metric (log, score, reason, cost) and the judge are untouched, only
    the counter moved.  When the labels agree, or the parent is not a
    judgement node, the node goes on: its block is appended to the log and
    the outcome is that of the scoring step.  Both strategies share this
    head. *)
Theorem verdict_gate `{Collaborators} model measure test_case
    (st : State) (self : node_id) (n : Node) (v : VerdictNode)
    (depth : Z) (fuel : nat) :
  nodes st !! self = Some n →
  body n = Verdict v →
  _indegree (decrement_indegree n) = Some 0%Z →
  let st1 := record_entry self depth
               (with_nodes (alter decrement_indegree self) st) in
  let run := _execute model measure test_case (S fuel) self depth st in
  let goes_on :=
    run = VerdictNode_resolve model measure test_case self v depth st1
    ∧ visit model measure test_case self depth st =
        through (decrement_indegree n)
          (VerdictNode_resolve model measure test_case self v depth st1)
    ∧ ∃ st' block,
        last_state run = Some st'
        ∧ construct_node_verbose_log (decrement_indegree n) depth = inr block
        ∧ _verbose_steps (metric st')
          = _verbose_steps (metric st) ++ [block] in
  (∀ parent_verdict label why,
     judgement_parent (nodes st) v = Some parent_verdict →
     resolved_verdict parent_verdict = inr (label, why) →
     (label ≠ vn_verdict v →
        run = Done st1
        ∧ _a_execute model measure test_case (S fuel) self depth st = Done st1
        ∧ metric st1 = metric st
        ∧ calls st1 = calls st)
     ∧ (label = vn_verdict v → goes_on))
  ∧ (judgement_parent (nodes st) v = None → goes_on).
Proof.
  intros Hself Hbody Hzero st1 run goes_on.
  assert (Hvisit : visit model measure test_case self depth st =
            through (decrement_indegree n)
              (VerdictNode_body model measure test_case self v depth st1)).
  { unfold visit. rewrite Hself, Hzero.
    rewrite bool_decide_eq_false_2 by (intros Hc; by apply Hc).
    unfold node_body. rewrite decrement_indegree_body, Hbody. done. }
  assert (Hparent : judgement_parent (nodes st1) v = judgement_parent (nodes st) v).
  { subst st1. simpl. by apply judgement_parent_alter. }
  assert (Hself1 : nodes st1 !! self = Some (decrement_indegree n)).
  { subst st1. simpl. by rewrite list_lookup_alter_eq, Hself. }
  assert (Hchildren : children_of (decrement_indegree n) = []).
  { unfold children_of. by rewrite decrement_indegree_body, Hbody. }
  assert (Hgo : VerdictNode_body model measure test_case self v depth st1
                = VerdictNode_resolve model measure test_case self v depth st1
                → goes_on).
  { intros Hb. subst goes_on run. rewrite Hb in Hvisit.
    assert (Hrun : _execute model measure test_case (S fuel) self depth st
                   = VerdictNode_resolve model measure test_case self v depth st1).
    { simpl. rewrite Hvisit.
      destruct (VerdictNode_resolve model measure test_case self v depth st1);
        simpl; rewrite ?Hchildren; done. }
    split; [exact Hrun|]. split; [exact Hvisit|]. rewrite Hrun.
    destruct (VerdictNode_resolve_log model measure test_case st1 self
                (decrement_indegree n) v depth Hself1)
      as (st' & block & ? & ? & ?); [by rewrite decrement_indegree_body|].
    by exists st', block. }
  split.
  - intros parent_verdict label why Hjp Hres. split.
    + intros Hdiff.
      assert (Hb : VerdictNode_body model measure test_case self v depth st1
                   = Done st1).
      { unfold VerdictNode_body. rewrite Hparent, Hjp, Hres.
        by rewrite bool_decide_eq_true_2. }
      rewrite Hb in Hvisit. subst run. split_and!; try done.
      * cbn [_execute]. rewrite Hvisit. cbn [through]. by rewrite Hchildren.
      * unfold _a_execute. cbn [event_loop]. rewrite Hvisit. cbn [through].
        rewrite Hchildren. by destruct fuel.
    + intros Hsame. apply Hgo.
      unfold VerdictNode_body. rewrite Hparent, Hjp, Hres.
      by rewrite bool_decide_eq_false_2 by (intros Hc; by apply Hc).
  - intros Hjp. apply Hgo. unfold VerdictNode_body. by rewrite Hparent, Hjp.
Qed.

Lemma verdict_gate_witness :
  _execute yes_judge no_measure stub_case 1 1 2 judged_true
  = Done (record_entry 1 2
            (with_nodes (alter decrement_indegree 1) judged_true))
  ∧ metric (record_entry 1 2
              (with_nodes (alter decrement_indegree 1) judged_true))
    = metric judged_true.
Proof.
  set (v := {| vn_verdict := VBool false; vn_score := Some 0%Z;
               vn_g_eval := None; vn_parent := Some 2 |} : @VerdictNode stub).
  destruct (verdict_gate (H := stub) yes_judge no_measure stub_case
              judged_true 1 {| _indegree := Some 1%Z; body := Verdict v |}
              v 2%Z 0 eq_refl eq_refl eq_refl) as [Hjudged _].
  edestruct Hjudged as [Hdiff _]; [vm_compute; reflexivity | reflexivity |].
  destruct Hdiff as (Hrun & _ & Hmetric & _); [discriminate|].
  split; [exact Hrun | exact Hmetric].
Defined.

(** ** Roots *)

(** C9. A judgement node that is nobody's child has [_parents = None] and
    an unset counter: visited as the root it goes past the join check and
    raises [TypeError] on the loop over [_parents], before any judge call
    or log entry.  A task node in the same position skips the loop: with
    its evaluation parameters configured and a judge that answers, it
    stores the output, logs its block and turns to its children. *)
Theorem judgement_root_raises_task_root_runs `{Collaborators}
    model measure test_case (st : State) (self : node_id) (n : Node)
    (depth : Z) (fuel : nat) :
  nodes st !! self = Some n →
  _indegree n = None →
  let st1 := record_entry self depth
               (with_nodes (alter decrement_indegree self) st) in
  let raises_at_once :=
    _execute model measure test_case (S fuel) self depth st
      = Raised not_iterable st1
    ∧ _a_execute model measure test_case (S fuel) self depth st
      = Raised not_iterable st1
    ∧ metric st1 = metric st ∧ calls st1 = calls st in
  (∀ b, body n = Binary b → bj_parents b = None → raises_at_once)
  ∧ (∀ nb, body n = NonBinary nb → nb_parents nb = None → raises_at_once)
  ∧ (∀ t params res cost,
       body n = Task t → tn_parents t = None →
       tn_evaluation_params t = Some params →
       let prompt :=
         TaskNodeTemplate_generate_task_output (tn_instructions t)
           (params_text test_case params) in
       generate model (calls st) prompt = Returns res cost →
       ∃ st2 block,
         visit model measure test_case self depth st
           = Proceeds st2 (tn_children t)
         ∧ _execute model measure test_case (S fuel) self depth st
           = for_each (λ child, _execute model measure test_case fuel child
                                  (depth + 1)) (tn_children t) st2
         ∧ nodes st2 = alter (set_output res) self (nodes st1)
         ∧ calls st2
           = calls st ++ [ {| jc_prompt := prompt; jc_schema := None |} ]
         ∧ construct_node_verbose_log
             (set_output res (decrement_indegree n)) depth = inr block
         ∧ _verbose_steps (metric st2)
           = _verbose_steps (metric st) ++ [block]).
Proof.
  intros Hself Hnone st1 raises_at_once.
  pose proof (visit_unset model measure test_case st self n depth Hself Hnone)
    as Hvisit. fold st1 in Hvisit.
  assert (Hraise : node_body model measure test_case self
                     (decrement_indegree n) depth st1
                   = Raised not_iterable st1 → raises_at_once).
  { intros Hb. rewrite Hb in Hvisit. subst raises_at_once.
    split_and!; try done.
    - cbn [_execute]. by rewrite Hvisit.
    - unfold _a_execute. cbn [event_loop]. by rewrite Hvisit. }
  split_and!.
  - intros b Hb Hp. apply Hraise. unfold node_body.
    rewrite decrement_indegree_body, Hb. unfold BinaryJudgementNode_body.
    by rewrite Hp.
  - intros nb Hb Hp. apply Hraise. unfold node_body.
    rewrite decrement_indegree_body, Hb. unfold NonBinaryJudgementNode_body.
    by rewrite Hp.
  - intros t params res cost Hb Hp Hparams prompt Hgen.
    assert (Hself1 : nodes st1 !! self = Some (decrement_indegree n)).
    { subst st1. simpl. by rewrite list_lookup_alter_eq, Hself. }
    assert (Hbody : ∃ st2,
              node_body model measure test_case self (decrement_indegree n)
                depth st1 = Done st2
              ∧ nodes st2 = alter (set_output res) self (nodes st1)
              ∧ calls st2
                = calls st ++ [ {| jc_prompt := prompt; jc_schema := None |} ]
              ∧ ∃ block,
                  construct_node_verbose_log
                    (set_output res (decrement_indegree n)) depth = inr block
                  ∧ _verbose_steps (metric st2)
                    = _verbose_steps (metric st) ++ [block]).
    { unfold node_body. rewrite decrement_indegree_body, Hb.
      unfold TaskNode_body. rewrite Hp, Hparams.
      change ("" +:+ params_text test_case params)
        with (params_text test_case params).
      fold prompt. unfold call_generate.
      replace (calls st1) with (calls st) by done. rewrite Hgen.
      unfold append_own_log.
      assert (Hlk : ∀ s, nodes s = nodes st1 →
                nodes (with_nodes (alter (set_output res) self) s) !! self
                = Some (set_output res (decrement_indegree n))).
      { intros s Hs. simpl. by rewrite Hs, list_lookup_alter_eq, Hself1. }
      assert (Hlog : ∃ block,
                construct_node_verbose_log
                  (set_output res (decrement_indegree n)) depth = inr block).
      { unfold construct_node_verbose_log, set_output. cbn [body].
        rewrite decrement_indegree_body, Hb. eauto. }
      destruct Hlog as [block Hlog].
      destruct (using_native_model _); rewrite Hlk by done; rewrite Hlog;
        eexists; (split; [reflexivity|]); split_and!; try done;
        exists block; split; done. }
    destruct Hbody as (st2 & Hb2 & Hnodes & Hcalls & block & Hblock & Hlog).
    rewrite Hb2 in Hvisit.
    assert (Hch : children_of (decrement_indegree n) = tn_children t).
    { unfold children_of. by rewrite decrement_indegree_body, Hb. }
    cbn [through] in Hvisit. rewrite Hch in Hvisit.
    exists st2, block. split_and!; try done.
    cbn [_execute]. by rewrite Hvisit.
Qed.

Lemma judgement_root_raises_task_root_runs_witness :
  _execute yes_judge no_measure stub_case 3 2 0
    (start judgement_only (fresh_metric false false))
  = Raised not_iterable
      (record_entry 2 0
         (with_nodes (alter decrement_indegree 2)
            (start judgement_only (fresh_metric false false)))).
Proof.
  set (b := {| bj_criteria := "length"; bj_children := [0; 1];
               bj_evaluation_params := None; bj_verdict := None;
               bj_parents := None |} : @BinaryJudgementNode stub).
  destruct (judgement_root_raises_task_root_runs (H := stub)
              yes_judge no_measure stub_case
              (start judgement_only (fresh_metric false false)) 2
              {| _indegree := None; body := Binary b |} 0%Z 2
              eq_refl eq_refl) as [Hbinary _].
  exact (proj1 (Hbinary b eq_refl eq_refl)).
Defined.

(** ** The schema fallback *)

(** C7. With a non-native judge that raises [TypeError] on a
    schema-constrained invocation, the engine asks once more: the same
    prompt, no schema, and nothing after that.  The text it gets is loaded
    and validated by hand; the [TypeError] is dropped, and the invocation
    yields the validated instance, or else raises what the loader or the
    validation (or the second invocation itself) raised.  The judgement
    nodes store the instance as their verdict and go on to log;
    [_generate_reason] returns its [reason]. *)
Theorem schema_fallback_is_single `{Collaborators} model
    (prompt : string) (sc : schema) (st : State) (msg : string) :
  using_native_model (metric st) = false →
  generate_schema model (calls st) prompt sc = Raises (TypeError msg) →
  let first := {| jc_prompt := prompt; jc_schema := Some sc |} in
  let retry := {| jc_prompt := prompt; jc_schema := None |} in
  let extracted :=
    match generate model (calls st ++ [first]) prompt with
    | Returns text _ =>
        match trimAndLoadJson text with
        | inl e => inl e
        | inr data => schema_init sc data
        end
    | Raises e => inl e
    end in
  ∃ st',
    generate_with_schema model prompt sc st = (extracted, st')
    ∧ calls st' = calls st ++ [first; retry]
    ∧ metric st' = metric st
    ∧ nodes st' = nodes st
    ∧ (∀ self depth,
         judge_and_log model self depth prompt sc st =
           match extracted with
           | inl e => Raised e st'
           | inr res =>
               append_own_log self depth
                 (with_nodes (alter (set_verdict res) self) st')
           end)
    ∧ (sc = Reason →
       prompt = VerdictNodeTemplate_generate_reason
                  (_verbose_steps (metric st)) (score (metric st))
                  (metric_name (metric st)) →
       _generate_reason model st =
         (match extracted with
          | inl e => inl e
          | inr res => inr (attr_reason res)
          end, st')).
Proof.
  intros Hgeneric Hrefused first retry extracted.
  exists (record_call retry (record_call first st)).
  assert (Hg : generate_with_schema model prompt sc st
               = (extracted, record_call retry (record_call first st))).
  { unfold generate_with_schema, call_generate_schema, call_generate.
    rewrite Hgeneric, Hrefused. subst extracted. cbn [calls record_call].
    fold first.
    destruct (generate model (calls st ++ [first]) prompt) as [text cost|e];
      [|done].
    destruct (trimAndLoadJson text) as [e|data]; done. }
  split_and!.
  - exact Hg.
  - simpl. by rewrite <- app_assoc.
  - done.
  - done.
  - intros self depth. unfold judge_and_log. rewrite Hg.
    by destruct extracted.
  - intros -> ->. unfold _generate_reason. rewrite Hg. by destruct extracted.
Qed.

Lemma schema_fallback_is_single_witness :
  ∃ st' : @State stub,
    generate_with_schema (schemaless_judge "true") "length|" BinaryJudgementVerdict
      (start judgement_only (fresh_metric false false))
    = (inr (MkVerdict (VBool true) "extracted"), st')
    ∧ calls st' =
        [ {| jc_prompt := "length|"; jc_schema := Some BinaryJudgementVerdict |};
          {| jc_prompt := "length|"; jc_schema := None |} ].
Proof.
  destruct (schema_fallback_is_single (H := stub) (schemaless_judge "true")
              "length|" BinaryJudgementVerdict
              (start judgement_only (fresh_metric false false))
              "unexpected keyword 'schema'" eq_refl eq_refl)
    as (st' & Hg & Hcalls & _).
  exists st'. split; [exact Hg | exact Hcalls].
Defined.

(** ** The context of a task node *)

Lemma string_app_assoc (a b c : string) : (a +:+ b) +:+ c = a +:+ (b +:+ c).
Proof.
  induction a as [|ch a IH]; [done|].
  change (String ch ((a +:+ b) +:+ c) = String ch (a +:+ (b +:+ c))).
  by rewrite IH.
Qed.

Lemma parents_text_pairs `{Collaborators} (h : heap) (parents : list node_id) :
  parents_text (nl +:+ nl) h parents = concat_all (map (parent_pair h) parents).
Proof.
  induction parents as [|p rest IH]; [done|].
  cbn [parents_text map concat_all foldr]. fold (concat_all (map (parent_pair h) rest)).
  rewrite IH. unfold parent_pair.
  destruct (h !! p) as [[k []]|]; done.
Qed.

Lemma params_text_entries `{Collaborators} (test_case : LLMTestCase)
    (params : list LLMTestCaseParams) :
  params_text test_case params = concat_all (map (param_entry test_case) params).
Proof.
  induction params as [|p rest IH]; [done|].
  cbn [params_text map concat_all foldr].
  fold (concat_all (map (param_entry test_case) rest)).
  rewrite IH. unfold param_entry, render.
  by rewrite !string_app_assoc.
Qed.

Lemma parent_pair_alter `{Collaborators} (f : Node → Node) (i : node_id)
    (h : heap) (parent : node_id) :
  (∀ n, body (f n) = body n) →
  parent_pair (alter f i h) parent = parent_pair h parent.
Proof.
  intros Hf. unfold parent_pair. rewrite list_lookup_alter.
  destruct (decide (i = parent)) as [->|]; [|done].
  destruct (h !! parent) as [n|]; simpl; [|done].
  specialize (Hf n). destruct (f n) as [k b], n as [k' b']. simpl in *.
  by subst b.
Qed.



(** ** Frame: what the body of a node leaves alone *)

Lemma fmap_alter_same {A B} (g : A → B) (f : A → A) (i : nat) (l : list A) :
  (∀ x, g (f x) = g x) → g <$> alter f i l = g <$> l.
Proof.
  intros Hgf. apply list_eq. intros j.
  rewrite !list_lookup_fmap, list_lookup_alter.
  destruct (decide (i = j)) as [->|]; [|done].
  destruct (l !! j); simpl; [|done]. by rewrite Hgf.
Qed.

Lemma same_frame_refl `{Collaborators} (st : State) : same_frame st st.
Proof. by unfold same_frame. Qed.

Lemma same_frame_trans `{Collaborators} (st1 st2 st3 : State) :
  same_frame st1 st2 → same_frame st2 st3 → same_frame st1 st3.
Proof.
  unfold same_frame. intros (-> & -> & -> & ->) (-> & -> & -> & ->). done.
Qed.

Lemma same_frame_with_metric `{Collaborators} (f : Metric → Metric) (st : State) :
  settings (f (metric st)) = settings (metric st) →
  same_frame st (with_metric f st).
Proof. intros Hf. unfold same_frame. by split_and!. Qed.

Lemma same_frame_record_call `{Collaborators} (c : JudgeCall) (st : State) :
  same_frame st (record_call c st).
Proof. by unfold same_frame. Qed.

Lemma same_frame_alter `{Collaborators} (f : Node → Node) (i : node_id)
    (st : State) :
  (∀ n, skeleton (f n) = skeleton n) →
  (∀ n, _indegree (f n) = _indegree n) →
  same_frame st (with_nodes (alter f i) st).
Proof.
  intros Hs Hc. unfold same_frame, counters. simpl.
  rewrite !fmap_alter_same by done. done.
Qed.

Lemma skeleton_set_output `{Collaborators} res (n : Node) :
  skeleton (set_output res n) = skeleton n.
Proof. unfold skeleton, set_output. simpl. by destruct (body n). Qed.

Lemma skeleton_set_verdict `{Collaborators} res (n : Node) :
  skeleton (set_verdict res n) = skeleton n.
Proof. unfold skeleton, set_verdict. simpl. by destruct (body n). Qed.

Lemma generate_with_schema_frame `{Collaborators} model prompt sc
    (st st' : State) r :
  generate_with_schema model prompt sc st = (r, st') → same_frame st st'.
Proof.
  unfold generate_with_schema, call_generate_schema, call_generate.
  intros Hg.
  repeat (match type of Hg with
          | context [match ?x with _ => _ end] => destruct x
          | context [if ?x then _ else _] => destruct x
          end; simpl in Hg);
    injection Hg as <- <-; done.
Qed.

Lemma append_own_log_frame `{Collaborators} self depth (st st' : State) :
  last_state (append_own_log self depth st) = Some st' → same_frame st st'.
Proof.
  unfold append_own_log. destruct (nodes st !! self) as [n|]; [|done].
  destruct (construct_node_verbose_log n depth); intros [= <-];
    [apply same_frame_refl|by apply same_frame_with_metric].
Qed.

Lemma TaskNode_body_frame `{Collaborators} model test_case self t depth
    (st st' : State) :
  last_state (TaskNode_body model test_case self t depth st) = Some st' →
  same_frame st st'.
Proof.
  unfold TaskNode_body, call_generate.
  destruct (tn_evaluation_params t) as [params|];
    [|intros [= <-]; apply same_frame_refl].
  destruct (generate model _ _) as [res cost|e];
    [|intros [= <-]; apply same_frame_record_call].
  intros Hlog%append_own_log_frame.
  eapply same_frame_trans; [|exact Hlog].
  eapply same_frame_trans;
    [|apply same_frame_alter; [apply skeleton_set_output|done]].
  destruct (using_native_model _).
  - eapply same_frame_trans; [apply same_frame_record_call|].
    by apply same_frame_with_metric.
  - apply same_frame_record_call.
Qed.

Lemma judge_and_log_frame `{Collaborators} model self depth prompt sc
    (st st' : State) :
  last_state (judge_and_log model self depth prompt sc st) = Some st' →
  same_frame st st'.
Proof.
  unfold judge_and_log.
  destruct (generate_with_schema model prompt sc st) as [[e|res] st1] eqn:Hg;
    apply generate_with_schema_frame in Hg.
  - by intros [= <-].
  - intros Hlog%append_own_log_frame.
    eapply same_frame_trans; [exact Hg|].
    eapply same_frame_trans; [|exact Hlog].
    apply same_frame_alter; [apply skeleton_set_verdict|done].
Qed.

Lemma VerdictNode_resolve_frame `{Collaborators} model measure test_case
    self v depth (st st' : State) :
  last_state (VerdictNode_resolve model measure test_case self v depth st)
    = Some st' →
  same_frame st st'.
Proof.
  unfold VerdictNode_resolve.
  destruct (append_own_log self depth st) as [st1|e st1|] eqn:Hlog;
    [|intros [= <-]; apply (append_own_log_frame self depth); by rewrite Hlog
     |done].
  assert (Hst1 : same_frame st st1)
    by (apply (append_own_log_frame self depth); by rewrite Hlog).
  intros Hrest. eapply same_frame_trans; [exact Hst1|]. clear Hlog Hst1.
  destruct (vn_g_eval v) as [g|].
  - destruct (measure _ test_case) as [[s r] cost|e]; simpl in Hrest.
    + destruct (include_reason _) eqn:Hr; injection Hrest as <-.
      * eapply same_frame_trans; by apply same_frame_with_metric.
      * by apply same_frame_with_metric.
    + injection Hrest as <-. apply same_frame_refl.
  - destruct (vn_score v) as [s|]; simpl in Hrest;
      [|injection Hrest as <-; apply same_frame_refl].
    destruct (include_reason (metric st1)) eqn:Hr.
    + unfold _generate_reason in Hrest.
      match type of Hrest with
      | context [generate_with_schema ?md ?p ?sc ?s0] =>
          destruct (generate_with_schema md p sc s0) as [[e|r] st3] eqn:Hcall
      end; apply generate_with_schema_frame in Hcall;
        simpl in Hrest; injection Hrest as <-.
      * eapply same_frame_trans; [|exact Hcall].
        by apply same_frame_with_metric.
      * eapply same_frame_trans; [|by apply same_frame_with_metric].
        eapply same_frame_trans; [|exact Hcall].
        by apply same_frame_with_metric.
    + injection Hrest as <-. by apply same_frame_with_metric.
Qed.

Lemma node_body_frame `{Collaborators} model measure test_case self n depth
    (st st' : State) :
  last_state (node_body model measure test_case self n depth st) = Some st' →
  same_frame st st'.
Proof.
  unfold node_body. destruct (body n) as [v|t|b|nb].
  - unfold VerdictNode_body.
    destruct (judgement_parent (nodes st) v) as [pv|];
      [|apply VerdictNode_resolve_frame].
    destruct (resolved_verdict pv) as [e|[l why]];
      [intros [= <-]; apply same_frame_refl|].
    case_bool_decide; [intros [= <-]; apply same_frame_refl|].
    apply VerdictNode_resolve_frame.
  - apply TaskNode_body_frame.
  - unfold BinaryJudgementNode_body.
    destruct (bj_parents b); [apply judge_and_log_frame|].
    intros [= <-]. apply same_frame_refl.
  - unfold NonBinaryJudgementNode_body.
    destruct (nb_parents nb); [apply judge_and_log_frame|].
    intros [= <-]. apply same_frame_refl.
Qed.

(** ** One visit *)

(** What a visit does to the bookkeeping: the node's counter is
    decremented, and the visit is recorded as entered exactly when the
    counter arrived at zero. *)
Lemma visit_effect `{Collaborators} model measure test_case self depth
    (st st' : State) :
  visited (visit model measure test_case self depth st) = Some st' →
  ∃ n, nodes st !! self = Some n
       ∧ skeleton <$> nodes st' = skeleton <$> nodes st
       ∧ counters st' = <[self := _indegree (decrement_indegree n)]> (counters st)
       ∧ settings (metric st') = settings (metric st)
       ∧ entered st' = entered st ++
           (if bool_decide (_indegree (decrement_indegree n) = Some 0%Z)
            then [(self, depth)] else []).
Proof.
  unfold visit. destruct (nodes st !! self) as [n|] eqn:Hself; [|done].
  intros Hv. exists n. split; [done|].
  set (st1 := with_nodes (alter decrement_indegree self) st) in *.
  assert (Hst1 : skeleton <$> nodes st1 = skeleton <$> nodes st
                 ∧ counters st1
                   = <[self := _indegree (decrement_indegree n)]> (counters st)).
  { subst st1. unfold counters. simpl. split.
    - by apply fmap_alter_same.
    - apply list_eq. intros j.
      rewrite list_lookup_fmap, list_lookup_alter.
      destruct (decide (self = j)) as [->|Hne].
      + rewrite Hself. simpl. symmetry. apply list_lookup_insert_eq.
        rewrite length_fmap. by eapply lookup_lt_Some.
      + rewrite list_lookup_insert_ne by done. by rewrite list_lookup_fmap. }
  destruct Hst1 as [Hsk Hcnt].
  case_bool_decide as Hzero.
  - injection Hv as <-. rewrite bool_decide_eq_false_2 by done.
    rewrite app_nil_r. done.
  - assert (Hz : _indegree (decrement_indegree n) = Some 0%Z).
    { destruct (decide (_indegree (decrement_indegree n) = Some 0%Z)); [done|].
      by destruct Hzero. }
    rewrite bool_decide_eq_true_2 by done.
    destruct (node_body model measure test_case self (decrement_indegree n)
                depth (record_entry self depth st1)) as [st2|e st2|] eqn:Hb;
      simpl in Hv; [| |done]; injection Hv as <-;
      (assert (Hf : same_frame (record_entry self depth st1) st2)
         by (eapply node_body_frame; by rewrite Hb));
      destruct Hf as (Hsk2 & Hcnt2 & Hent2 & Hset2);
      rewrite Hsk2, Hcnt2, Hent2, Hset2; done.
Qed.

Lemma visit_nodes_length `{Collaborators} model measure test_case self depth
    (st st' : State) :
  visited (visit model measure test_case self depth st) = Some st' →
  length (nodes st') = length (nodes st).
Proof.
  intros (n & _ & Hsk & _)%visit_effect.
  apply (f_equal length) in Hsk. by rewrite !length_fmap in Hsk.
Qed.

(** ** At most once *)

Lemma entries_nil (i : node_id) : entries i [] = 0.
Proof. done. Qed.

Lemma entries_app (i : node_id) (l1 l2 : list (node_id * Z)) :
  entries i (l1 ++ l2) = entries i l1 + entries i l2.
Proof. unfold entries. by rewrite filter_app, length_app. Qed.

Lemma entries_singleton (i j : node_id) (d : Z) :
  entries i [(j, d)] = if decide (j = i) then 1 else 0.
Proof.
  unfold entries. rewrite filter_cons, filter_nil. simpl.
  destruct (decide (j = i)); done.
Qed.

Lemma once_refl `{Collaborators} (st : State) : once st st.
Proof.
  exists []. split; [by rewrite app_nil_r|]. intros i.
  rewrite entries_nil. split_and!; try done; lia.
Qed.

Lemma once_trans `{Collaborators} (st1 st2 st3 : State) :
  once st1 st2 → once st2 st3 → once st1 st3.
Proof.
  intros (new1 & E1 & H1) (new2 & E2 & H2).
  exists (new1 ++ new2). split; [by rewrite E2, E1, app_assoc|].
  intros i. rewrite entries_app.
  destruct (H1 i) as (Hle1 & Hz1 & Hs1 & Hk1).
  destruct (H2 i) as (Hle2 & Hz2 & Hs2 & Hk2).
  assert (entries i new1 = 1 → entries i new2 = 0) by (intros; auto).
  split_and!.
  - lia.
  - intros Hsp. specialize (Hz1 Hsp). specialize (Hz2 (Hk1 Hsp)). lia.
  - intros Hone.
    destruct (decide (entries i new1 = 1)) as [E|E]; [auto|].
    apply Hs2. lia.
  - auto.
Qed.

Lemma visit_once `{Collaborators} model measure test_case self depth
    (st st' : State) :
  visited (visit model measure test_case self depth st) = Some st' →
  once st st'.
Proof.
  intros (n & Hself & _ & Hcnt & _ & Hent)%visit_effect.
  eexists. split; [exact Hent|].
  assert (Hlt : self < length (counters st)).
  { unfold counters. rewrite length_fmap. by eapply lookup_lt_Some. }
  assert (Hc0 : counters st !! self = Some (_indegree n)).
  { unfold counters. by rewrite list_lookup_fmap, Hself. }
  assert (Hother : ∀ i, i ≠ self → spent st i → spent st' i).
  { intros i Hne (k & Hk & Hle). exists k. rewrite Hcnt.
    by rewrite list_lookup_insert_ne. }
  assert (Hself' : counters st' !! self
                   = Some (_indegree (decrement_indegree n))).
  { rewrite Hcnt. by apply list_lookup_insert_eq. }
  intros i. destruct (decide (i = self)) as [->|Hne].
  - case_bool_decide as Hz.
    + rewrite entries_singleton, decide_True by done. split_and!.
      * lia.
      * intros (k & Hk & Hle). rewrite Hc0 in Hk. injection Hk as Hk.
        rewrite (decrement_indegree_Some n k Hk) in Hz.
        injection Hz as Hz. lia.
      * intros _. exists 0%Z. by rewrite Hself', Hz.
      * intros _. exists 0%Z. by rewrite Hself', Hz.
    + rewrite entries_nil. split_and!; [lia|done|done|].
      intros (k & Hk & Hle). rewrite Hc0 in Hk. injection Hk as Hk.
      exists (k - 1)%Z. rewrite Hself', (decrement_indegree_Some n k Hk).
      split; [done|lia].
  - assert (Hzero : entries i (if bool_decide
                       (_indegree (decrement_indegree n) = Some 0%Z)
                     then [(self, depth)] else []) = 0).
    { case_bool_decide; [|done].
      rewrite entries_singleton. by rewrite decide_False. }
    rewrite Hzero. split_and!; [lia|done|done|by apply Hother].
Qed.

(** ** Passes as sequences of visits

    Whatever relation between states is reflexive, transitive and
    established by every visit holds between the start of a pass and the
    state the pass leaves, under both strategies and also when the pass
    raises. *)
Section Passes.
Context `{Collaborators}.
Variable model : Judge.
Variable measure : GEval_measure.
Variable test_case : LLMTestCase.
Variable R : State → State → Prop.
Hypothesis R_refl : ∀ st, R st st.
Hypothesis R_trans : ∀ st1 st2 st3, R st1 st2 → R st2 st3 → R st1 st3.
Hypothesis R_visit : ∀ self depth st st',
  visited (visit model measure test_case self depth st) = Some st' → R st st'.

Lemma for_each_preserves (f : node_id → State → result)
    (children : list node_id) (st st' : State) :
  (∀ child s s', last_state (f child s) = Some s' → R s s') →
  last_state (for_each f children st) = Some st' →
  R st st'.
Proof.
  intros Hf. revert st. induction children as [|c rest IH]; intros st; simpl.
  - intros [= <-]. apply R_refl.
  - destruct (f c st) as [st1|e st1|] eqn:Hc.
    + intros Hrest. eapply R_trans; [|by apply IH].
      apply (Hf c). by rewrite Hc.
    + intros [= <-]. apply (Hf c). by rewrite Hc.
    + done.
Qed.

Lemma _execute_preserves fuel self depth (st st' : State) :
  last_state (_execute model measure test_case fuel self depth st) = Some st' →
  R st st'.
Proof.
  revert self depth st st'.
  induction fuel as [|fuel IH]; intros self depth st st'; [done|].
  cbn [_execute].
  destruct (visit model measure test_case self depth st)
    as [st1|st1 children|e st1|] eqn:Hv.
  - intros [= <-]. eapply R_visit. by rewrite Hv.
  - intros Hrest. eapply R_trans; [eapply R_visit; by rewrite Hv|].
    eapply for_each_preserves; [|exact Hrest].
    intros child s s'. apply IH.
  - intros [= <-]. eapply R_visit. by rewrite Hv.
  - done.
Qed.

Lemma event_loop_preserves fuel ready (st st' : State) :
  last_state (event_loop model measure test_case fuel ready st) = Some st' →
  R st st'.
Proof.
  revert ready st st'.
  induction fuel as [|fuel IH]; intros ready st st'.
  - destruct ready as [|[self depth] rest]; [|done].
    intros [= <-]. apply R_refl.
  - destruct ready as [|[self depth] rest].
    { intros [= <-]. apply R_refl. }
    cbn [event_loop].
    destruct (visit model measure test_case self depth st)
      as [st1|st1 children|e st1|] eqn:Hv.
    + intros Hrest. eapply R_trans; [eapply R_visit; by rewrite Hv|].
      by eapply IH.
    + intros Hrest. eapply R_trans; [eapply R_visit; by rewrite Hv|].
      by eapply IH.
    + intros [= <-]. eapply R_visit. by rewrite Hv.
    + done.
Qed.

End Passes.

(** ** Passes end *)

Lemma children_of_skeleton `{Collaborators} (n : Node) :
  children_of n = class_children (skeleton n).
Proof. unfold children_of, skeleton. by destruct (body n). Qed.

Lemma kids_lookup `{Collaborators} (h : heap) (i : node_id) (n : Node) :
  h !! i = Some n → kids (skeleton <$> h) i = children_of n.
Proof.
  intros Hn. unfold kids. rewrite list_lookup_fmap, Hn. simpl.
  by rewrite children_of_skeleton.
Qed.

Lemma visit_proceeds_children `{Collaborators} model measure test_case
    self depth (st st' : State) children :
  visit model measure test_case self depth st = Proceeds st' children →
  children = kids (skeleton <$> nodes st) self.
Proof.
  unfold visit. destruct (nodes st !! self) as [n|] eqn:Hself; [|done].
  rewrite (kids_lookup _ _ _ Hself).
  case_bool_decide; [done|].
  destruct (node_body _ _ _ _ _ _ _); intros [= <- <-].
  by rewrite !children_of_skeleton.
Qed.

Lemma append_own_log_not_stuck `{Collaborators} self depth (st : State) :
  is_Some (nodes st !! self) → append_own_log self depth st ≠ Stuck.
Proof.
  intros [n Hn]. unfold append_own_log. rewrite Hn.
  by destruct (construct_node_verbose_log n depth).
Qed.

Lemma lookup_alter_is_Some {A} (f : A → A) (i j : nat) (l : list A) :
  is_Some (l !! j) → is_Some (alter f i l !! j).
Proof.
  intros [x Hx]. rewrite list_lookup_alter.
  destruct (decide (i = j)) as [->|]; rewrite ?Hx; eauto.
Qed.

Lemma node_body_not_stuck `{Collaborators} model measure test_case self n
    depth (st : State) :
  is_Some (nodes st !! self) →
  node_body model measure test_case self n depth st ≠ Stuck.
Proof.
  intros Hself. unfold node_body. destruct (body n) as [v|t|b|nb].
  - assert (Hres : VerdictNode_resolve model measure test_case self v depth st
                   ≠ Stuck).
    { unfold VerdictNode_resolve.
      pose proof (append_own_log_not_stuck self depth st Hself) as Hlog.
      destruct (append_own_log self depth st) as [st1|e st1|]; [|done|done].
      destruct (vn_g_eval v) as [g|].
      - destruct (measure _ test_case) as [[s r] cost|e]; [|done].
        by destruct (include_reason _).
      - destruct (vn_score v) as [s|]; [|done].
        destruct (include_reason _); [|done].
        by destruct (_generate_reason _ _) as [[e|r] st3]. }
    unfold VerdictNode_body.
    destruct (judgement_parent (nodes st) v) as [pv|]; [|done].
    destruct (resolved_verdict pv) as [e|[l why]]; [done|].
    by case_bool_decide.
  - unfold TaskNode_body, call_generate.
    destruct (tn_evaluation_params t) as [params|]; [|done].
    destruct (generate model _ _) as [res cost|e]; [|done].
    apply append_own_log_not_stuck. simpl.
    destruct (using_native_model _); simpl; by apply lookup_alter_is_Some.
  - unfold BinaryJudgementNode_body. destruct (bj_parents b); [|done].
    unfold judge_and_log.
    destruct (generate_with_schema _ _ _ _) as [[e|res] st1] eqn:Hg; [done|].
    apply generate_with_schema_metric in Hg as (Hn & _).
    apply append_own_log_not_stuck. simpl. rewrite Hn.
    by apply lookup_alter_is_Some.
  - unfold NonBinaryJudgementNode_body. destruct (nb_parents nb); [|done].
    unfold judge_and_log.
    destruct (generate_with_schema _ _ _ _) as [[e|res] st1] eqn:Hg; [done|].
    apply generate_with_schema_metric in Hg as (Hn & _).
    apply append_own_log_not_stuck. simpl. rewrite Hn.
    by apply lookup_alter_is_Some.
Qed.

Lemma visit_not_dangling `{Collaborators} model measure test_case self depth
    (st : State) :
  self < length (nodes st) →
  visit model measure test_case self depth st ≠ Dangling.
Proof.
  intros [n Hn]%lookup_lt_is_Some. unfold visit. rewrite Hn.
  case_bool_decide; [done|].
  pose proof (node_body_not_stuck model measure test_case self
                (decrement_indegree n) depth
                (record_entry self depth
                   (with_nodes (alter decrement_indegree self) st))) as Hb.
  destruct (node_body _ _ _ _ _ _ _); [done|done|].
  destruct Hb; [|done]. simpl. apply lookup_alter_is_Some. eauto.
Qed.

Lemma visit_same_graph `{Collaborators} model measure test_case self depth
    (st st' : State) :
  visited (visit model measure test_case self depth st) = Some st' →
  same_graph st st'.
Proof. by intros (n & _ & Hsk & _)%visit_effect. Qed.

Lemma same_graph_length `{Collaborators} (st st' : State) :
  same_graph st st' → length (nodes st') = length (nodes st).
Proof.
  intros Hsk. apply (f_equal length) in Hsk. by rewrite !length_fmap in Hsk.
Qed.

Lemma _execute_same_graph `{Collaborators} model measure test_case fuel self
    depth (st st' : State) :
  last_state (_execute model measure test_case fuel self depth st) = Some st' →
  same_graph st st'.
Proof.
  apply _execute_preserves; unfold same_graph.
  - done.
  - intros st1 st2 st3 H12 H23. by rewrite H23.
  - apply visit_same_graph.
Qed.

Lemma for_each_total `{Collaborators} (f : node_id → State → result)
    (P : State → Prop) (children : list node_id) (st : State) :
  (∀ child s, child ∈ children → P s → f child s ≠ Stuck) →
  (∀ child s s', f child s = Done s' → P s → P s') →
  P st →
  for_each f children st ≠ Stuck.
Proof.
  intros Htotal Hkeep. revert st.
  induction children as [|c rest IH]; intros st HP; simpl; [done|].
  destruct (f c st) as [st1|e st1|] eqn:Hc; [|done|].
  - apply IH; [|by eapply Hkeep].
    intros child s Hin. apply Htotal. by right.
  - exfalso. apply (Htotal c st); [by left|done|done].
Qed.

Lemma _execute_total `{Collaborators} model measure test_case fuel self depth
    (st : State) :
  acyclic (skeleton <$> nodes st) →
  self < length (nodes st) →
  self < fuel →
  _execute model measure test_case fuel self depth st ≠ Stuck.
Proof.
  revert self depth st.
  induction fuel as [|fuel IH]; intros self depth st Hacyc Hlen Hfuel; [lia|].
  cbn [_execute].
  pose proof (visit_not_dangling model measure test_case self depth st Hlen)
    as Hnd.
  destruct (visit model measure test_case self depth st)
    as [st1|st1 children|e st1|] eqn:Hv; [done| |done|done].
  pose proof (visit_proceeds_children _ _ _ _ _ _ _ _ Hv) as ->.
  assert (Hg1 : same_graph st st1) by (eapply visit_same_graph; by rewrite Hv).
  apply (for_each_total _ (λ s, same_graph st s)); [| |done].
  - intros child s Hin Hs. apply IH.
    + by rewrite Hs.
    + rewrite (same_graph_length _ _ Hs). apply Hacyc in Hin. lia.
    + apply Hacyc in Hin. lia.
  - intros child s s' Hrun Hs. unfold same_graph in *.
    rewrite <- Hs. eapply _execute_same_graph. by rewrite Hrun.
Qed.

Lemma paths_stable `{Collaborators} (sk : list node_class) (f f' : nat)
    (i : node_id) :
  acyclic sk → i < f → i < f' → paths sk f i = paths sk f' i.
Proof.
  intros Hacyc. revert f' i.
  induction f as [|f IH]; intros f' i Hf Hf'; [lia|].
  destruct f' as [|f']; [lia|]. simpl. do 2 f_equal.
  apply list_fmap_ext. intros k c Hc.
  assert (c < i) by (apply Hacyc; by eapply list_elem_of_lookup_2).
  apply IH; lia.
Qed.

Lemma paths_pos `{Collaborators} (sk : list node_class) (f : nat) (i : node_id) :
  1 ≤ paths sk f i.
Proof. destruct f; simpl; lia. Qed.

Lemma ready_weight_cons `{Collaborators} (sk : list node_class) bound
    (i : node_id) (d : Z) (rest : list (node_id * Z)) :
  ready_weight sk bound ((i, d) :: rest)
  = paths sk bound i + ready_weight sk bound rest.
Proof. done. Qed.

Lemma ready_weight_app `{Collaborators} (sk : list node_class) bound
    (l1 l2 : list (node_id * Z)) :
  ready_weight sk bound (l1 ++ l2)
  = ready_weight sk bound l1 + ready_weight sk bound l2.
Proof.
  induction l1 as [|[i d] l1 IH]; [done|].
  rewrite <- app_comm_cons, !ready_weight_cons, IH. lia.
Qed.

Lemma ready_weight_children `{Collaborators} (sk : list node_class) bound
    (self : node_id) (depth : Z) :
  acyclic sk → self < S bound →
  ready_weight sk (S bound) ((λ child, (child, depth)) <$> kids sk self)
  = sum_list (paths sk bound <$> kids sk self).
Proof.
  intros Hacyc Hb. unfold ready_weight. rewrite <- list_fmap_compose.
  f_equal. apply list_fmap_ext. intros k c Hc.
  assert (c < self) by (apply Hacyc; by eapply list_elem_of_lookup_2).
  change (paths sk (S bound) c = paths sk bound c).
  apply paths_stable; [done|lia|lia].
Qed.

Lemma event_loop_total `{Collaborators} model measure test_case fuel bound
    ready (st : State) :
  acyclic (skeleton <$> nodes st) →
  Forall (λ task, task.1 < bound ∧ task.1 < length (nodes st)) ready →
  ready_weight (skeleton <$> nodes st) bound ready ≤ fuel →
  event_loop model measure test_case fuel ready st ≠ Stuck.
Proof.
  revert ready st.
  induction fuel as [|fuel IH]; intros ready st Hacyc Hready Hfuel.
  - destruct ready as [|[self depth] rest]; [done|].
    rewrite ready_weight_cons in Hfuel.
    pose proof (paths_pos (skeleton <$> nodes st) bound self). lia.
  - destruct ready as [|[self depth] rest]; [done|].
    cbn [event_loop].
    apply Forall_cons in Hready as [[Hb Hlen] Hrest]. simpl in Hb, Hlen.
    rewrite ready_weight_cons in Hfuel.
    pose proof (paths_pos (skeleton <$> nodes st) bound self) as Hpos.
    pose proof (visit_not_dangling model measure test_case self depth st Hlen)
      as Hnd.
    destruct (visit model measure test_case self depth st)
      as [st1|st1 children|e st1|] eqn:Hv; [| |done|done].
    + assert (Hg : same_graph st st1)
        by (eapply visit_same_graph; by rewrite Hv).
      apply IH.
      * by rewrite Hg.
      * rewrite (same_graph_length _ _ Hg). done.
      * rewrite Hg. lia.
    + assert (Hg : same_graph st st1)
        by (eapply visit_same_graph; by rewrite Hv).
      pose proof (visit_proceeds_children _ _ _ _ _ _ _ _ Hv) as ->.
      apply IH.
      * by rewrite Hg.
      * rewrite (same_graph_length _ _ Hg). apply Forall_app. split; [done|].
        apply Forall_fmap, Forall_forall. intros c Hc. simpl.
        apply Hacyc in Hc. lia.
      * rewrite Hg, ready_weight_app.
        destruct bound as [|bound]; [lia|].
        rewrite ready_weight_children by (done || lia).
        cbn [paths] in Hfuel. lia.
Qed.

(** ** The join check *)

Lemma iter_decrement_indegree `{Collaborators} (n : Node) (N : Z) (j : nat) :
  _indegree n = Some N →
  _indegree (Nat.iter j decrement_indegree n) = Some (N - Z.of_nat j)%Z.
Proof.
  intros HN. induction j as [|j IH].
  - simpl. rewrite HN. f_equal. lia.
  - rewrite Nat.iter_succ. rewrite (decrement_indegree_Some _ _ IH).
    f_equal. lia.
Qed.


(** ** Both strategies are schedules *)

Section Schedules.
Context `{Collaborators}.
Variable model : Judge.
Variable measure : GEval_measure.
Variable test_case : LLMTestCase.

Notation steps := (rtc (step model measure test_case)).

Lemma for_each_steps (f : node_id → State → result) (depth : Z)
    (children : list node_id) (st st' : State) (rest : list (node_id * Z)) :
  (∀ child s s' rest', f child s = Done s' →
     steps (s, (child, depth) :: rest') (s', rest')) →
  for_each f children st = Done st' →
  steps (st, ((λ child, (child, depth)) <$> children) ++ rest) (st', rest).
Proof.
  intros Hf. revert st.
  induction children as [|c cs IH]; intros st; simpl.
  - intros [= <-]. apply rtc_refl.
  - destruct (f c st) as [st1|e st1|] eqn:Hc; [|done|done].
    intros Hrest. etrans; [by apply Hf|]. by apply IH.
Qed.

(** The sequential strategy: the newest pending visit first. *)
Lemma _execute_steps fuel self depth (st st' : State)
    (rest : list (node_id * Z)) :
  _execute model measure test_case fuel self depth st = Done st' →
  steps (st, (self, depth) :: rest) (st', rest).
Proof.
  revert self depth st st' rest.
  induction fuel as [|fuel IH]; intros self depth st st' rest; [done|].
  cbn [_execute].
  destruct (visit model measure test_case self depth st)
    as [st1|st1 children|e st1|] eqn:Hv; [| |done|done].
  - intros [= <-]. apply rtc_once.
    apply (step_returned _ _ _ st st1 self depth [] rest Hv).
  - intros Hrest.
    eapply rtc_l.
    + apply (step_proceeds _ _ _ st st1 self depth [] rest children
               (spawn depth children ++ rest) Hv).
      simpl. apply Permutation_app_comm.
    + unfold spawn.
      apply (for_each_steps
               (λ child, _execute model measure test_case fuel child
                           (depth + 1))); [|done].
      intros child s s' rest'. apply IH.
Qed.

(** The event loop: the oldest pending visit first. *)
Lemma event_loop_steps fuel ready (st st' : State) :
  event_loop model measure test_case fuel ready st = Done st' →
  steps (st, ready) (st', []).
Proof.
  revert ready st st'.
  induction fuel as [|fuel IH]; intros ready st st'.
  - destruct ready as [|[self depth] rest]; [|done].
    intros [= <-]. apply rtc_refl.
  - destruct ready as [|[self depth] rest].
    { intros [= <-]. apply rtc_refl. }
    cbn [event_loop].
    destruct (visit model measure test_case self depth st)
      as [st1|st1 children|e st1|] eqn:Hv; [| |done|done].
    + intros Hrest. eapply rtc_l; [|by apply IH].
      apply (step_returned _ _ _ st st1 self depth [] rest Hv).
    + intros Hrest. eapply rtc_l; [|by apply IH].
      by apply (step_proceeds _ _ _ st st1 self depth [] rest children
                  (rest ++ spawn depth children) Hv).
Qed.

End Schedules.

(** ** Counting occurrences *)

Lemma occ_nil (i : node_id) : occ i [] = 0.
Proof. done. Qed.

Lemma occ_cons (i j : node_id) (l : list node_id) :
  occ i (j :: l) = (if decide (j = i) then 1 else 0) + occ i l.
Proof. unfold occ. rewrite filter_cons. destruct (decide (j = i)); done. Qed.

Lemma occ_app (i : node_id) (l1 l2 : list node_id) :
  occ i (l1 ++ l2) = occ i l1 + occ i l2.
Proof. unfold occ. by rewrite filter_app, length_app. Qed.

Lemma occ_Permutation (i : node_id) (l1 l2 : list node_id) :
  l1 ≡ₚ l2 → occ i l1 = occ i l2.
Proof. intros Hl. unfold occ. by rewrite Hl. Qed.

Lemma occ_zero (i : node_id) (l : list node_id) : occ i l = 0 ↔ i ∉ l.
Proof.
  induction l as [|j l IH].
  - rewrite occ_nil. split; [intros _; apply not_elem_of_nil|done].
  - rewrite occ_cons, not_elem_of_cons.
    destruct (decide (j = i)) as [->|Hne]; simpl.
    + split; [lia|]. by intros [? _].
    + rewrite IH. split; [intros; split; congruence|]. by intros [_ ?].
Qed.

Lemma occ_pos (i : node_id) (l : list node_id) : i ∈ l → 1 ≤ occ i l.
Proof.
  intros Hin. destruct (occ i l) eqn:E; [|lia].
  apply occ_zero in E. done.
Qed.

(** ** Task nodes: construction *)

Lemma register_children_lookup `{Collaborators} self children (h : heap)
    (i : node_id) :
  register_children self children h !! i
  = Nat.iter (occ i children) (λ n, increment_indegree (set_parent self n))
      <$> h !! i.
Proof.
  revert h. induction children as [|c rest IH]; intros h; simpl.
  - rewrite occ_nil. simpl. by destruct (h !! i).
  - rewrite IH, occ_cons, list_lookup_alter.
    destruct (decide (c = i)) as [->|Hne]; [|done].
    destruct (h !! i) as [n|]; [|done].
    change (Some (Nat.iter (occ i rest)
                    (λ n, increment_indegree (set_parent self n))
                    (increment_indegree (set_parent self n)))
            = Some (Nat.iter (S (occ i rest))
                      (λ n, increment_indegree (set_parent self n)) n)).
    by rewrite Nat.iter_succ_r.
Qed.

Lemma existsb_is_VerdictNode `{Collaborators} (h : heap) children :
  existsb (λ child, bool_decide (is_Some (is_VerdictNode h child))) children
  = true
  ↔ ∃ c, c ∈ children ∧ is_Some (is_VerdictNode h c).
Proof.
  rewrite existsb_exists. split.
  - intros (c & Hin & Hc). exists c. split; [by apply list_elem_of_In|].
    by apply bool_decide_eq_true in Hc.
  - intros (c & Hin & Hc). exists c. split; [by apply list_elem_of_In|].
    by apply bool_decide_eq_true.
Qed.

(** X1. [TaskNode(...)] raises [ValueError] exactly when one of the
    children is a verdict node, and then no child has been touched; an
    empty list of children is accepted.  Otherwise the new node is a fresh
    object with unset counter, no output and no parents, and every object
    that was there before has gone through [set_parent(self)] and
    [increment_indegree] once for each time the list of children names it
    (not at all if it does not). *)
Theorem TaskNode_construction `{Collaborators} (h : heap)
    (instructions output_label : string) (children : list node_id)
    (evaluation_params : option (list LLMTestCaseParams)) :
  let self := length h in
  let fresh :=
    {| _indegree := None;
       body := Task {| tn_instructions := instructions;
                       tn_output_label := output_label;
                       tn_children := children;
                       tn_evaluation_params := evaluation_params;
                       tn_output := None;
                       tn_parents := None |} |} in
  let register := λ n, increment_indegree (set_parent self n) in
  let made := new_TaskNode h instructions output_label children
                evaluation_params in
  ((∃ c, c ∈ children ∧ is_Some (is_VerdictNode h c)) →
     made = inl (ValueError
       "A TaskNode must not have a VerdictNode as one of their 'children'."))
  ∧ ((∀ c, c ∈ children → is_VerdictNode h c = None) →
     ∃ h', made = inr (h', self)
           ∧ length h' = S (length h)
           ∧ (∀ i n, h !! i = Some n →
                h' !! i = Some (Nat.iter (occ i children) register n))
           ∧ (∀ i n, h !! i = Some n → i ∉ children → h' !! i = Some n)
           ∧ (self ∉ children → h' !! self = Some fresh))
  ∧ succeeds (new_TaskNode h instructions output_label [] evaluation_params).
Proof.
  intros self fresh register made. subst made. unfold new_TaskNode.
  fold self fresh. split_and!.
  - intros Hbad. apply existsb_is_VerdictNode in Hbad. by rewrite Hbad.
  - intros Hok.
    destruct (existsb _ children) eqn:E.
    { apply existsb_is_VerdictNode in E as (c & Hin & Hc).
      rewrite (Hok c Hin) in Hc. by destruct Hc. }
    eexists. split; [reflexivity|].
    split; [rewrite register_children_length, length_app; simpl; lia|].
    assert (Hall : ∀ i n, (h ++ [fresh]) !! i = Some n →
              register_children self children (h ++ [fresh]) !! i
              = Some (Nat.iter (occ i children) register n)).
    { intros i n Hi. by rewrite register_children_lookup, Hi. }
    split_and!.
    + intros i n Hi. apply Hall. by apply lookup_app_l_Some.
    + intros i n Hi Hnot. rewrite (Hall i n) by (by apply lookup_app_l_Some).
      apply occ_zero in Hnot. by rewrite Hnot.
    + intros Hnot. rewrite (Hall self fresh) by (by apply list_lookup_middle).
      apply occ_zero in Hnot. by rewrite Hnot.
  - simpl. by eexists _, _.
Qed.

(** ** Registration: the counter and the parent links *)

Lemma append_parent_replicate (ps : option (list node_id)) (self : node_id)
    (k : nat) :
  Nat.iter (S k) (λ ps, append_parent ps self) ps
  = Some (default [] ps ++ replicate (S k) self).
Proof.
  induction k as [|k IH].
  - by destruct ps.
  - rewrite Nat.iter_succ, IH, (replicate_S_end (S k)), app_assoc. done.
Qed.

Lemma register_indegree `{Collaborators} (self : node_id) (n : Node) :
  _indegree (increment_indegree (set_parent self n))
  = Some (default 0 (_indegree n) + 1)%Z.
Proof. unfold increment_indegree. simpl. by destruct (_indegree n). Qed.

Lemma iter_register_indegree `{Collaborators} (self : node_id) (k : nat)
    (n : Node) :
  _indegree (Nat.iter (S k) (λ n, increment_indegree (set_parent self n)) n)
  = Some (default 0 (_indegree n) + Z.of_nat (S k))%Z.
Proof.
  induction k as [|k IH].
  - exact (register_indegree self n).
  - rewrite Nat.iter_succ. cbv beta. rewrite register_indegree, IH.
    simpl default. f_equal. lia.
Qed.

Lemma iter_register_body `{Collaborators} (self : node_id) (k : nat)
    (n : Node) :
  body (Nat.iter (S k) (λ n, increment_indegree (set_parent self n)) n)
  = match body n with
    | Verdict v =>
        Verdict {| vn_verdict := vn_verdict v; vn_score := vn_score v;
                   vn_g_eval := vn_g_eval v; vn_parent := Some self |}
    | Task t =>
        Task {| tn_instructions := tn_instructions t;
                tn_output_label := tn_output_label t;
                tn_children := tn_children t;
                tn_evaluation_params := tn_evaluation_params t;
                tn_output := tn_output t;
                tn_parents :=
                  Some (default [] (tn_parents t) ++ replicate (S k) self) |}
    | Binary b =>
        Binary {| bj_criteria := bj_criteria b;
                  bj_children := bj_children b;
                  bj_evaluation_params := bj_evaluation_params b;
                  bj_verdict := bj_verdict b;
                  bj_parents :=
                    Some (default [] (bj_parents b) ++ replicate (S k) self) |}
    | NonBinary nb =>
        NonBinary {| nb_criteria := nb_criteria nb;
                     nb_children := nb_children nb;
                     nb_evaluation_params := nb_evaluation_params nb;
                     nb_verdict := nb_verdict nb;
                     nb_parents :=
                       Some (default [] (nb_parents nb)
                             ++ replicate (S k) self);
                     nb_verdict_options := nb_verdict_options nb |}
    end.
Proof.
  induction k as [|k IH].
  - cbn [Nat.iter nat_rect].
    unfold increment_indegree, set_parent. cbn [body _indegree].
    destruct (body n) as [v|t|b|nb]; [done|..].
    + by destruct (tn_parents t).
    + by destruct (bj_parents b).
    + by destruct (nb_parents nb).
  - rewrite Nat.iter_succ. cbv beta.
    set (m := Nat.iter (S k) _ n) in *.
    unfold increment_indegree at 1. cbn [body].
    unfold set_parent. cbn [body].
    rewrite IH.
    destruct (body n) as [v|t|b|nb]; [done|..];
      cbn [append_parent tn_parents bj_parents nb_parents];
      by rewrite (replicate_S_end (S k)), app_assoc.
Qed.

(** X2. What registration under a parent does to a child
    ([child.set_parent(self); increment_indegree(child)], once for each
    time the parent's list of children names it): the child's counter ends
    at its old value (0 if it was unset) plus the number of listings; the
    single [_parent] slot of a verdict node is overwritten with the new
    parent, whatever it held before, while a task or judgement node has
    the new parent appended to its [_parents] list (created on first use),
    once per listing.  Nothing else in the child changes. *)
Theorem registration_effect `{Collaborators} (self : node_id)
    (children : list node_id) (h : heap) (child : node_id) (n : Node) :
  h !! child = Some n →
  child ∈ children →
  ∃ n', register_children self children h !! child = Some n'
    ∧ _indegree n'
      = Some (default 0 (_indegree n) + Z.of_nat (occ child children))%Z
    ∧ body n'
      = match body n with
        | Verdict v =>
            Verdict {| vn_verdict := vn_verdict v; vn_score := vn_score v;
                       vn_g_eval := vn_g_eval v; vn_parent := Some self |}
        | Task t =>
            Task {| tn_instructions := tn_instructions t;
                    tn_output_label := tn_output_label t;
                    tn_children := tn_children t;
                    tn_evaluation_params := tn_evaluation_params t;
                    tn_output := tn_output t;
                    tn_parents :=
                      Some (default [] (tn_parents t)
                            ++ replicate (occ child children) self) |}
        | Binary b =>
            Binary {| bj_criteria := bj_criteria b;
                      bj_children := bj_children b;
                      bj_evaluation_params := bj_evaluation_params b;
                      bj_verdict := bj_verdict b;
                      bj_parents :=
                        Some (default [] (bj_parents b)
                              ++ replicate (occ child children) self) |}
        | NonBinary nb =>
            NonBinary {| nb_criteria := nb_criteria nb;
                         nb_children := nb_children nb;
                         nb_evaluation_params := nb_evaluation_params nb;
                         nb_verdict := nb_verdict nb;
                         nb_parents :=
                           Some (default [] (nb_parents nb)
                                 ++ replicate (occ child children) self);
                         nb_verdict_options := nb_verdict_options nb |}
        end.
Proof.
  intros Hn Hin. rewrite register_children_lookup, Hn. simpl.
  eexists. split; [reflexivity|].
  apply occ_pos in Hin.
  destruct (occ child children) as [|k]; [lia|].
  split; [apply iter_register_indegree|apply iter_register_body].
Qed.

(** A verdict node shared by two binary judgements: the counter counts
    both, [_parent] names the second. *)
Lemma registration_effect_witness :
  ∃ n' : @Node stub,
    built (new_BinaryJudgementNode judgement_only "tone" [0; 1] None) !! 0
    = Some n'
    ∧ _indegree n' = Some 2%Z
    ∧ body n' = Verdict {| vn_verdict := VBool true; vn_score := Some 10%Z;
                           vn_g_eval := None; vn_parent := Some 3 |}.
Proof.
  exact (registration_effect (H := stub) 3 [0; 1]
           (judgement_only ++
              [ {| _indegree := None;
                   body := Binary {| bj_criteria := "tone";
                                     bj_children := [0; 1];
                                     bj_evaluation_params := None;
                                     bj_verdict := None;
                                     bj_parents := None |} |} ])
           0
           {| _indegree := Some 1%Z;
              body := Verdict {| vn_verdict := VBool true;
                                 vn_score := Some 10%Z;
                                 vn_g_eval := None;
                                 vn_parent := Some 2 |} |}
           eq_refl ltac:(by left)).
Defined.

(** ** A task node without evaluation parameters *)

(** A visit that the join check lets through, whatever the counter was. *)
Lemma visit_through `{Collaborators} model measure test_case
    (st : State) (self : node_id) (n : Node) (depth : Z) :
  nodes st !! self = Some n →
  _indegree n = None ∨ _indegree n = Some 1%Z →
  visit model measure test_case self depth st =
    through (decrement_indegree n)
      (node_body model measure test_case self (decrement_indegree n) depth
         (record_entry self depth
            (with_nodes (alter decrement_indegree self) st))).
Proof.
  intros Hself [Hk|Hk].
  - by apply visit_unset.
  - rewrite (visit_counted _ _ _ _ _ _ _ _ Hself Hk).
    by rewrite bool_decide_eq_true_2.
Qed.

(** X3. [evaluation_params] of a task node defaults to [None], and
    [TaskNode._execute] iterates over it unguarded: a task node that gets
    past its join check with [evaluation_params = None] raises [TypeError]
    in both strategies, before the judge is asked: nothing is logged, the
    metric is untouched, no child is visited; the counter has been
    decremented. *)
Theorem TaskNode_without_evaluation_params `{Collaborators}
    model measure test_case (st : State) (self : node_id) (n : Node)
    (t : TaskNode) (depth : Z) (fuel : nat) :
  nodes st !! self = Some n →
  body n = Task t →
  tn_evaluation_params t = None →
  _indegree n = None ∨ _indegree n = Some 1%Z →
  let st' := record_entry self depth
               (with_nodes (alter decrement_indegree self) st) in
  _execute model measure test_case (S fuel) self depth st
  = Raised not_iterable st'
  ∧ _a_execute model measure test_case (S fuel) self depth st
    = Raised not_iterable st'
  ∧ calls st' = calls st
  ∧ metric st' = metric st
  ∧ (∀ i, i ≠ self → nodes st' !! i = nodes st !! i).
Proof.
  intros Hself Hbody Hparams Hk st'.
  assert (Hv : visit model measure test_case self depth st
               = Fails not_iterable st').
  { rewrite (visit_through _ _ _ _ _ _ _ Hself Hk).
    unfold node_body. rewrite decrement_indegree_body, Hbody.
    unfold TaskNode_body. by rewrite Hparams. }
  split_and!.
  - cbn [_execute]. by rewrite Hv.
  - unfold _a_execute. cbn [event_loop]. by rewrite Hv.
  - done.
  - done.
  - intros i Hne. subst st'. simpl. by apply list_lookup_alter_ne.
Qed.

(** ** A second pass *)

Lemma visit_spends `{Collaborators} model measure test_case self depth
    (st st' : State) (n : Node) :
  nodes st !! self = Some n →
  (level (_indegree n) ≤ 1)%Z →
  visited (visit model measure test_case self depth st) = Some st' →
  spent st' self.
Proof.
  intros Hself Hlevel (n' & Hn' & _ & Hcnt & _)%visit_effect.
  assert (n' = n) as -> by congruence.
  exists (level (_indegree n) - 1)%Z. split; [|lia].
  rewrite Hcnt, list_lookup_insert_eq.
  - unfold decrement_indegree. simpl. by destruct (_indegree n).
  - unfold counters. rewrite length_fmap. by eapply lookup_lt_Some.
Qed.

Lemma visit_spent `{Collaborators} model measure test_case self depth
    (st : State) :
  spent st self →
  visit model measure test_case self depth st
  = Returned (with_nodes (alter decrement_indegree self) st).
Proof.
  intros (k & Hk & Hle). unfold counters in Hk.
  rewrite list_lookup_fmap in Hk.
  destruct (nodes st !! self) as [n|] eqn:Hself; [|done].
  injection Hk as Hk.
  rewrite (visit_counted _ _ _ _ _ _ _ _ Hself Hk).
  rewrite bool_decide_eq_false_2 by lia. done.
Qed.

Lemma pass_spends `{Collaborators} model measure test_case fuel root depth
    (st st' : State) (n : Node) :
  nodes st !! root = Some n →
  (level (_indegree n) ≤ 1)%Z →
  last_state (_execute model measure test_case fuel root depth st) = Some st'
  ∨ last_state (_a_execute model measure test_case fuel root depth st)
    = Some st' →
  spent st' root.
Proof.
  intros Hroot Hlevel Hrun.
  destruct fuel as [|fuel]; [by destruct Hrun|].
  unfold _a_execute in Hrun. cbn [_execute event_loop] in Hrun.
  pose proof (visit_spends model measure test_case root depth st) as Hvisit.
  destruct (visit model measure test_case root depth st)
    as [st1|st1 children|e st1|]; simpl in Hvisit.
  - assert (st' = st1) as ->.
    { destruct Hrun as [Hrun|Hrun]; [by injection Hrun|].
      destruct fuel; by injection Hrun. }
    by eapply Hvisit.
  - assert (Honce : once st1 st').
    { destruct Hrun as [Hrun|Hrun].
      - revert Hrun. apply for_each_preserves; [apply once_refl|apply once_trans|].
        intros child s s'. apply _execute_preserves;
          [apply once_refl|apply once_trans|apply visit_once].
      - revert Hrun. apply event_loop_preserves;
          [apply once_refl|apply once_trans|apply visit_once]. }
    destruct Honce as (new & _ & Hi).
    destruct (Hi root) as (_ & _ & _ & Hkeep). apply Hkeep.
    by eapply Hvisit.
  - assert (st' = st1) as -> by (by destruct Hrun as [[= ?]|[= ?]]).
    by eapply Hvisit.
  - by destruct Hrun.
Qed.


Lemma TaskNode_without_evaluation_params_witness :
  _execute yes_judge no_measure stub_case 1 0 0
    (start bare_task (fresh_metric false false))
  = Raised not_iterable
      (record_entry 0 0
         (with_nodes (alter decrement_indegree 0)
            (start bare_task (fresh_metric false false)))).
Proof.
  exact (proj1 (TaskNode_without_evaluation_params (H := stub)
           yes_judge no_measure stub_case
           (start bare_task (fresh_metric false false)) 0
           {| _indegree := None;
              body := Task {| tn_instructions := "summarize";
                              tn_output_label := "Summary";
                              tn_children := [];
                              tn_evaluation_params := None;
                              tn_output := None;
                              tn_parents := None |} |}
           {| tn_instructions := "summarize";
              tn_output_label := "Summary";
              tn_children := [];
              tn_evaluation_params := None;
              tn_output := None;
              tn_parents := None |}
           0%Z 0 eq_refl eq_refl eq_refl (or_introl eq_refl))).
Defined.


(** ** Waiting for the last parent *)

Lemma waited_succ `{Collaborators} (self : node_id) (j : nat) (st : State) :
  with_nodes (alter decrement_indegree self)
    (with_nodes (alter (Nat.iter j decrement_indegree) self) st)
  = with_nodes (alter (Nat.iter (S j) decrement_indegree) self) st.
Proof.
  unfold with_nodes. simpl. f_equal. apply list_alter_alter_eq.
Qed.

(** X5. A node whose counter stands at [k ≥ 1] (it was registered [k]
    times) is visited [k] times before it runs: each of the first [k - 1]
    visits only decrements the counter and returns, whatever its depth;
    the [k]-th visit runs the node's body, and the depth the node logs is
    the depth of that last visit. *)
Theorem node_runs_on_its_last_visit `{Collaborators} model measure test_case
    (st : State) (self : node_id) (n : Node) (k : Z) :
  nodes st !! self = Some n →
  _indegree n = Some k →
  (1 ≤ k)%Z →
  let waited := λ j : nat,
    with_nodes (alter (Nat.iter j decrement_indegree) self) st in
  waited 0 = st
  ∧ (∀ (j : nat) (depth : Z), (Z.of_nat j + 1 < k)%Z →
       visit model measure test_case self depth (waited j)
       = Returned (waited (S j)))
  ∧ (∀ (j : nat) (depth : Z), (Z.of_nat j + 1 = k)%Z →
       let n' := Nat.iter (S j) decrement_indegree n in
       _indegree n' = Some 0%Z
       ∧ visit model measure test_case self depth (waited j)
         = through n'
             (node_body model measure test_case self n' depth
                (record_entry self depth (waited (S j))))).
Proof.
  intros Hself Hk Hpos waited.
  assert (Hat : ∀ j, nodes (waited j) !! self
                     = Some (Nat.iter j decrement_indegree n)).
  { intros j. subst waited. simpl. by rewrite list_lookup_alter_eq, Hself. }
  split_and!.
  - subst waited. destruct st as [h m c e]. unfold with_nodes. simpl.
    f_equal. by apply list_alter_id.
  - intros j depth Hj.
    rewrite (visit_counted _ _ _ _ _ _ _ _ (Hat j)
               (iter_decrement_indegree n k j Hk)).
    rewrite bool_decide_eq_false_2 by lia.
    subst waited. cbv beta. by rewrite waited_succ.
  - intros j depth Hj n'. split.
    + subst n'. rewrite (iter_decrement_indegree n k (S j) Hk). f_equal. lia.
    + rewrite (visit_counted _ _ _ _ _ _ _ _ (Hat j)
                 (iter_decrement_indegree n k j Hk)).
      rewrite bool_decide_eq_true_2 by lia.
      subst waited n'. cbv beta. by rewrite waited_succ.
Qed.

Lemma node_runs_on_its_last_visit_witness :
  visit yes_judge no_measure stub_case 0 1
    (start shared_verdicts (fresh_metric false false))
  = Returned
      (with_nodes (alter (Nat.iter 1 decrement_indegree) 0)
         (start shared_verdicts (fresh_metric false false))).
Proof.
  refine (proj1 (proj2 (node_runs_on_its_last_visit (H := stub)
            yes_judge no_measure stub_case
            (start shared_verdicts (fresh_metric false false)) 0
            {| _indegree := Some 2%Z;
               body := Verdict {| vn_verdict := VBool true;
                                  vn_score := Some 10%Z;
                                  vn_g_eval := None;
                                  vn_parent := Some 3 |} |}
            2%Z eq_refl eq_refl _)) 0 1%Z _); simpl; lia.
Defined.

(** ** What a pass adds *)

Lemma tally_refl `{Collaborators} (st : State) : tally 0 0 0 st st.
Proof.
  unfold tally. split_and!; try done.
  - exists []. by rewrite app_nil_r.
  - exists []. by rewrite app_nil_r.
Qed.

Lemma tally_trans `{Collaborators} (a a' l b b' m : nat) (st1 st2 st3 : State) :
  tally a a' l st1 st2 → tally b b' m st2 st3 →
  tally (a + b) (a' + b') (l + m) st1 st3.
Proof.
  intros (Hs1 & (cs1 & Hc1 & Hl1 & Hn1) & (ls1 & Hv1 & Hm1) & Hcost1 & Hr1)
         (Hs2 & (cs2 & Hc2 & Hl2 & Hn2) & (ls2 & Hv2 & Hm2) & Hcost2 & Hr2).
  assert (Hnat : using_native_model (metric st2)
                 = using_native_model (metric st1))
    by (unfold settings in Hs1; congruence).
  assert (Hinc : include_reason (metric st2) = include_reason (metric st1))
    by (unfold settings in Hs1; congruence).
  unfold tally. split_and!.
  - congruence.
  - exists (cs1 ++ cs2). rewrite Hc2, Hc1, app_assoc, length_app.
    split; [done|]. split; [lia|].
    intros Hnative. specialize (Hn1 Hnative).
    rewrite Hnat in Hn2. specialize (Hn2 Hnative). lia.
  - exists (ls1 ++ ls2). rewrite Hv2, Hv1, app_assoc, length_app.
    split; [done|lia].
  - intros Hno. rewrite Hcost2, Hcost1; congruence.
  - intros Hno. rewrite Hr2, Hr1; congruence.
Qed.

Lemma tally_mono `{Collaborators} (a a' l b b' m : nat) (st st' : State) :
  a ≤ b → a' ≤ b' → l ≤ m → tally a a' l st st' → tally b b' m st st'.
Proof.
  intros Ha Ha' Hl (Hs & (cs & Hc & Hlen & Hn) & (ls & Hv & Hm) & Hcost & Hr).
  unfold tally. split_and!; try done.
  - exists cs. split; [done|]. split; [lia|].
    intros Hnative. specialize (Hn Hnative). lia.
  - exists ls. split; [done|lia].
Qed.

(** Without a native model the bound for native models says nothing. *)
Lemma tally_not_native `{Collaborators} (a a' b' l : nat) (st st' : State) :
  using_native_model (metric st) = false →
  tally a a' l st st' → tally a b' l st st'.
Proof.
  intros Hno (Hs & (cs & Hc & Hlen & Hn) & Hlog & Hcost & Hr).
  unfold tally. split_and!; try done.
  exists cs. split; [done|]. split; [done|]. congruence.
Qed.

Lemma tally_record_call `{Collaborators} (c : JudgeCall) (st : State) :
  tally 1 1 0 st (record_call c st).
Proof.
  unfold tally. simpl. split_and!; try done.
  - exists [c]. simpl. split_and!; [done|lia|lia].
  - exists []. by rewrite app_nil_r.
Qed.

Lemma tally_log `{Collaborators} (s : string) (st : State) :
  tally 0 0 1 st (with_metric (log_append s) st).
Proof.
  unfold tally. simpl. split_and!; try done.
  - exists []. by rewrite app_nil_r.
  - exists [s]. simpl. split; [done|lia].
Qed.

Lemma tally_quiet `{Collaborators} (f : Metric → Metric) (st : State) :
  settings (f (metric st)) = settings (metric st) →
  _verbose_steps (f (metric st)) = _verbose_steps (metric st) →
  (using_native_model (metric st) = false →
   evaluation_cost (f (metric st)) = evaluation_cost (metric st)) →
  (include_reason (metric st) = false →
   reason (f (metric st)) = reason (metric st)) →
  tally 0 0 0 st (with_metric f st).
Proof.
  intros Hs Hv Hcost Hr. unfold tally. simpl. split_and!; try done.
  - exists []. by rewrite app_nil_r.
  - exists []. by rewrite Hv, app_nil_r.
Qed.

Lemma tally_nodes `{Collaborators} (f : heap → heap) (st : State) :
  tally 0 0 0 st (with_nodes f st).
Proof. apply (tally_refl st). Qed.

Lemma tally_entry `{Collaborators} (self : node_id) (depth : Z) (st : State) :
  tally 0 0 0 st (record_entry self depth st).
Proof. apply (tally_refl st). Qed.

Lemma generate_with_schema_tally `{Collaborators} model prompt sc
    (st st' : State) r :
  generate_with_schema model prompt sc st = (r, st') → tally 2 1 0 st st'.
Proof.
  unfold generate_with_schema, call_generate_schema, call_generate.
  destruct (using_native_model (metric st)) eqn:Hnative.
  - destruct (generate_schema model _ _ _) as [res cost|e]; intros [= <- <-].
    + eapply (tally_trans 1 1 0 1 0 0); [apply tally_record_call|].
      apply (tally_mono 0 0 0); [lia..|].
      apply tally_quiet; try done; simpl; congruence.
    + apply (tally_mono 1 1 0); [lia..|]. apply tally_record_call.
  - intros Hg. apply (tally_not_native 2 2); [done|].
    assert (H1 : ∀ c, tally 2 2 0 st (record_call c st))
      by (intros c; apply (tally_mono 1 1 0); [lia..|];
          apply tally_record_call).
    assert (H2 : ∀ c c', tally 2 2 0 st (record_call c' (record_call c st)))
      by (intros c c'; eapply (tally_trans 1 1 0 1 1 0);
          apply tally_record_call).
    destruct (generate_schema model _ _ _) as [res cost|[]];
      simpl in Hg; try (injection Hg as <- <-; apply H1).
    destruct (generate model _ _) as [res cost|e]; simpl in Hg.
    + destruct (trimAndLoadJson res); injection Hg as <- <-; apply H2.
    + injection Hg as <- <-. apply H2.
Qed.

Lemma append_own_log_tally `{Collaborators} self depth (st st' : State) :
  last_state (append_own_log self depth st) = Some st' → tally 0 0 1 st st'.
Proof.
  unfold append_own_log. destruct (nodes st !! self) as [n|]; [|done].
  destruct (construct_node_verbose_log n depth); intros [= <-].
  - apply (tally_mono 0 0 0); [lia..|]. apply tally_refl.
  - apply tally_log.
Qed.

Lemma TaskNode_body_tally `{Collaborators} model test_case self t depth
    (st st' : State) :
  last_state (TaskNode_body model test_case self t depth st) = Some st' →
  tally 1 1 1 st st'.
Proof.
  unfold TaskNode_body, call_generate.
  destruct (tn_evaluation_params t) as [params|];
    [|intros [= <-]; apply (tally_mono 0 0 0); [lia..|apply tally_refl]].
  destruct (generate model _ _) as [res cost|e];
    [|intros [= <-]; apply (tally_mono 1 1 0); [lia..|];
      apply tally_record_call].
  intros Hlog%append_own_log_tally.
  eapply (tally_trans 1 1 0 0 0 1); [|exact Hlog].
  eapply (tally_trans 1 1 0 0 0 0); [apply tally_record_call|].
  simpl. destruct (using_native_model (metric st)) eqn:Hnative.
  - eapply (tally_trans 0 0 0 0 0 0); [|apply tally_nodes].
    apply tally_quiet; try done; simpl; congruence.
  - apply tally_nodes.
Qed.

Lemma judge_and_log_tally `{Collaborators} model self depth prompt sc
    (st st' : State) :
  last_state (judge_and_log model self depth prompt sc st) = Some st' →
  tally 2 1 1 st st'.
Proof.
  unfold judge_and_log.
  destruct (generate_with_schema model prompt sc st) as [[e|res] st1] eqn:Hg;
    apply generate_with_schema_tally in Hg.
  - intros [= <-]. by apply (tally_mono 2 1 0); [lia..|].
  - intros Hlog%append_own_log_tally.
    apply (tally_trans 2 1 0 0 0 1 _ _ _ Hg).
    eapply (tally_trans 0 0 0 0 0 1); [|exact Hlog].
    apply tally_nodes.
Qed.

Lemma VerdictNode_resolve_tally `{Collaborators} model measure test_case
    self v depth (st st' : State) :
  last_state (VerdictNode_resolve model measure test_case self v depth st)
    = Some st' →
  tally 2 1 1 st st'.
Proof.
  unfold VerdictNode_resolve.
  destruct (append_own_log self depth st) as [st1|e st1|] eqn:Hlog;
    [| |done].
  2: { intros [= <-]. apply (tally_mono 0 0 1); [lia..|].
       apply (append_own_log_tally self depth). by rewrite Hlog. }
  assert (Hst1 : tally 0 0 1 st st1)
    by (apply (append_own_log_tally self depth); by rewrite Hlog).
  intros Hrest. apply (tally_trans 0 0 1 2 1 0 _ _ _ Hst1). clear Hlog Hst1.
  destruct (vn_g_eval v) as [g|].
  - destruct (measure _ test_case) as [[s r] cost|e]; simpl in Hrest.
    + apply (tally_mono 0 0 0); [lia..|].
      destruct (include_reason (metric st1)) eqn:Hr; simpl in Hrest;
        injection Hrest as <-.
      * eapply (tally_trans 0 0 0 0 0 0).
        -- by apply (tally_quiet (set_score s)).
        -- apply tally_quiet; try done. simpl. congruence.
      * by apply tally_quiet.
    + injection Hrest as <-. apply (tally_mono 0 0 0); [lia..|].
      apply tally_refl.
  - destruct (vn_score v) as [s|]; simpl in Hrest;
      [|injection Hrest as <-; apply (tally_mono 0 0 0); [lia..|];
        apply tally_refl].
    assert (Hscore : tally 0 0 0 st1
              (with_metric (set_score (Some (inject_Z s / 10)%Q)) st1))
      by (by apply tally_quiet).
    destruct (include_reason (metric st1)) eqn:Hr.
    + unfold _generate_reason in Hrest.
      match type of Hrest with
      | context [generate_with_schema ?md ?p ?sc ?s0] =>
          destruct (generate_with_schema md p sc s0) as [[e|r] st3] eqn:Hcall
      end; pose proof (generate_with_schema_tally _ _ _ _ _ _ Hcall) as Ht;
        simpl in Hrest; injection Hrest as <-.
      * apply (tally_trans 0 0 0 2 1 0 _ _ _ Hscore Ht).
      * apply (tally_trans 0 0 0 2 1 0 _ _ _ Hscore).
        apply (tally_trans 2 1 0 0 0 0 _ _ _ Ht).
        apply tally_quiet; try done. simpl.
        destruct Ht as (Hs & _). unfold settings in Hs. simpl in Hs.
        congruence.
    + injection Hrest as <-. apply (tally_mono 0 0 0); [lia..|]. done.
Qed.

Lemma node_body_tally `{Collaborators} model measure test_case self n depth
    (st st' : State) :
  last_state (node_body model measure test_case self n depth st) = Some st' →
  tally 2 1 1 st st'.
Proof.
  assert (Hrefl : tally 2 1 1 st st)
    by (apply (tally_mono 0 0 0); [lia..|apply tally_refl]).
  unfold node_body. destruct (body n) as [v|t|b|nb].
  - unfold VerdictNode_body.
    destruct (judgement_parent (nodes st) v) as [pv|];
      [|apply VerdictNode_resolve_tally].
    destruct (resolved_verdict pv) as [e|[l why]]; [by intros [= <-]|].
    case_bool_decide; [by intros [= <-]|].
    apply VerdictNode_resolve_tally.
  - intros Ht%TaskNode_body_tally. by apply (tally_mono 1 1 1); [lia..|].
  - unfold BinaryJudgementNode_body.
    destruct (bj_parents b); [apply judge_and_log_tally|by intros [= <-]].
  - unfold NonBinaryJudgementNode_body.
    destruct (nb_parents nb); [apply judge_and_log_tally|by intros [= <-]].
Qed.

Lemma budget_refl `{Collaborators} (st : State) : budget st st.
Proof.
  split; [done|]. exists []. rewrite app_nil_r. split; [done|].
  split; [by intros i ?%elem_of_nil|]. apply tally_refl.
Qed.

Lemma budget_trans `{Collaborators} (st1 st2 st3 : State) :
  budget st1 st2 → budget st2 st3 → budget st1 st3.
Proof.
  intros (Hlen1 & new1 & E1 & Hb1 & Ht1) (Hlen2 & new2 & E2 & Hb2 & Ht2).
  split; [congruence|].
  exists (new1 ++ new2). split; [by rewrite E2, E1, app_assoc|]. split.
  - intros i. rewrite fmap_app, elem_of_app. intros [Hi|Hi]; [by apply Hb1|].
    rewrite <- Hlen1. by apply Hb2.
  - rewrite length_app.
    refine (tally_mono _ _ _ _ _ _ _ _ _ _ _
              (tally_trans _ _ _ _ _ _ _ _ _ Ht1 Ht2)); lia.
Qed.

Lemma visit_budget `{Collaborators} model measure test_case self depth
    (st st' : State) :
  visited (visit model measure test_case self depth st) = Some st' →
  budget st st'.
Proof.
  intros Hv. split; [by eapply visit_nodes_length|]. revert Hv.
  unfold visit. destruct (nodes st !! self) as [n|] eqn:Hself; [|done].
  case_bool_decide as Hzero.
  - intros [= <-]. exists []. rewrite app_nil_r. split; [done|].
    split; [by intros i ?%elem_of_nil|]. apply tally_nodes.
  - intros Hb. exists [(self, depth)].
    set (st1 := record_entry self depth
                  (with_nodes (alter decrement_indegree self) st)) in *.
    assert (Hlast : last_state
              (node_body model measure test_case self (decrement_indegree n)
                 depth st1) = Some st').
    { destruct (node_body _ _ _ _ _ _ _); [done|done|done]. }
    split_and!.
    + pose proof (node_body_frame _ _ _ _ _ _ _ _ Hlast) as (_ & _ & -> & _).
      done.
    + intros i [->|[]%elem_of_nil]%elem_of_cons. by eapply lookup_lt_Some.
    + apply (node_body_tally _ _ _ _ _ _ _ _ Hlast).
Qed.

Lemma entries_zero (i : node_id) (l : list (node_id * Z)) :
  entries i l = 0 → i ∉ l.*1.
Proof.
  induction l as [|[j d] l IH]; [intros _; apply not_elem_of_nil|].
  change ((j, d) :: l) with ([(j, d)] ++ l).
  rewrite entries_app, entries_singleton, fmap_app, not_elem_of_app.
  destruct (decide (j = i)); [lia|]. intros Hl. split; [|by apply IH].
  by intros ->%list_elem_of_singleton.
Qed.

Lemma entries_NoDup (l : list (node_id * Z)) :
  (∀ i, entries i l ≤ 1) → NoDup l.*1.
Proof.
  induction l as [|[j d] l IH]; intros Hle; [apply NoDup_nil_2|].
  rewrite fmap_cons. apply NoDup_cons. split.
  - apply entries_zero. specialize (Hle j).
    change ((j, d) :: l) with ([(j, d)] ++ l) in Hle.
    rewrite entries_app, entries_singleton, decide_True in Hle by done.
    simpl. lia.
  - apply IH. intros i. specialize (Hle i).
    change ((j, d) :: l) with ([(j, d)] ++ l) in Hle.
    rewrite entries_app in Hle. lia.
Qed.

Lemma NoDup_bounded_length (l : list node_id) (N : nat) :
  NoDup l → (∀ i, i ∈ l → i < N) → length l ≤ N.
Proof.
  intros Hnd Hb. rewrite <- (length_seq N 0).
  apply submseteq_length, NoDup_submseteq; [done|].
  intros i Hi. apply elem_of_seq. specialize (Hb i Hi). lia.
Qed.



(** ** What a node writes *)

Lemma local_refl `{Collaborators} self (st : State) : local self st st.
Proof. by split. Qed.

Lemma local_trans `{Collaborators} self (st1 st2 st3 : State) :
  local self st1 st2 → local self st2 st3 → local self st1 st3.
Proof.
  intros [Hn1 Hs1] [Hn2 Hs2]. split; [|congruence].
  intros i Hi. by rewrite Hn2, Hn1.
Qed.

Lemma local_alter `{Collaborators} (f : Node → Node) self (st : State) :
  local self st (with_nodes (alter f self) st).
Proof.
  split; [|done]. intros i Hi. simpl. by apply list_lookup_alter_ne.
Qed.

Lemma generate_with_schema_local `{Collaborators} model prompt sc self
    (st st' : State) r :
  generate_with_schema model prompt sc st = (r, st') → local self st st'.
Proof.
  intros (Hn & Hs & _)%generate_with_schema_metric. split; [|done].
  intros i _. by rewrite Hn.
Qed.

Lemma append_own_log_local `{Collaborators} self depth (st st' : State) :
  last_state (append_own_log self depth st) = Some st' → local self st st'.
Proof.
  unfold append_own_log. destruct (nodes st !! self) as [n|]; [|done].
  by destruct (construct_node_verbose_log n depth); intros [= <-].
Qed.

Lemma TaskNode_body_local `{Collaborators} model test_case self t depth
    (st st' : State) :
  last_state (TaskNode_body model test_case self t depth st) = Some st' →
  local self st st'.
Proof.
  unfold TaskNode_body, call_generate.
  destruct (tn_evaluation_params t) as [params|];
    [|intros [= <-]; apply local_refl].
  destruct (generate model _ _) as [res cost|e]; [|by intros [= <-]].
  intros Hlog%append_own_log_local.
  eapply local_trans; [|exact Hlog].
  destruct (using_native_model _); split; try done;
    intros i Hi; simpl; by apply list_lookup_alter_ne.
Qed.

Lemma judge_and_log_local `{Collaborators} model self depth prompt sc
    (st st' : State) :
  last_state (judge_and_log model self depth prompt sc st) = Some st' →
  local self st st'.
Proof.
  unfold judge_and_log.
  destruct (generate_with_schema model prompt sc st) as [[e|res] st1] eqn:Hg;
    apply (generate_with_schema_local _ _ _ self) in Hg.
  - by intros [= <-].
  - intros Hlog%append_own_log_local.
    eapply local_trans; [exact Hg|].
    eapply local_trans; [|exact Hlog]. apply local_alter.
Qed.

(** A verdict node writes to no node at all; the score it leaves is the
    one it found, a tenth of its own, or the nested evaluator's. *)
Lemma VerdictNode_resolve_score `{Collaborators} model measure test_case
    self v depth (st st' : State) :
  last_state (VerdictNode_resolve model measure test_case self v depth st)
    = Some st' →
  nodes st' = nodes st
  ∧ (score (metric st') = score (metric st)
     ∨ is_Some (vn_g_eval v)
     ∨ ∃ s, vn_score v = Some s ∧ score (metric st') = Some (tenth s)).
Proof.
  unfold VerdictNode_resolve.
  assert (Hlog : ∀ st1, last_state (append_own_log self depth st) = Some st1 →
            nodes st1 = nodes st ∧ score (metric st1) = score (metric st)).
  { unfold append_own_log. intros st1.
    destruct (nodes st !! self) as [n|]; [|done].
    by destruct (construct_node_verbose_log n depth); intros [= <-]. }
  destruct (append_own_log self depth st) as [st1|e st1|]; [| |done].
  2: { intros [= <-]. destruct (Hlog _ eq_refl) as [-> ->]. auto. }
  destruct (Hlog _ eq_refl) as [<- <-]. clear Hlog.
  destruct (vn_g_eval v) as [g|].
  - destruct (measure _ test_case) as [[s r] cost|e]; simpl.
    + destruct (include_reason (metric st1)); intros [= <-]; eauto.
    + intros [= <-]. eauto.
  - destruct (vn_score v) as [s|]; simpl; [|intros [= <-]; auto].
    destruct (include_reason (metric st1)).
    + unfold _generate_reason.
      match goal with
      | |- context [generate_with_schema ?md ?p ?sc ?s0] =>
          destruct (generate_with_schema md p sc s0) as [[e|r] st3] eqn:Hcall
      end; apply generate_with_schema_metric in Hcall as (Hn & Hs & _);
        simpl in *; intros [= <-]; simpl; rewrite Hn, ?Hs; eauto 6.
    + intros [= <-]. simpl. eauto 6.
Qed.

Lemma node_body_local `{Collaborators} model measure test_case self n depth
    (st st' : State) :
  last_state (node_body model measure test_case self n depth st) = Some st' →
  (∀ i, i ≠ self → nodes st' !! i = nodes st !! i)
  ∧ (score (metric st') = score (metric st)
     ∨ ∃ v, body n = Verdict v
            ∧ (is_Some (vn_g_eval v)
               ∨ ∃ s, vn_score v = Some s
                      ∧ score (metric st') = Some (tenth s))).
Proof.
  assert (Hloc : local self st st' →
            (∀ i, i ≠ self → nodes st' !! i = nodes st !! i)
            ∧ (score (metric st') = score (metric st)
               ∨ ∃ v, body n = Verdict v
                      ∧ (is_Some (vn_g_eval v)
                         ∨ ∃ s, vn_score v = Some s
                                ∧ score (metric st') = Some (tenth s))))
    by (intros [? ?]; auto).
  unfold node_body. destruct (body n) as [v|t|b|nb].
  - assert (Hres : last_state
              (VerdictNode_resolve model measure test_case self v depth st)
              = Some st' →
            (∀ i, i ≠ self → nodes st' !! i = nodes st !! i)
            ∧ (score (metric st') = score (metric st)
               ∨ ∃ v0, Verdict v = Verdict v0
                       ∧ (is_Some (vn_g_eval v0)
                          ∨ ∃ s, vn_score v0 = Some s
                                 ∧ score (metric st') = Some (tenth s)))).
    { intros (Hn & Hs)%VerdictNode_resolve_score. split.
      - intros i _. by rewrite Hn.
      - destruct Hs as [Hs|Hs]; [by left|]. right. by exists v. }
    unfold VerdictNode_body.
    destruct (judgement_parent (nodes st) v) as [pv|]; [|exact Hres].
    destruct (resolved_verdict pv) as [e|[l why]];
      [intros [= <-]; apply Hloc, local_refl|].
    case_bool_decide; [intros [= <-]; apply Hloc, local_refl|exact Hres].
  - intros Ht%TaskNode_body_local. by apply Hloc.
  - unfold BinaryJudgementNode_body. destruct (bj_parents b).
    + intros Ht%judge_and_log_local. by apply Hloc.
    + intros [= <-]. apply Hloc, local_refl.
  - unfold NonBinaryJudgementNode_body. destruct (nb_parents nb).
    + intros Ht%judge_and_log_local. by apply Hloc.
    + intros [= <-]. apply Hloc, local_refl.
Qed.

Lemma confined_refl `{Collaborators} (st : State) : confined st st.
Proof. split; [done|]. exists []. by rewrite app_nil_r. Qed.

Lemma confined_trans `{Collaborators} (st1 st2 st3 : State) :
  confined st1 st2 → confined st2 st3 → confined st1 st3.
Proof.
  intros (Hsk1 & new1 & E1 & H1) (Hsk2 & new2 & E2 & H2).
  split; [congruence|].
  exists (new1 ++ new2). split; [by rewrite E2, E1, app_assoc|].
  intros i. rewrite fmap_app, not_elem_of_app. intros [Hi1 Hi2].
  by rewrite H2, H1.
Qed.

Lemma scored_refl `{Collaborators} (st : State) : scored st st.
Proof. split; [done|]. exists []. rewrite app_nil_r. auto. Qed.

Lemma scored_trans `{Collaborators} (st1 st2 st3 : State) :
  scored st1 st2 → scored st2 st3 → scored st1 st3.
Proof.
  intros (Hsk1 & new1 & E1 & H1) (Hsk2 & new2 & E2 & H2).
  split; [congruence|].
  exists (new1 ++ new2). split; [by rewrite E2, E1, app_assoc|].
  destruct H2 as [H2|(i & v & Hi & Hv & Hs)].
  - destruct H1 as [H1|(i & v & Hi & Hv & Hs)]; [left; congruence|].
    right. exists i, v. split; [rewrite fmap_app, elem_of_app; by left|].
    split; [done|]. destruct Hs as [Hs|(s & Hs & Hq)]; [by left|].
    right. exists s. split; [done|congruence].
  - right. exists i, v. split; [rewrite fmap_app, elem_of_app; by right|].
    split; [by rewrite <- Hsk1|done].
Qed.

(** Past the join check a visit leaves what its node's body leaves. *)
Lemma visit_let_through `{Collaborators} model measure test_case self depth
    (st st' : State) (n : Node) :
  nodes st !! self = Some n →
  _indegree (decrement_indegree n) = Some 0%Z →
  visited (visit model measure test_case self depth st) = Some st' →
  last_state
    (node_body model measure test_case self (decrement_indegree n) depth
       (record_entry self depth
          (with_nodes (alter decrement_indegree self) st))) = Some st'.
Proof.
  intros Hself Hzero. unfold visit. rewrite Hself.
  rewrite bool_decide_eq_false_2 by (intros Hne; by apply Hne).
  by destruct (node_body _ _ _ _ _ _ _).
Qed.

Lemma visit_held_back `{Collaborators} model measure test_case self depth
    (st st' : State) (n : Node) :
  nodes st !! self = Some n →
  _indegree (decrement_indegree n) ≠ Some 0%Z →
  visited (visit model measure test_case self depth st) = Some st' →
  st' = with_nodes (alter decrement_indegree self) st.
Proof.
  intros Hself Hzero. unfold visit. rewrite Hself.
  rewrite bool_decide_eq_true_2 by done. by intros [= <-].
Qed.

Lemma visit_confined `{Collaborators} model measure test_case self depth
    (st st' : State) :
  visited (visit model measure test_case self depth st) = Some st' →
  confined st st'.
Proof.
  intros Hv.
  destruct (visit_effect _ _ _ _ _ _ _ Hv) as (n & Hself & Hsk & _ & _ & Hent).
  split; [done|]. eexists. split; [exact Hent|].
  assert (Hdec : ∀ i, body <$> alter decrement_indegree self (nodes st) !! i
                      = body <$> nodes st !! i).
  { intros i. rewrite list_lookup_alter.
    destruct (decide (self = i)) as [->|]; [|done].
    by destruct (nodes st !! i). }
  case_bool_decide as Hzero.
  - intros i Hi.
    assert (i ≠ self) as Hne.
    { intros ->. apply Hi. rewrite fmap_cons. by left. }
    pose proof (visit_let_through _ _ _ _ _ _ _ _ Hself Hzero Hv) as Hb.
    apply node_body_local in Hb as [Hb _].
    rewrite (Hb i Hne). simpl. apply Hdec.
  - intros i _.
    rewrite (visit_held_back _ _ _ _ _ _ _ _ Hself Hzero Hv). simpl.
    apply Hdec.
Qed.

Lemma visit_scored `{Collaborators} model measure test_case self depth
    (st st' : State) :
  visited (visit model measure test_case self depth st) = Some st' →
  scored st st'.
Proof.
  intros Hv.
  destruct (visit_effect _ _ _ _ _ _ _ Hv) as (n & Hself & Hsk & _ & _ & Hent).
  split; [done|]. eexists. split; [exact Hent|].
  case_bool_decide as Hzero.
  - pose proof (visit_let_through _ _ _ _ _ _ _ _ Hself Hzero Hv) as Hb.
    apply node_body_local in Hb as [_ [Hs|(v & Hv' & Hs)]]; [by left|].
    right. exists self, v. split; [rewrite fmap_cons; by left|].
    split; [|done].
    rewrite list_lookup_fmap, Hself. simpl. unfold skeleton.
    rewrite decrement_indegree_body in Hv'. by rewrite Hv'.
  - left. by rewrite (visit_held_back _ _ _ _ _ _ _ _ Hself Hzero Hv).
Qed.



Lemma skeleton_Verdict `{Collaborators} (h : heap) (i : node_id) v :
  (skeleton <$> h) !! i = Some (Verdict v) →
  ∃ n, h !! i = Some n ∧ body n = Verdict v.
Proof.
  rewrite list_lookup_fmap. destruct (h !! i) as [n|]; [|done].
  unfold skeleton. simpl. intros [= Hv]. exists n. split; [done|].
  by destruct (body n).
Qed.

Lemma tenth_range (s : Z) : (0 ≤ s ≤ 10)%Z → (0 <= tenth s <= 1)%Q.
Proof.
  intros Hs. unfold tenth, Qle, Qdiv, Qmult, Qinv, inject_Z. simpl. lia.
Qed.



(** ** The accounting of a pass *)

Lemma spawn_targets (depth : Z) (children : list node_id) :
  (spawn depth children).*1 = children.
Proof.
  unfold spawn. rewrite <- list_fmap_compose.
  induction children as [|c cs IH]; [done|].
  rewrite fmap_cons, IH. done.
Qed.

Lemma pushed_snoc `{Collaborators} (sk : list node_class) (E : list node_id)
    (self i : node_id) :
  pushed sk (E ++ [self]) i = pushed sk E i + occ i (kids sk self).
Proof.
  unfold pushed. rewrite bind_app, occ_app. simpl. by rewrite app_nil_r.
Qed.

Lemma level_dec_counter (c : option Z) :
  level (dec_counter c) = (level c - 1)%Z.
Proof. by destruct c. Qed.

Lemma level_iter_dec_counter (c : option Z) (v : nat) :
  level (Nat.iter v dec_counter c) = (level c - Z.of_nat v)%Z.
Proof.
  induction v as [|v IH]; [simpl; lia|].
  rewrite Nat.iter_succ, level_dec_counter, IH. lia.
Qed.

Lemma dec_counter_zero (c : option Z) :
  dec_counter c = Some 0%Z ↔ level c = 1%Z.
Proof.
  destruct c as [k|]; simpl; [|done].
  split; [intros [= ?]; lia|intros ->; done].
Qed.

Lemma decrement_indegree_counter `{Collaborators} (n : Node) :
  _indegree (decrement_indegree n) = dec_counter (_indegree n).
Proof. done. Qed.

(** The outcome of a visit tells whether the counter arrived at zero. *)
Lemma visit_cases `{Collaborators} model measure test_case self depth
    (st : State) (n : Node) :
  nodes st !! self = Some n →
  match visit model measure test_case self depth st with
  | Returned _ => dec_counter (_indegree n) ≠ Some 0%Z
  | Proceeds _ _ => dec_counter (_indegree n) = Some 0%Z
  | _ => True
  end.
Proof.
  intros Hn. unfold visit. rewrite Hn, decrement_indegree_counter.
  case_bool_decide as Hz; [done|].
  destruct (node_body _ _ _ _ _ _ _); [|done|done].
  destruct (decide (dec_counter (_indegree n) = Some 0%Z)); [done|].
  by destruct Hz.
Qed.

Lemma accounted_start `{Collaborators} (st : State) (root : node_id)
    (depth : Z) :
  entered st = [] → root < length (nodes st) →
  accounted st root (st, [(root, depth)]).
Proof.
  intros Hent Hroot. split; simpl; rewrite ?Hent.
  - done.
  - apply NoDup_nil_2.
  - intros i [Hi|Hi].
    + apply list_elem_of_singleton in Hi as ->. lia.
    + by apply elem_of_nil in Hi.
  - intros i Hi. exists 0.
    assert (is_Some (counters st !! i)) as [c Hc].
    { apply lookup_lt_is_Some. unfold counters. by rewrite length_fmap. }
    rewrite Hc. simpl. split; [done|]. split.
    + rewrite occ_cons, occ_nil. unfold pushed. simpl. rewrite occ_nil.
      destruct (decide (root = i)), (decide (i = root)); congruence || lia.
    + unfold let_through. split; [by intros ?%elem_of_nil|lia].
Qed.

Lemma visit_counter `{Collaborators} model measure test_case self depth
    (st st' : State) (i : node_id) (c0 : option Z) (v : nat) :
  visited (visit model measure test_case self depth st) = Some st' →
  counters st !! i = Some (Nat.iter v dec_counter c0) →
  counters st' !! i
  = Some (Nat.iter (if decide (i = self) then S v else v) dec_counter c0).
Proof.
  intros (n & Hself & _ & Hcnt & _)%visit_effect Hi. rewrite Hcnt.
  destruct (decide (i = self)) as [->|Hne].
  - rewrite list_lookup_insert_eq by (by eapply lookup_lt_Some).
    unfold counters in Hi. rewrite list_lookup_fmap, Hself in Hi.
    injection Hi as Hi.
    by rewrite decrement_indegree_counter, Hi.
  - by rewrite list_lookup_insert_ne.
Qed.

(** The counter a visit finds, in terms of the visits made so far. *)
Lemma visit_finds `{Collaborators} (st : State) (self : node_id) (n : Node)
    (c0 : option Z) (v : nat) :
  nodes st !! self = Some n →
  counters st !! self = Some (Nat.iter v dec_counter c0) →
  level (_indegree n) = (level c0 - Z.of_nat v)%Z.
Proof.
  intros Hself Hctr. unfold counters in Hctr.
  rewrite list_lookup_fmap, Hself in Hctr. injection Hctr as ->.
  apply level_iter_dec_counter.
Qed.

Lemma accounted_step `{Collaborators} model measure test_case
    (st0 : State) (root : node_id) (cfg cfg' : State * list (node_id * Z)) :
  acyclic (skeleton <$> nodes st0) →
  accounted st0 root cfg →
  step model measure test_case cfg cfg' →
  accounted st0 root cfg'.
Proof.
  intros Hacyc [Hg Hnd Hb Hc] Hstep.
  destruct Hstep as [st st' self depth before after Hv
                    |st st' self depth before after children pending' Hv Hperm];
    simpl in *.
  - assert (Hvis : visited (visit model measure test_case self depth st)
                   = Some st') by (by rewrite Hv).
    destruct (visit_effect _ _ _ _ _ _ _ Hvis)
      as (n & Hself & Hsk & _ & _ & Hent).
    pose proof (visit_cases model measure test_case self depth st n Hself)
      as Hcase.
    rewrite Hv in Hcase.
    rewrite decrement_indegree_counter, bool_decide_eq_false_2, app_nil_r
      in Hent by done.
    split; simpl.
    + congruence.
    + by rewrite Hent.
    + intros i Hi. apply Hb. rewrite Hent in Hi.
      destruct Hi as [Hi|Hi]; [left|by right].
      rewrite fmap_app, elem_of_app in Hi.
      rewrite fmap_app, fmap_cons, elem_of_app, elem_of_cons. tauto.
    + intros i Hi. destruct (Hc i Hi) as (v & Hctr & Hsum & Hin).
      exists (if decide (i = self) then S v else v).
      split; [by eapply visit_counter|].
      rewrite Hent.
      rewrite fmap_app, fmap_cons, occ_app, occ_cons in Hsum.
      rewrite fmap_app, occ_app. simpl in Hsum.
      destruct (decide (i = self)) as [->|Hne].
      * rewrite decide_True in Hsum by done. split; [lia|].
        rewrite Hin. unfold let_through.
        pose proof (visit_finds _ _ _ _ _ Hself Hctr) as Hlevel.
        rewrite dec_counter_zero in Hcase. lia.
      * rewrite decide_False in Hsum by congruence. split; [lia|done].
  - assert (Hvis : visited (visit model measure test_case self depth st)
                   = Some st') by (by rewrite Hv).
    destruct (visit_effect _ _ _ _ _ _ _ Hvis)
      as (n & Hself & Hsk & _ & _ & Hent).
    pose proof (visit_cases model measure test_case self depth st n Hself)
      as Hcase.
    rewrite Hv in Hcase.
    rewrite decrement_indegree_counter, bool_decide_eq_true_2 in Hent by done.
    pose proof (visit_proceeds_children _ _ _ _ _ _ _ _ Hv) as Hkids.
    rewrite Hg in Hkids. subst children.
    assert (Hselfb : self ≤ root ∧ self < length (nodes st0)).
    { apply Hb. left. rewrite fmap_app, fmap_cons, elem_of_app, elem_of_cons.
      auto. }
    assert (Htargets : pending'.*1
              ≡ₚ before.*1 ++ after.*1
                 ++ kids (skeleton <$> nodes st0) self).
    { rewrite Hperm, !fmap_app, spawn_targets. done. }
    destruct (Hc self (proj2 Hselfb)) as (vs & Hctrs & _ & Hins).
    pose proof (visit_finds _ _ _ _ _ Hself Hctrs) as Hlevel.
    rewrite dec_counter_zero in Hcase.
    split; simpl.
    + congruence.
    + rewrite Hent, fmap_app. apply NoDup_app. split; [done|]. split.
      * intros i Hi ->%list_elem_of_singleton.
        apply Hins in Hi. unfold let_through in Hi. lia.
      * apply NoDup_singleton.
    + intros i Hi. rewrite Hent, Htargets in Hi.
      rewrite fmap_app, !elem_of_app in Hi. simpl in Hi.
      rewrite list_elem_of_singleton in Hi.
      destruct Hi as [[Hi|[Hi|Hi]]|[Hi| ->]]; try done.
      * apply Hb. left. rewrite fmap_app, fmap_cons, elem_of_app, elem_of_cons.
        auto.
      * apply Hb. left. rewrite fmap_app, fmap_cons, elem_of_app, elem_of_cons.
        auto.
      * apply Hacyc in Hi. lia.
      * apply Hb. by right.
    + intros i Hi. destruct (Hc i Hi) as (v & Hctr & Hsum & Hin).
      exists (if decide (i = self) then S v else v).
      split; [by eapply visit_counter|].
      rewrite Hent, fmap_app. simpl. rewrite pushed_snoc.
      rewrite (occ_Permutation _ _ _ Htargets), !occ_app.
      rewrite fmap_app, fmap_cons, occ_app, occ_cons in Hsum. simpl in Hsum.
      rewrite elem_of_app, list_elem_of_singleton.
      destruct (decide (i = self)) as [->|Hne].
      * rewrite decide_True in Hsum by done. split; [lia|].
        assert (vs = v) as -> by (rewrite Hctrs in Hctr; injection Hctr;
          intros Heq; apply (f_equal level) in Heq;
          rewrite !level_iter_dec_counter in Heq; lia).
        unfold let_through. split; [lia|auto].
      * rewrite decide_False in Hsum by congruence. split; [lia|].
        rewrite <- Hin. split; [by intros [?|?]|auto].
Qed.

Lemma accounted_steps `{Collaborators} model measure test_case
    (st0 : State) (root : node_id) (cfg cfg' : State * list (node_id * Z)) :
  acyclic (skeleton <$> nodes st0) →
  accounted st0 root cfg →
  rtc (step model measure test_case) cfg cfg' →
  accounted st0 root cfg'.
Proof.
  intros Hacyc Hacc Hsteps. induction Hsteps as [|cfg1 cfg2 cfg3 Hstep _ IH];
    [done|].
  apply IH. by eapply accounted_step.
Qed.

Lemma pushed_cons `{Collaborators} (sk : list node_class) (E : list node_id)
    (j i : node_id) :
  pushed sk (j :: E) i = occ i (kids sk j) + pushed sk E i.
Proof. unfold pushed. simpl. by rewrite occ_app. Qed.

Lemma pushed_Permutation `{Collaborators} (sk : list node_class)
    (E1 E2 : list node_id) (i : node_id) :
  E1 ≡ₚ E2 → pushed sk E1 i = pushed sk E2 i.
Proof. intros HE. unfold pushed. apply occ_Permutation. by rewrite HE. Qed.

(** On a graph whose children are older than their parents only younger
    nodes set off visits of [i]. *)
Lemma pushed_filter `{Collaborators} (sk : list node_class)
    (E : list node_id) (i : node_id) :
  acyclic sk → pushed sk E i = pushed sk (filter (λ j, i < j) E) i.
Proof.
  intros Hacyc. induction E as [|j E IH]; [done|].
  rewrite filter_cons, pushed_cons, IH.
  destruct (decide (i < j)) as [Hlt|Hge]; [by rewrite pushed_cons|].
  assert (occ i (kids sk j) = 0) as ->; [|done].
  apply occ_zero. intros Hin. apply Hacyc in Hin. lia.
Qed.

(** Two schedules that ran out of pending visits have let the same nodes
    through and left the same counters. *)
Lemma accounted_final_agree `{Collaborators} (st0 st1 st2 : State)
    (root : node_id) :
  acyclic (skeleton <$> nodes st0) →
  accounted st0 root (st1, []) →
  accounted st0 root (st2, []) →
  (entered st1).*1 ≡ₚ (entered st2).*1 ∧ counters st1 = counters st2.
Proof.
  intros Hacyc [Hg1 Hnd1 Hb1 Hc1] [Hg2 Hnd2 Hb2 Hc2]. simpl in *.
  set (E1 := (entered st1).*1) in *. set (E2 := (entered st2).*1) in *.
  set (sk := skeleton <$> nodes st0) in *.
  assert (Hmem : ∀ m i, root < i + m → (i ∈ E1 ↔ i ∈ E2)).
  { induction m as [|m IH]; intros i Hi.
    - split; intros Hin.
      + assert (i ≤ root) by (apply Hb1; by right). lia.
      + assert (i ≤ root) by (apply Hb2; by right). lia.
    - destruct (decide (i < length (nodes st0))) as [HiN|HiN].
      2: { split; intros Hin.
           - assert (i < length (nodes st0)) by (apply Hb1; by right). lia.
           - assert (i < length (nodes st0)) by (apply Hb2; by right). lia. }
      destruct (Hc1 i HiN) as (v1 & _ & Hs1 & Hin1).
      destruct (Hc2 i HiN) as (v2 & _ & Hs2 & Hin2).
      rewrite occ_nil in Hs1, Hs2.
      assert (Hp : pushed sk E1 i = pushed sk E2 i).
      { rewrite (pushed_filter sk E1), (pushed_filter sk E2) by done.
        apply pushed_Permutation.
        apply NoDup_Permutation; [by apply NoDup_filter..|].
        intros j. rewrite !list_elem_of_filter.
        split; intros [Hj Hin]; (split; [done|]); apply (IH j); done || lia. }
      rewrite Hin1, Hin2. assert (v1 = v2) as -> by lia. done. }
  assert (HE : E1 ≡ₚ E2).
  { apply NoDup_Permutation; [done..|]. intros i.
    apply (Hmem (S root) i). lia. }
  split; [done|].
  assert (Hlen : ∀ st, skeleton <$> nodes st = sk →
                       length (counters st) = length (nodes st0)).
  { intros st Hst. unfold counters. rewrite length_fmap.
    apply (f_equal length) in Hst. subst sk. by rewrite !length_fmap in Hst. }
  apply list_eq. intros i.
  destruct (decide (i < length (nodes st0))) as [HiN|HiN].
  - destruct (Hc1 i HiN) as (v1 & -> & Hs1 & _).
    destruct (Hc2 i HiN) as (v2 & -> & Hs2 & _).
    rewrite occ_nil in Hs1, Hs2.
    rewrite (pushed_Permutation sk E1 E2 i HE) in Hs1.
    assert (v1 = v2) as -> by lia. done.
  - rewrite !lookup_ge_None_2; [done|rewrite (Hlen st2)|rewrite (Hlen st1)];
      done || lia.
Qed.

(** X9. Which nodes run is decided by the graph, not by the strategy or
    the judge.  Take a graph whose children are older objects than their
    parents (as construction makes them) and two passes from the same
    root in the same state that both return: each may be sequential or go
    through the event loop, and they may use different judges, nested
    evaluators, test cases and starting depths.  Then both let exactly the
    same nodes through their join checks, each node once, and leave every
    join counter at the same value. *)
Theorem nodes_let_through_do_not_depend_on_the_strategy `{Collaborators}
    model measure test_case model' measure' test_case'
    (st st1 st2 : State) (root : node_id) (depth depth' : Z)
    (fuel fuel' : nat) :
  acyclic (skeleton <$> nodes st) →
  entered st = [] →
  _execute model measure test_case fuel root depth st = Done st1
  ∨ _a_execute model measure test_case fuel root depth st = Done st1 →
  _execute model' measure' test_case' fuel' root depth' st = Done st2
  ∨ _a_execute model' measure' test_case' fuel' root depth' st = Done st2 →
  (entered st1).*1 ≡ₚ (entered st2).*1
  ∧ NoDup (entered st1).*1
  ∧ NoDup (entered st2).*1
  ∧ counters st1 = counters st2.
Proof.
  intros Hacyc Hent Hrun1 Hrun2.
  assert (Hroot : root < length (nodes st)).
  { destruct (decide (root < length (nodes st))) as [|Hge]; [done|].
    exfalso.
    assert (Hnone : nodes st !! root = None)
      by (apply lookup_ge_None_2; lia).
    destruct fuel as [|fuel]; [by destruct Hrun1|].
    unfold _a_execute in Hrun1. cbn [_execute event_loop] in Hrun1.
    unfold visit in Hrun1. rewrite Hnone in Hrun1. by destruct Hrun1. }
  assert (Hsteps : ∀ md ms tc fl d s',
            _execute md ms tc fl root d st = Done s'
            ∨ _a_execute md ms tc fl root d st = Done s' →
            accounted st root (s', [])).
  { intros md ms tc fl d s' Hrun.
    apply (accounted_steps md ms tc st root (st, [(root, d)])); [done| |].
    - by apply accounted_start.
    - destruct Hrun as [Hrun|Hrun].
      + by apply (_execute_steps md ms tc fl).
      + by apply (event_loop_steps md ms tc fl). }
  pose proof (Hsteps _ _ _ _ _ _ Hrun1) as Hacc1.
  pose proof (Hsteps _ _ _ _ _ _ Hrun2) as Hacc2.
  destruct (accounted_final_agree st st1 st2 root Hacyc Hacc1 Hacc2)
    as [HE Hcnt].
  split_and!; [done| | |done].
  - apply (acc_nodup _ _ _ Hacc1).
  - apply (acc_nodup _ _ _ Hacc2).
Qed.

Lemma acyclic_check_sound `{Collaborators} (sk : list node_class) :
  acyclic_check sk = true → acyclic sk.
Proof.
  unfold acyclic_check. rewrite forallb_forall. intros Hall i c Hc.
  unfold kids in Hc. destruct (sk !! i) as [cl|] eqn:Hi;
    [|by apply elem_of_nil in Hc].
  specialize (Hall (i, cl)). rewrite forallb_forall in Hall.
  apply Nat.ltb_lt, (Hall); [|by apply list_elem_of_In].
  apply list_elem_of_In. apply (list_elem_of_lookup_2 _ i).
  rewrite lookup_zip_with, lookup_seq_lt by (by eapply lookup_lt_Some).
  simpl. by rewrite Hi.
Qed.

Lemma nodes_let_through_do_not_depend_on_the_strategy_witness :
  ∃ st1 st2 : @State stub,
    _execute yes_judge no_measure stub_case 8 7 0
      (start two_branches (fresh_metric false false)) = Done st1
    ∧ _a_execute yes_judge no_measure stub_case 20 7 0
        (start two_branches (fresh_metric false false)) = Done st2
    ∧ (entered st1).*1 = [7; 3; 2; 0; 1; 6; 4; 5]
    ∧ (entered st2).*1 = [7; 3; 6; 2; 4; 5; 0; 1]
    ∧ (entered st1).*1 ≡ₚ (entered st2).*1
    ∧ counters st1 = counters st2.
Proof.
  destruct (_execute yes_judge no_measure stub_case 8 7 0
              (start two_branches (fresh_metric false false)))
    as [st1| |] eqn:Hrun1; [|by vm_compute in Hrun1..].
  destruct (_a_execute yes_judge no_measure stub_case 20 7 0
              (start two_branches (fresh_metric false false)))
    as [st2| |] eqn:Hrun2; [|by vm_compute in Hrun2..].
  assert (Hacyc : acyclic (H := stub) (skeleton <$> two_branches))
    by (apply acyclic_check_sound; vm_compute; reflexivity).
  destruct (nodes_let_through_do_not_depend_on_the_strategy (H := stub)
              yes_judge no_measure stub_case yes_judge no_measure stub_case
              (start two_branches (fresh_metric false false)) st1 st2
              7 0%Z 0%Z 8 20 Hacyc eq_refl
              (or_introl Hrun1) (or_intror Hrun2))
    as (Hperm & _ & _ & Hcnt).
  exists st1, st2. split; [done|]. split; [done|].
  split; [vm_compute in Hrun1; by injection Hrun1 as <-|].
  split; [vm_compute in Hrun2; by injection Hrun2 as <-|].
  done.
Defined.

(** ** Where the strategies part *)

(** X10. The two strategies are not interchangeable.  There is a graph,
    built children first, with a judge and a test case for which the
    sequential pass and the pass through the event loop both return but
    leave different scores: verdict nodes in different branches both
    resolve, and the last one to run writes the score that stays.  And
    there is such a graph on which one and the same node is let through at
    different depths, so that the two logs are not even the same blocks in
    a different order. *)
Theorem strategies_can_disagree :
  (∃ (h : list (@Node stub)) (root : node_id) (st1 st2 : @State stub)
     (q1 q2 : Q),
     acyclic (skeleton <$> h)
     ∧ _execute yes_judge no_measure stub_case (length h) root 0
         (start h (fresh_metric false false)) = Done st1
     ∧ _a_execute yes_judge no_measure stub_case (3 * length h) root 0
         (start h (fresh_metric false false)) = Done st2
     ∧ score (metric st1) = Some q1
     ∧ score (metric st2) = Some q2
     ∧ ¬ (q1 == q2)%Q)
  ∧ (∃ (h : list (@Node stub)) (root : node_id) (st1 st2 : @State stub)
       (i : node_id) (d1 d2 : Z) (block : string),
       acyclic (skeleton <$> h)
       ∧ _execute yes_judge no_measure stub_case (length h) root 0
           (start h (fresh_metric false false)) = Done st1
       ∧ _a_execute yes_judge no_measure stub_case (3 * length h) root 0
           (start h (fresh_metric false false)) = Done st2
       ∧ (i, d1) ∈ entered st1
       ∧ (i, d2) ∈ entered st2
       ∧ d1 ≠ d2
       ∧ block ∈ _verbose_steps (metric st1)
       ∧ block ∉ _verbose_steps (metric st2)).
Proof.
  split.
  - exists two_branches, 7.
    destruct (_execute yes_judge no_measure stub_case (length two_branches) 7
                0 (start two_branches (fresh_metric false false)))
      as [st1| |] eqn:Hrun1; [|by vm_compute in Hrun1..].
    destruct (_a_execute yes_judge no_measure stub_case
                (3 * length two_branches) 7 0
                (start two_branches (fresh_metric false false)))
      as [st2| |] eqn:Hrun2; [|by vm_compute in Hrun2..].
    exists st1, st2, (tenth 0), (tenth 10).
    split; [apply acyclic_check_sound; vm_compute; reflexivity|].
    split; [done|]. split; [done|].
    vm_compute in Hrun1. injection Hrun1 as <-.
    vm_compute in Hrun2. injection Hrun2 as <-.
    split; [reflexivity|]. split; [reflexivity|].
    unfold tenth, Qeq. simpl. lia.
  - exists diamond, 4.
    destruct (_execute yes_judge no_measure stub_case (length diamond) 4
                0 (start diamond (fresh_metric false false)))
      as [st1| |] eqn:Hrun1; [|by vm_compute in Hrun1..].
    destruct (_a_execute yes_judge no_measure stub_case
                (3 * length diamond) 4 0
                (start diamond (fresh_metric false false)))
      as [st2| |] eqn:Hrun2; [|by vm_compute in Hrun2..].
    exists st1, st2, 2, 1%Z, 2%Z,
      (judgement_log true "shared" (VBool true) "ok" 1).
    split; [apply acyclic_check_sound; vm_compute; reflexivity|].
    split; [done|]. split; [done|].
    vm_compute in Hrun1. injection Hrun1 as <-.
    vm_compute in Hrun2. injection Hrun2 as <-.
    split_and!.
    + apply (bool_decide_unpack _). by vm_compute.
    + apply (bool_decide_unpack _). by vm_compute.
    + done.
    + apply (bool_decide_unpack _). by vm_compute.
    + apply (bool_decide_unpack _). by vm_compute.
Qed.

(** ** Graphs as construction leaves them *)

Lemma bind_ext_in {A B} (f g : A → list B) (l : list A) :
  (∀ x, x ∈ l → f x = g x) → l ≫= f = l ≫= g.
Proof.
  induction l as [|x l IH]; intros Hfg; [done|].
  rewrite !bind_cons, IH, (Hfg x).
  - done.
  - by left.
  - intros y Hy. apply Hfg. by right.
Qed.

Lemma children_of_iter_register `{Collaborators} (self : node_id) (k : nat)
    (n : Node) :
  children_of (Nat.iter k (λ n, increment_indegree (set_parent self n)) n)
  = children_of n.
Proof.
  destruct k as [|k]; [done|].
  unfold children_of. rewrite iter_register_body. by destruct (body n).
Qed.

Lemma register_children_kids `{Collaborators} self children (h : heap)
    (j : node_id) :
  kids (skeleton <$> register_children self children h) j
  = kids (skeleton <$> h) j.
Proof.
  unfold kids. rewrite !list_lookup_fmap, register_children_lookup.
  destruct (h !! j) as [n|]; [|done]. simpl.
  by rewrite <- !children_of_skeleton, children_of_iter_register.
Qed.

Lemma kids_app_l `{Collaborators} (h : heap) (n : Node) (j : node_id) :
  j < length h → kids (skeleton <$> (h ++ [n])) j = kids (skeleton <$> h) j.
Proof.
  intros Hj. unfold kids. by rewrite !list_lookup_fmap, lookup_app_l.
Qed.

Lemma kids_app_r `{Collaborators} (h : heap) (n : Node) :
  kids (skeleton <$> (h ++ [n])) (length h) = children_of n.
Proof. apply kids_lookup. by apply list_lookup_middle. Qed.

Lemma listings_extend `{Collaborators} (sk sk' : list node_class)
    (i : node_id) :
  length sk' = S (length sk) →
  (∀ j, j < length sk → kids sk' j = kids sk j) →
  listings sk' i
  = listings sk i ++ replicate (occ i (kids sk' (length sk))) (length sk).
Proof.
  intros Hlen Hkids. unfold listings.
  rewrite Hlen, seq_S, bind_app. simpl. rewrite app_nil_r. f_equal.
  apply bind_ext_in. intros j Hj%elem_of_seq. rewrite Hkids; [done|lia].
Qed.

Lemma length_listings `{Collaborators} (sk : list node_class) (i : node_id) :
  length (listings sk i) = pushed sk (seq 0 (length sk)) i.
Proof.
  unfold listings, pushed.
  induction (seq 0 (length sk)) as [|j l IH]; [done|].
  rewrite !bind_cons, length_app, occ_app, length_replicate, IH. done.
Qed.

Lemma listings_nil `{Collaborators} (sk : list node_class) (i : node_id) :
  acyclic sk → length sk ≤ S i → listings sk i = [].
Proof.
  intros Hacyc Hi. apply length_zero_iff_nil. rewrite length_listings.
  unfold pushed. apply occ_zero. intros Hin.
  apply list_elem_of_bind in Hin as (j & Hin & Hj%elem_of_seq).
  apply Hacyc in Hin. lia.
Qed.

Lemma default_collected (l : list node_id) : default [] (collected l) = l.
Proof. by destruct l. Qed.

Lemma collected_snoc (l : list node_id) (x : node_id) :
  collected (l ++ [x]) = Some (l ++ [x]).
Proof. by destruct l. Qed.

(** Registration keeps a graph well formed. *)
Lemma register_well_formed `{Collaborators} (h : heap) (fresh : Node)
    (children : list node_id) :
  well_formed h →
  _indegree fresh = None →
  links_to (body fresh) [] →
  children_of fresh = children →
  (∀ c, c ∈ children → c < length h) →
  well_formed (register_children (length h) children (h ++ [fresh])).
Proof.
  intros [Hacyc Hwf] Hcounter Hlinks Hchildren Holder.
  set (h' := register_children (length h) children (h ++ [fresh])).
  assert (Hlen : length (skeleton <$> h') = S (length (skeleton <$> h))).
  { subst h'. rewrite !length_fmap, register_children_length, length_app.
    simpl. lia. }
  assert (HkidsN : kids (skeleton <$> h') (length h) = children).
  { subst h'. by rewrite register_children_kids, kids_app_r. }
  assert (Hkids : ∀ j, j < length (skeleton <$> h) →
            kids (skeleton <$> h') j = kids (skeleton <$> h) j).
  { intros j Hj. rewrite length_fmap in Hj. subst h'.
    by rewrite register_children_kids, kids_app_l. }
  assert (Hacyc' : acyclic (skeleton <$> h')).
  { intros j c Hc. destruct (decide (j < length h)) as [Hj|Hj].
    - rewrite Hkids in Hc by (by rewrite length_fmap). by apply Hacyc.
    - destruct (decide (j = length h)) as [->|Hne].
      + rewrite HkidsN in Hc. by apply Holder.
      + unfold kids in Hc.
        rewrite lookup_ge_None_2 in Hc by (rewrite Hlen, length_fmap; lia).
        by apply elem_of_nil in Hc. }
  assert (Hlist : ∀ i, listings (skeleton <$> h') i
            = listings (skeleton <$> h) i
              ++ replicate (occ i children) (length h)).
  { intros i. rewrite (listings_extend (skeleton <$> h)) by done.
    rewrite length_fmap. by rewrite HkidsN. }
  split; [done|].
  intros i n' Hn'. rewrite Hlist.
  subst h'. rewrite register_children_lookup in Hn'.
  destruct (decide (i < length h)) as [Hi|Hi].
  - rewrite lookup_app_l in Hn' by done.
    destruct (h !! i) as [n|] eqn:Hn; [|done]. injection Hn' as <-.
    destruct (Hwf i n Hn) as [Hc Hl].
    destruct (occ i children) as [|k]; [by rewrite app_nil_r|].
    rewrite iter_register_indegree, iter_register_body, length_app,
      length_replicate, Hc.
    split.
    + destruct (length (listings (skeleton <$> h) i)) as [|m]; simpl;
        f_equal; lia.
    + rewrite replicate_S_end, app_assoc.
      destruct (body n) as [v|t|b|nb]; simpl in *.
      * by rewrite last_snoc.
      * by rewrite Hl, default_collected, collected_snoc, !app_assoc.
      * by rewrite Hl, default_collected, collected_snoc, !app_assoc.
      * by rewrite Hl, default_collected, collected_snoc, !app_assoc.
  - assert (i = length h) as ->.
    { destruct ((h ++ [fresh]) !! i) as [n|] eqn:Hn; [|done].
      apply lookup_lt_Some in Hn.
      rewrite length_app in Hn. simpl in Hn. lia. }
    assert (Hnot : occ (length h) children = 0).
    { apply occ_zero. intros Hin%Holder. lia. }
    rewrite Hnot, app_nil_r in *.
    rewrite list_lookup_middle in Hn' by done. injection Hn' as <-.
    rewrite (listings_nil (skeleton <$> h) (length h))
      by (done || (rewrite length_fmap; lia)).
    done.
Qed.

Lemma is_VerdictNode_lt `{Collaborators} (h : heap) (c : node_id) :
  is_Some (is_VerdictNode h c) → c < length h.
Proof.
  intros [v (n & Hn & _)%is_VerdictNode_Some]. by eapply lookup_lt_Some.
Qed.

(** X11. The graph the constructors build.  Starting from no nodes, with
    children that are objects made before, every successful constructor
    call leaves a graph in which children are older than their parents (so
    there is no cycle), the join counter of every node is the number of
    times the graph lists it as a child (unset if it is listed nowhere),
    a task or judgement node's [_parents] holds the parents that list it,
    in the order they were made and once per listing (unset if there are
    none), and a verdict node's [_parent] is the last of them. *)
Theorem constructors_keep_graphs_well_formed `{Collaborators} (h : heap) :
  well_formed []
  ∧ (well_formed h →
     (∀ verdict score g_eval h' self,
        new_VerdictNode h verdict score g_eval = inr (h', self) →
        well_formed h')
     ∧ (∀ criteria children params h' self,
          new_BinaryJudgementNode h criteria children params = inr (h', self) →
          well_formed h')
     ∧ (∀ criteria children params h' self,
          new_NonBinaryJudgementNode h criteria children params
          = inr (h', self) →
          well_formed h')
     ∧ (∀ instructions output_label children params h' self,
          (∀ c, c ∈ children → c < length h) →
          new_TaskNode h instructions output_label children params
          = inr (h', self) →
          well_formed h')).
Proof.
  split.
  { split.
    - intros i c Hc. unfold kids in Hc. simpl in Hc.
      by apply elem_of_nil in Hc.
    - intros i n Hn. by rewrite lookup_nil in Hn. }
  intros Hwf. split_and!.
  - intros verdict score g_eval h' self
      (_ & -> & _)%new_VerdictNode_inv.
    by apply (register_well_formed h _ []);
      [| | | |intros c ?%elem_of_nil].
  - intros criteria children params h' self
      (c1 & c2 & v1 & v2 & b & -> & Hc1 & Hc2 & _ & _ & _ & ->)%new_BinaryJudgementNode_inv.
    apply register_well_formed; try done.
    intros c [->|[->|[]%elem_of_nil]%elem_of_cons]%elem_of_cons;
      apply is_VerdictNode_lt; eauto.
  - intros criteria children params h' self
      (_ & labels & Hlab & _ & _ & ->)%new_NonBinaryJudgementNode_inv.
    apply register_well_formed; try done.
    intros c Hc. unfold labelled in Hlab.
    apply list_elem_of_lookup in Hc as [k Hk].
    destruct (Forall2_lookup_l _ _ _ _ _ Hlab Hk) as (s & _ & v & Hv & _).
    apply is_VerdictNode_lt. eauto.
  - intros instructions output_label children params h' self Holder.
    unfold new_TaskNode. destruct (existsb _ children); [done|].
    intros [= <- _]. by apply register_well_formed.
Qed.

Lemma well_formed_check_sound `{Collaborators} (h : heap) :
  well_formed_check h = true → well_formed h.
Proof.
  unfold well_formed_check. intros [Hacyc Hall]%andb_true_iff.
  split; [by apply acyclic_check_sound|].
  rewrite forallb_forall in Hall. intros i n Hn.
  apply (bool_decide_eq_true_1
           (_indegree n = registered (length (listings (skeleton <$> h) i))
            ∧ links_to (body n) (listings (skeleton <$> h) i))).
  apply (Hall (i, n)), list_elem_of_In.
  apply (list_elem_of_lookup_2 _ i).
  rewrite lookup_zip_with, lookup_seq_lt by (by eapply lookup_lt_Some).
  simpl. by rewrite Hn.
Qed.

(** ** Every node runs once *)

Lemma iter_dec_counter_Some (c : option Z) (v : nat) :
  Nat.iter (S v) dec_counter c = Some (level c - Z.of_nat (S v))%Z.
Proof.
  pose proof (level_iter_dec_counter c (S v)) as Hlevel.
  rewrite Nat.iter_succ in *.
  by destruct (Nat.iter v dec_counter c); simpl in *; f_equal.
Qed.

(** X12. On a graph as the constructors leave it, in which the root is
    the node made last and the only one that no node lists as a child, a
    pass that returns, sequential or through the event loop, has let every
    node of the graph through its join check, each exactly once, and has
    left every join counter at 0. *)
Theorem every_node_runs_once `{Collaborators} model measure test_case
    (st st' : State) (root : node_id) (depth : Z) (fuel : nat) :
  well_formed (nodes st) →
  entered st = [] →
  length (nodes st) = S root →
  (∀ i, i < root → listings (skeleton <$> nodes st) i ≠ []) →
  _execute model measure test_case fuel root depth st = Done st'
  ∨ _a_execute model measure test_case fuel root depth st = Done st' →
  (entered st').*1 ≡ₚ seq 0 (length (nodes st))
  ∧ (∀ i, i < length (nodes st) → counters st' !! i = Some (Some 0%Z)).
Proof.
  intros [Hacyc Hwf] Hent Hlen Hlisted Hrun.
  set (sk := skeleton <$> nodes st) in *.
  assert (Hacc : accounted st root (st', [])).
  { apply (accounted_steps model measure test_case st root
             (st, [(root, depth)])); [done| |].
    - apply accounted_start; [done|lia].
    - destruct Hrun as [Hrun|Hrun].
      + by apply (_execute_steps model measure test_case fuel).
      + by apply (event_loop_steps model measure test_case fuel). }
  destruct Hacc as [_ Hnd Hb Hc]. simpl in *. fold sk in Hc.
  set (E := (entered st').*1) in *.
  assert (Hsk : length sk = S root).
  { subst sk. by rewrite length_fmap. }
  assert (Hstart : ∀ i, i < length (nodes st) →
            default None (counters st !! i)
            = registered (length (listings sk i))).
  { intros i [n Hn]%lookup_lt_is_Some. unfold counters.
    rewrite list_lookup_fmap, Hn. simpl. by apply Hwf. }
  assert (Hroot : listings sk root = []).
  { apply listings_nil; [done|lia]. }
  assert (Hneed : ∀ i, i < length (nodes st) →
            let_through (default None (counters st !! i))
              ((if decide (i = root) then 1 else 0)
               + length (listings sk i))).
  { intros i Hi. rewrite Hstart by done. unfold let_through.
    destruct (decide (i = root)) as [->|Hne].
    - rewrite Hroot. simpl. lia.
    - destruct (listings sk i) eqn:Hl; [|simpl; lia].
      destruct (Hlisted i); [lia|done]. }
  assert (Hall : ∀ m i, root < i + m → i ≤ root → i ∈ E).
  { induction m as [|m IH]; intros i Hm Hi; [lia|].
    assert (HiN : i < length (nodes st)) by lia.
    destruct (Hc i HiN) as (v & _ & Hsum & Hin).
    rewrite occ_nil in Hsum. apply Hin.
    assert (Hp : pushed sk E i = length (listings sk i)).
    { rewrite length_listings, Hsk.
      rewrite (pushed_filter sk E), (pushed_filter sk (seq 0 (S root)))
        by done.
      apply pushed_Permutation.
      apply NoDup_Permutation;
        [by apply NoDup_filter|apply NoDup_filter, NoDup_seq|].
      intros j. rewrite !list_elem_of_filter, elem_of_seq.
      split; intros [Hj Hin']; (split; [done|]).
      - assert (j < length (nodes st)) by (apply Hb; by right). lia.
      - apply IH; lia. }
    replace v with ((if decide (i = root) then 1 else 0)
                    + length (listings sk i)) by lia.
    by apply Hneed. }
  assert (HE : E ≡ₚ seq 0 (length (nodes st))).
  { apply NoDup_Permutation; [done|apply NoDup_seq|].
    intros i. rewrite elem_of_seq. split.
    - intros Hi. assert (i < length (nodes st)) by (apply Hb; by right). lia.
    - intros Hi. apply (Hall (S root) i); lia. }
  split; [done|].
  intros i Hi. destruct (Hc i Hi) as (v & -> & Hsum & _).
  rewrite occ_nil, (pushed_Permutation sk _ _ i HE), Hlen, <- Hsk,
    <- length_listings in Hsum.
  rewrite Hstart by done. f_equal.
  destruct (decide (i = root)) as [->|Hne].
  - rewrite Hroot in *. simpl in Hsum.
    replace v with 1 by lia. done.
  - destruct (listings sk i) eqn:Hl; [destruct (Hlisted i); [lia|done]|].
    simpl in Hsum. replace v with (S (length l)) by lia.
    rewrite iter_dec_counter_Some. simpl level. f_equal. lia.
Qed.

Lemma every_node_runs_once_witness :
  ∃ st' : @State stub,
    _a_execute yes_judge no_measure stub_case 20 7 0
      (start two_branches (fresh_metric false false)) = Done st'
    ∧ (entered st').*1 ≡ₚ seq 0 8
    ∧ counters st' !! 2 = Some (Some 0%Z).
Proof.
  destruct (_a_execute yes_judge no_measure stub_case 20 7 0
              (start two_branches (fresh_metric false false)))
    as [st'| |] eqn:Hrun; [|by vm_compute in Hrun..].
  assert (Hwf : well_formed (H := stub) two_branches)
    by (apply well_formed_check_sound; vm_compute; reflexivity).
  assert (Hlisted : ∀ i, i < 7 →
            listings (H := stub) (skeleton <$> two_branches) i ≠ []).
  { intros i Hi.
    destruct i as [|[|[|[|[|[|[|i]]]]]]]; [by vm_compute..|lia]. }
  destruct (every_node_runs_once (H := stub) yes_judge no_measure stub_case
              (start two_branches (fresh_metric false false)) st'
              7 0%Z 20 Hwf eq_refl eq_refl Hlisted (or_intror Hrun))
    as [Hperm Hzero].
  exists st'. split; [done|]. split; [exact Hperm|].
  apply Hzero. simpl. vm_compute. lia.
Defined.

(** ** Parents run first *)

Lemma pushed_app `{Collaborators} (sk : list node_class)
    (l1 l2 : list node_id) (i : node_id) :
  pushed sk (l1 ++ l2) i = pushed sk l1 i + pushed sk l2 i.
Proof. unfold pushed. by rewrite bind_app, occ_app. Qed.

Lemma pushed_elem `{Collaborators} (sk : list node_class) (l : list node_id)
    (p i : node_id) :
  p ∈ l → occ i (kids sk p) ≤ pushed sk l i.
Proof.
  induction l as [|j l IH]; [by intros ?%elem_of_nil|].
  rewrite pushed_cons. intros [->|Hin]%elem_of_cons; [lia|].
  specialize (IH Hin). lia.
Qed.

Lemma kids_lt `{Collaborators} (sk : list node_class) (p i : node_id) :
  i ∈ kids sk p → p < length sk.
Proof.
  unfold kids. destruct (sk !! p) eqn:Hp; [|by intros ?%elem_of_nil].
  intros _. by eapply lookup_lt_Some.
Qed.

(** Nodes that set off as many visits of [i] as the whole graph can
    include every node that lists [i]. *)
Lemma pushed_all `{Collaborators} (sk : list node_class) (E : list node_id)
    (i p : node_id) :
  NoDup E → (∀ j, j ∈ E → j < length sk) →
  pushed sk (seq 0 (length sk)) i ≤ pushed sk E i →
  i ∈ kids sk p → p ∈ E.
Proof.
  intros Hnd Hb Hle Hp.
  assert (Hsub : E ⊆+ seq 0 (length sk)).
  { apply NoDup_submseteq; [done|]. intros j Hj. apply elem_of_seq.
    specialize (Hb j Hj). lia. }
  apply submseteq_Permutation in Hsub as [rest Hrest].
  rewrite (pushed_Permutation _ _ _ i Hrest), pushed_app in Hle.
  assert (Hin : p ∈ E ++ rest).
  { rewrite <- Hrest. apply elem_of_seq. apply kids_lt in Hp. lia. }
  apply elem_of_app in Hin as [Hin|Hin]; [done|].
  pose proof (pushed_elem sk rest p i Hin) as Hge.
  apply occ_pos in Hp. lia.
Qed.

Lemma level_registered (k : nat) : (Z.of_nat k ≤ level (registered k))%Z.
Proof. destruct k; simpl; lia. Qed.

Lemma parents_first_step `{Collaborators} model measure test_case
    (st0 : State) (root : node_id) (cfg cfg' : State * list (node_id * Z)) :
  well_formed (nodes st0) →
  listings (skeleton <$> nodes st0) root = [] →
  accounted st0 root cfg →
  parents_first (skeleton <$> nodes st0) (entered cfg.1).*1 →
  step model measure test_case cfg cfg' →
  parents_first (skeleton <$> nodes st0) (entered cfg'.1).*1.
Proof.
  intros [Hacyc Hwf] Hroot [Hg Hnd Hb Hc] Hord Hstep.
  destruct Hstep as [st st' self depth before after Hv
                    |st st' self depth before after children pending' Hv Hperm];
    simpl in *.
  - assert (Hvis : visited (visit model measure test_case self depth st)
                   = Some st') by (by rewrite Hv).
    destruct (visit_effect _ _ _ _ _ _ _ Hvis)
      as (n & Hself & _ & _ & _ & Hent).
    pose proof (visit_cases model measure test_case self depth st n Hself)
      as Hcase.
    rewrite Hv in Hcase.
    rewrite decrement_indegree_counter, bool_decide_eq_false_2, app_nil_r
      in Hent by done.
    by rewrite Hent.
  - assert (Hvis : visited (visit model measure test_case self depth st)
                   = Some st') by (by rewrite Hv).
    destruct (visit_effect _ _ _ _ _ _ _ Hvis)
      as (n & Hself & _ & _ & _ & Hent).
    pose proof (visit_cases model measure test_case self depth st n Hself)
      as Hcase.
    rewrite Hv in Hcase.
    rewrite decrement_indegree_counter, bool_decide_eq_true_2 in Hent by done.
    assert (Hselfb : self ≤ root ∧ self < length (nodes st0)).
    { apply Hb. left. rewrite fmap_app, fmap_cons, elem_of_app, elem_of_cons.
      auto. }
    destruct (Hc self (proj2 Hselfb)) as (v & Hctr & Hsum & _).
    pose proof (visit_finds _ _ _ _ _ Hself Hctr) as Hlevel.
    rewrite dec_counter_zero in Hcase.
    rewrite fmap_app, fmap_cons, occ_app, occ_cons, decide_True in Hsum
      by done.
    simpl in Hsum.
    set (sk := skeleton <$> nodes st0) in *.
    set (E := (entered st).*1) in *.
    assert (Hfull : pushed sk (seq 0 (length sk)) self ≤ pushed sk E self).
    { rewrite <- length_listings.
      destruct (decide (self = root)) as [->|Hne].
      - rewrite Hroot. simpl. lia.
      - destruct (lookup_lt_is_Some_2 _ _ (proj2 Hselfb)) as [n0 Hn0].
        destruct (Hwf self n0 Hn0) as [Hreg _]. fold sk in Hreg.
        assert (Hc0 : default None (counters st0 !! self) = _indegree n0).
        { unfold counters. by rewrite list_lookup_fmap, Hn0. }
        rewrite Hc0, Hreg in Hlevel.
        pose proof (level_registered (length (listings sk self))). lia. }
    rewrite Hent, fmap_app. simpl. fold E.
    intros k i p Hk Hp.
    destruct (decide (k < length E)) as [Hlt|Hge].
    + rewrite lookup_app_l in Hk by done.
      destruct (Hord k i p Hk Hp) as (k' & Hk' & Hp').
      exists k'. split; [done|]. rewrite lookup_app_l by lia. done.
    + rewrite lookup_app_r in Hk by lia.
      destruct (k - length E) as [|k0] eqn:Hk0; [|by destruct k0].
      injection Hk as <-.
      assert (Hin : p ∈ E).
      { apply (pushed_all sk E self p); try done.
        intros j Hj. subst sk. rewrite length_fmap. apply Hb. by right. }
      apply list_elem_of_lookup in Hin as [k' Hk'].
      exists k'. split.
      * apply lookup_lt_Some in Hk'. lia.
      * by rewrite lookup_app_l by (by eapply lookup_lt_Some).
Qed.

Lemma parents_first_steps `{Collaborators} model measure test_case
    (st0 : State) (root : node_id) (cfg cfg' : State * list (node_id * Z)) :
  well_formed (nodes st0) →
  listings (skeleton <$> nodes st0) root = [] →
  accounted st0 root cfg →
  parents_first (skeleton <$> nodes st0) (entered cfg.1).*1 →
  rtc (step model measure test_case) cfg cfg' →
  parents_first (skeleton <$> nodes st0) (entered cfg'.1).*1.
Proof.
  intros Hwf Hroot Hacc Hord Hsteps.
  induction Hsteps as [|cfg1 cfg2 cfg3 Hstep _ IH]; [done|].
  apply IH.
  - eapply accounted_step; [apply Hwf|done..].
  - by eapply parents_first_step.
Qed.

(** X13. The join counter does its job.  On a graph as the constructors
    leave it, in a pass that returns (sequential or through the event
    loop) from a root that no node lists as a child, every node that ran
    did so after all the nodes that list it among their children had run:
    the order in which nodes got past their join checks puts parents
    before children. *)
Theorem parents_run_first `{Collaborators} model measure test_case
    (st st' : State) (root : node_id) (depth : Z) (fuel : nat) :
  well_formed (nodes st) →
  entered st = [] →
  listings (skeleton <$> nodes st) root = [] →
  _execute model measure test_case fuel root depth st = Done st'
  ∨ _a_execute model measure test_case fuel root depth st = Done st' →
  ∀ k i d p n,
    entered st' !! k = Some (i, d) →
    nodes st !! p = Some n → i ∈ children_of n →
    ∃ k' d', k' < k ∧ entered st' !! k' = Some (p, d').
Proof.
  intros Hwf Hent Hroot Hrun k i d p n Hk Hp Hi.
  assert (Hlt : root < length (nodes st)).
  { destruct (decide (root < length (nodes st))) as [|Hge]; [done|].
    exfalso.
    assert (Hnone : nodes st !! root = None)
      by (apply lookup_ge_None_2; lia).
    destruct fuel as [|fuel]; [by destruct Hrun|].
    unfold _a_execute in Hrun. cbn [_execute event_loop] in Hrun.
    unfold visit in Hrun. rewrite Hnone in Hrun. by destruct Hrun. }
  assert (Hord : parents_first (skeleton <$> nodes st) (entered st').*1).
  { apply (parents_first_steps model measure test_case st root
             (st, [(root, depth)]) (st', [])); try done.
    - by apply accounted_start.
    - simpl. rewrite Hent. intros k0 i0 p0 Hk0. by destruct k0.
    - destruct Hrun as [Hrun|Hrun].
      + by apply (_execute_steps model measure test_case fuel).
      + by apply (event_loop_steps model measure test_case fuel). }
  destruct (Hord k i p) as (k' & Hk' & Hp').
  - by rewrite list_lookup_fmap, Hk.
  - by rewrite (kids_lookup _ _ _ Hp).
  - rewrite list_lookup_fmap in Hp'.
    destruct (entered st' !! k') as [[p' d']|] eqn:He; [|done].
    injection Hp' as ->. by exists k', d'.
Qed.

Lemma parents_run_first_witness :
  ∃ (st' : @State stub) k' d',
    _a_execute yes_judge no_measure stub_case 20 7 0
      (start two_branches (fresh_metric false false)) = Done st'
    ∧ entered st' !! 3 = Some (2, 2%Z)
    ∧ k' < 3 ∧ entered st' !! k' = Some (3, d').
Proof.
  destruct (_a_execute yes_judge no_measure stub_case 20 7 0
              (start two_branches (fresh_metric false false)))
    as [st'| |] eqn:Hrun; [|by vm_compute in Hrun..].
  assert (Hwf : well_formed (H := stub) two_branches)
    by (apply well_formed_check_sound; vm_compute; reflexivity).
  assert (Hthree : entered st' !! 3 = Some (2, 2%Z))
    by (vm_compute in Hrun; by injection Hrun as <-).
  destruct (parents_run_first (H := stub) yes_judge no_measure stub_case
              (start two_branches (fresh_metric false false)) st'
              7 0%Z 20 Hwf eq_refl eq_refl (or_intror Hrun)
              3 2 2%Z 3
              {| _indegree := Some 1%Z;
                 body := Task (@Build_TaskNode stub "inner" "Inner" [2]
                                 (Some [INPUT]) None (Some [7])) |}
              Hthree eq_refl ltac:(by left))
    as (k' & d' & Hlt & Hk').
  by exists st', k', d'.
Defined.
